(** * sumtype: casting between projections of a sum type

    A shallow embedding of the Go package [sumtype] (generic [Caster],
    [Cast], [ZeroNonKindFields], [ValidateStructFields]) and of the shape
    sum type built on it in [example_sumtypes_test.go], together with the
    properties the specification states about them.

    Go values are modelled as follows.
    - A Go [string] is a byte string: Rocq's [string].
    - A Go [int] is a [Z]; the JSON decoder checks the 64-bit range.
    - A pointer is [option loc]: [None] is [nil].  Every pointee type
      has its own store, so that pointers of different Go types never
      alias, while two pointers of the same type may.
    - A function that may panic returns an [outcome]; a function that
      reads or writes memory is a state transformer [M]. *)

From Stdlib Require Import ZArith Ascii String Decimal DecimalString DecimalPos DecimalZ.
From stdpp Require Import gmap strings list.

Local Open Scope string_scope.

(** ** The Go runtime: panics, memory, the state monad *)

Module Go.

Definition loc := positive.

(** The value carried by a panic. *)
Inductive panic :=
| NilDereference               (* runtime error: nil pointer dereference *)
| ReflectPanic (msg : string)  (* a panic raised inside package reflect *)
| PanicString (msg : string)   (* panic(fmt.Sprintf(...)) *)
| PanicError (msg : string).   (* panic(err): the error, by its text *)

Inductive outcome (A : Type) :=
| Returned (a : A)
| Panicked (p : panic).
Arguments Returned {A} a.
Arguments Panicked {A} p.

Definition is_panic {A} (o : outcome A) : bool :=
  match o with Returned _ => false | Panicked _ => true end.

Definition obind {A B} (o : outcome A) (k : A → outcome B) : outcome B :=
  match o with Returned a => k a | Panicked p => Panicked p end.

End Go.
Export Go.

(** ** Package reflect: the part of it the package relies on *)

Module reflect.

(** The identity of a Go type, as [==] on [reflect.Type] compares it. *)
Inductive GoType :=
| Predeclared (name : string)      (* int, string, struct {}, ... *)
| Defined (pkg name : string)      (* a defined (named) type *)
| PointerTo (elem : GoType).

#[global] Instance GoType_eq_dec : EqDecision GoType.
Proof. solve_decision. Defined.

(** [Type.String()] *)
Fixpoint String (t : GoType) : string :=
  match t with
  | Predeclared n => n
  | Defined p n => p +:+ "." +:+ n
  | PointerTo e => "*" +:+ String e
  end.

(** [reflect.StructField]: [PkgPath] is empty for exported fields. *)
Record StructField := {
  Name : string;
  PkgPath : string;
  Type_ : GoType;
}.

Definition IsExported (f : StructField) : bool := String.eqb (PkgPath f) "".

(** A [reflect.Type]: its identity and what its kind offers. *)
Inductive RType :=
| StructT (id : GoType) (fields : list StructField)
| PtrT (elem : RType)
| ContainerT (id : GoType) (elem : RType)   (* array, chan, map or slice *)
| OtherT (id : GoType).

Fixpoint id_of (t : RType) : GoType :=
  match t with
  | StructT id _ => id
  | PtrT e => PointerTo (id_of e)
  | ContainerT id _ => id
  | OtherT id => id
  end.

(** [Type.Name()]: the name of a defined type, empty otherwise. *)
Definition TypeName (t : RType) : string :=
  match id_of t with Defined _ n => n | _ => "" end.

(** [Type.NumField()] panics if the kind is not Struct. *)
Definition NumField (t : RType) : outcome nat :=
  match t with
  | StructT _ fs => Returned (length fs)
  | _ => Panicked (ReflectPanic "reflect: NumField of non-struct type")
  end.

(** [Type.Field(i)] panics if the kind is not Struct or [i] is out of
    range. *)
Definition Field (t : RType) (i : nat) : outcome StructField :=
  match t with
  | StructT _ fs =>
      match fs !! i with
      | Some f => Returned f
      | None => Panicked (ReflectPanic "reflect: Field index out of bounds")
      end
  | _ => Panicked (ReflectPanic "reflect: Field of non-struct type")
  end.

(** [Type.Elem()] panics unless the type has an element type: unless
    its kind is Array, Chan, Map, Pointer or Slice. *)
Definition Elem (t : RType) : outcome RType :=
  match t with
  | PtrT e => Returned e
  | ContainerT _ e => Returned e
  | _ => Panicked (ReflectPanic "reflect: Elem of invalid type")
  end.

End reflect.

(** ** The fixtures of example_sumtypes_test.go: types and storage *)

Definition ShapeKind := string.

Definition CircleShapeKind : ShapeKind := "circle".
Definition RectangleShapeKind : ShapeKind := "rectangle".

(** The storage of one [shape] (and of every projection of it: they
    share the layout).  The first field, the zero-size [shapeCaster],
    holds no data. *)
Record shape := {
  Color : option loc;    (* *string *)
  Kind : option loc;     (* *ShapeKind *)
  Radius : option loc;   (* *int *)
  Width : option loc;    (* *int *)
  Height : option loc;   (* *int *)
}.

Definition zero_shape : shape :=
  {| Color := None; Kind := None; Radius := None; Width := None; Height := None |}.

(** Memory: one store per pointee type, and the store of the records. *)
Record mem := {
  strs : gmap loc string;
  kinds : gmap loc ShapeKind;
  ints : gmap loc Z;
  shapes : gmap loc shape;
}.

Definition M (A : Type) : Type := mem → outcome A * mem.

Definition ret {A} (a : A) : M A := λ m, (Returned a, m).
Definition bind {A B} (x : M A) (k : A → M B) : M B :=
  λ m, match x m with
       | (Returned a, m') => k a m'
       | (Panicked p, m') => (Panicked p, m')
       end.
Definition throw {A} (p : panic) : M A := λ m, (Panicked p, m).
Definition lift {A} (o : outcome A) : M A := λ m, (o, m).

Notation "x <- e ;; k" := (bind e (λ x, k))
  (at level 100, e at next level, k at level 200, right associativity).
Notation "e ;;; k" := (bind e (λ _, k))
  (at level 100, k at level 200, right associativity).

(** [for f := range n { body }] *)
Fixpoint for_range_from (start n : nat) (body : nat → M unit) : M unit :=
  match n with
  | O => ret tt
  | S n' => body start ;;; for_range_from (S start) n' body
  end.
Definition for_range (n : nat) (body : nat → M unit) : M unit :=
  for_range_from 0 n body.

(** Reading and writing a record through a pointer to it. *)
Definition load_shape (c : loc) : M shape :=
  λ m, match shapes m !! c with
       | Some s => (Returned s, m)
       | None => (Panicked NilDereference, m)
       end.

Definition store_shape (c : loc) (s : shape) : M unit :=
  λ m, (Returned tt,
        {| strs := strs m; kinds := kinds m; ints := ints m;
           shapes := <[c := s]> (shapes m) |}).

(** [*p] and [*p = k] for a [*ShapeKind]. *)
Definition load_kind (p : option loc) : M ShapeKind :=
  λ m, match p with
       | None => (Panicked NilDereference, m)
       | Some l => match kinds m !! l with
                   | Some k => (Returned k, m)
                   | None => (Panicked NilDereference, m)
                   end
       end.

Definition store_kind (p : option loc) (k : ShapeKind) : M unit :=
  λ m, match p with
       | None => (Panicked NilDereference, m)
       | Some l =>
           (Returned tt,
            {| strs := strs m; kinds := <[l := k]> (kinds m); ints := ints m;
               shapes := shapes m |})
       end.

(** The four struct types, as package reflect describes them. *)
Module Types.
Import reflect.

Definition pkg := "sumtype_test".

Definition t_string := Predeclared "string".
Definition t_int := Predeclared "int".
Definition t_ShapeKind := Defined pkg "ShapeKind".
Definition t_shapeCaster := Defined pkg "shapeCaster".
(** [sumtype.Caster[shape]] *)
Definition t_Caster :=
  Defined "sumtype" "Caster[github.com/JeffreyRichter/sumtype_test.shape]".

Definition exported (n : string) (t : GoType) : StructField :=
  {| Name := n; PkgPath := ""; Type_ := t |}.
Definition unexported (n : string) (t : GoType) : StructField :=
  {| Name := n; PkgPath := pkg; Type_ := t |}.

Definition T_shape : reflect.RType :=
  StructT (Defined pkg "shape")
    [ unexported "shapeCaster" t_shapeCaster;
      exported "Color" (PointerTo t_string);
      exported "Kind" (PointerTo t_ShapeKind);
      exported "Radius" (PointerTo t_int);
      exported "Width" (PointerTo t_int);
      exported "Height" (PointerTo t_int) ].

Definition T_Shape : reflect.RType :=
  StructT (Defined pkg "Shape")
    [ unexported "shapeCaster" t_shapeCaster;
      exported "Color" (PointerTo t_string);
      exported "Kind" (PointerTo t_ShapeKind);
      unexported "_" (PointerTo t_int);
      unexported "_" (PointerTo t_int);
      unexported "_" (PointerTo t_int) ].

Definition T_CircleShape : reflect.RType :=
  StructT (Defined pkg "CircleShape")
    [ unexported "shapeCaster" t_shapeCaster;
      exported "Color" (PointerTo t_string);
      exported "Kind" (PointerTo t_ShapeKind);
      exported "Radius" (PointerTo t_int);
      unexported "_" (PointerTo t_int);
      unexported "_" (PointerTo t_int) ].

Definition T_RectangleShape : reflect.RType :=
  StructT (Defined pkg "RectangleShape")
    [ unexported "shapeCaster" t_shapeCaster;
      exported "Color" (PointerTo t_string);
      exported "Kind" (PointerTo t_ShapeKind);
      unexported "_" (PointerTo t_int);
      exported "Width" (PointerTo t_int);
      exported "Height" (PointerTo t_int) ].

(** The underlying type of the types declared in the example. *)
Definition underlying (t : GoType) : GoType :=
  if decide (t = t_shapeCaster) then Predeclared "struct {}"
  else if decide (t = t_Caster) then Predeclared "struct {}"
  else if decide (t = t_ShapeKind) then t_string
  else t.

(** [Type.ConvertibleTo] by the rule the example needs: two types with
    identical underlying types convert into each other. *)
Definition ConvertibleTo (v t : GoType) : bool :=
  bool_decide (underlying v = underlying t).

End Types.

(** A typed pointer to the storage of a record: which projection it is
    seen as, and where the storage is. *)
Inductive projection := As_shape | As_Shape | As_CircleShape | As_RectangleShape.

Record view := { vtype : projection; vaddr : loc }.

(** ** Package encoding/json/jsontext: reading and writing JSON text

    The syntactic layer of encoding/json/v2, as far as records with
    string and integer fields need it.  It belongs to the Go
    distribution, not to this repository; it is modelled after its
    documentation: RFC 8259 syntax, strings that must be valid UTF-8,
    object member names that must be unique, and values nested at most
    10000 deep. *)

Module jsontext.

(** A JSON value.  Of a number, the sign, the digits of the integer part
    and whether that is all of it (no fraction, no exponent) are kept. *)
#[local] Unset Elimination Schemes.
Inductive Value :=
| Null
| Bool (b : bool)
| Number (negative : bool) (digits : uint) (integral : bool)
| Str (s : string)
| Array (vs : list Value)
| Object (ms : list (string * Value)).
#[local] Set Elimination Schemes.

Definition byte (c : ascii) : N := N_of_ascii c.

Definition is_ws (c : ascii) : bool :=
  match byte c with 32 | 9 | 10 | 13 => true | _ => false end%N.

Fixpoint skip_ws (s : string) : string :=
  match s with
  | String c r => if is_ws c then skip_ws r else s
  | EmptyString => s
  end.

(** *** UTF-8 *)

Definition in_range (lo hi : N) (c : ascii) : bool :=
  (lo <=? byte c)%N && (byte c <=? hi)%N.

Definition cont := in_range 128 191.

(** Well-formed UTF-8 byte sequences (RFC 3629). *)
Fixpoint utf8_valid (s : string) : bool :=
  match s with
  | EmptyString => true
  | String a r =>
      if (byte a <? 128)%N then utf8_valid r
      else match r with
      | String b r1 =>
          if in_range 194 223 a then cont b && utf8_valid r1
          else match r1 with
          | String c r2 =>
              if (in_range 224 224 a && in_range 160 191 b
                  || in_range 225 236 a && cont b
                  || in_range 237 237 a && in_range 128 159 b
                  || in_range 238 239 a && cont b)
              then cont c && utf8_valid r2
              else match r2 with
              | String d r3 =>
                  if (in_range 240 240 a && in_range 144 191 b
                      || in_range 241 243 a && cont b
                      || in_range 244 244 a && in_range 128 143 b)
                  then cont c && cont d && utf8_valid r3
                  else false
              | EmptyString => false
              end
          | EmptyString => false
          end
      | EmptyString => false
      end
  end.

Definition chr (n : N) : ascii := ascii_of_N n.

(** The UTF-8 encoding of a Unicode scalar value. *)
Definition utf8_encode (cp : N) : string :=
  (if cp <? 128 then String (chr cp) ""
   else if cp <? 2048 then
     String (chr (192 + cp / 64)) (String (chr (128 + cp mod 64)) "")
   else if cp <? 65536 then
     String (chr (224 + cp / 4096))
       (String (chr (128 + (cp / 64) mod 64))
          (String (chr (128 + cp mod 64)) ""))
   else
     String (chr (240 + cp / 262144))
       (String (chr (128 + (cp / 4096) mod 64))
          (String (chr (128 + (cp / 64) mod 64))
             (String (chr (128 + cp mod 64)) ""))))%N.

(** *** Strings *)

Definition hex_digit (c : ascii) : option N :=
  (if in_range 48 57 c then Some (byte c - 48)
   else if in_range 97 102 c then Some (byte c - 87)
   else if in_range 65 70 c then Some (byte c - 55)
   else None)%N.

Definition hex4 (a b c d : ascii) : option N :=
  match hex_digit a, hex_digit b, hex_digit c, hex_digit d with
  | Some x, Some y, Some z, Some w => Some (((x * 16 + y) * 16 + z) * 16 + w)%N
  | _, _, _, _ => None
  end.

Definition prepend (p : string) (r : option (string * string))
  : option (string * string) :=
  match r with Some (s, rest) => Some (p +:+ s, rest) | None => None end.

(** The characters of a string literal after its opening quote, up to
    and including the closing quote: the decoded string and the rest of
    the input. *)
Fixpoint read_chars (s : string) : option (string * string) :=
  match s with
  | EmptyString => None
  | String c r =>
      if (byte c =? 34)%N then Some ("", r)
      else if (byte c <? 32)%N then None
      else if (byte c =? 92)%N then
        match r with
        | String e r1 =>
            match byte e with
            | 34 => prepend (String (chr 34) "") (read_chars r1)
            | 92 => prepend (String (chr 92) "") (read_chars r1)
            | 47 => prepend (String (chr 47) "") (read_chars r1)
            | 98 => prepend (String (chr 8) "") (read_chars r1)
            | 102 => prepend (String (chr 12) "") (read_chars r1)
            | 110 => prepend (String (chr 10) "") (read_chars r1)
            | 114 => prepend (String (chr 13) "") (read_chars r1)
            | 116 => prepend (String (chr 9) "") (read_chars r1)
            | 117 =>
                match r1 with
                | String h1 (String h2 (String h3 (String h4 r2))) =>
                    match hex4 h1 h2 h3 h4 with
                    | None => None
                    | Some hi =>
                        if (hi <? 55296)%N || (57344 <=? hi)%N then
                          prepend (utf8_encode hi) (read_chars r2)
                        else if (hi <? 56320)%N then
                          (* a high surrogate: a low one must follow *)
                          match r2 with
                          | String b (String u (String l1 (String l2
                              (String l3 (String l4 r3))))) =>
                              if (byte b =? 92)%N && (byte u =? 117)%N then
                                match hex4 l1 l2 l3 l4 with
                                | Some lo =>
                                    if (56320 <=? lo)%N && (lo <? 57344)%N then
                                      prepend
                                        (utf8_encode (65536 + (hi - 55296) * 1024
                                                      + (lo - 56320))%N)
                                        (read_chars r3)
                                    else None
                                | None => None
                                end
                              else None
                          | _ => None
                          end
                        else None
                    end
                | _ => None
                end
            | _ => None
            end%N
        | EmptyString => None
        end
      else prepend (String c "") (read_chars r)
  end.

(** A string literal after its opening quote, checked to be UTF-8. *)
Definition read_string (s : string) : option (string * string) :=
  match read_chars s with
  | Some (str, rest) => if utf8_valid str then Some (str, rest) else None
  | None => None
  end.

Definition hex_char (n : N) : ascii :=
  (if n <? 10 then chr (48 + n) else chr (87 + n))%N.

(** How the encoder writes one byte of a string. *)
Definition escape_byte (c : ascii) : string :=
  match byte c with
  | 34 => String "\" (String c "")
  | 92 => "\\"
  | 8 => "\b"
  | 12 => "\f"
  | 10 => "\n"
  | 13 => "\r"
  | 9 => "\t"
  | n => if (n <? 32)%N
         then "\u00" +:+ String (hex_char (n / 16)) (String (hex_char (n mod 16)) "")
         else String c ""
  end%N.

Fixpoint escape (s : string) : string :=
  match s with
  | EmptyString => ""
  | String c r => escape_byte c +:+ escape r
  end.

(** A string literal. *)
Definition quote (s : string) : string :=
  String (chr 34) (escape s +:+ String (chr 34) "").

(** *** Numbers *)

Definition digit_of (c : ascii) : option (uint → uint) :=
  match byte c with
  | 48 => Some D0 | 49 => Some D1 | 50 => Some D2 | 51 => Some D3
  | 52 => Some D4 | 53 => Some D5 | 54 => Some D6 | 55 => Some D7
  | 56 => Some D8 | 57 => Some D9 | _ => None
  end%N.

Fixpoint read_digits (s : string) : uint * string :=
  match s with
  | String c r =>
      match digit_of c with
      | Some D => let (d, rest) := read_digits r in (D d, rest)
      | None => (Nil, s)
      end
  | EmptyString => (Nil, s)
  end.

(** The digits of the integer part of a number: the digit zero alone,
    or all the digits from a first digit that is not zero.  After a zero
    the number token is at its end, or goes on with a fraction or an
    exponent: a digit that follows is left in the input. *)
Definition read_int_part (s : string) : uint * string :=
  match s with
  | String "0" r => (D0 Nil, r)
  | _ => read_digits s
  end.

(** The integer part of a number: one digit at least, and no leading
    zero unless it is the digit zero alone. *)
Definition int_part_ok (d : uint) : bool :=
  match d with
  | Nil => false
  | D0 Nil => true
  | D0 _ => false
  | _ => true
  end.

(** The optional fraction: [None] if it is there but has no digit. *)
Definition read_frac (s : string) : option (bool * string) :=
  match s with
  | String "." r =>
      match read_digits r with
      | (Nil, _) => None
      | (_, rest) => Some (true, rest)
      end
  | _ => Some (false, s)
  end.

(** The optional exponent: [None] if it is there but has no digit. *)
Definition read_exp (s : string) : option (bool * string) :=
  let digits r :=
    match read_digits r with
    | (Nil, _) => None
    | (_, rest) => Some (true, rest)
    end in
  let signed r :=
    match r with
    | String "+" r1 => digits r1
    | String "-" r1 => digits r1
    | _ => digits r
    end in
  match s with
  | String "e" r => signed r
  | String "E" r => signed r
  | _ => Some (false, s)
  end.

Definition read_number (s : string) : option (Value * string) :=
  let '(negative, s1) :=
    match s with String "-" r => (true, r) | _ => (false, s) end in
  let (d, s2) := read_int_part s1 in
  if int_part_ok d then
    match read_frac s2 with
    | Some (has_frac, s3) =>
        match read_exp s3 with
        | Some (has_exp, s4) =>
            Some (Number negative d (negb has_frac && negb has_exp), s4)
        | None => None
        end
    | None => None
    end
  else None.

(** *** Values *)

(** What reading the members of an object yields: the members read, in
    order, each with its value if that could be read, and how the
    reading ended. *)
Inductive item :=
| Whole (v : Value)
| Torn (null_ahead : bool).

Inductive ending :=
| Closed (rest : string)
| Broken.

Definition dquote : ascii := chr 34.

(** The input after white space and the character [c], if that comes
    next. *)
Definition expect (c : ascii) (s : string) : option string :=
  match skip_ws s with
  | String x r => if Ascii.eqb x c then Some r else None
  | EmptyString => None
  end.

(** Whether a colon and then the first letter of [null] come next:
    [Decoder.PeekKind() == 'n'] at a member's value. *)
Definition null_ahead (s : string) : bool :=
  match expect ":" s with
  | Some r => match expect "n" r with Some _ => true | None => false end
  | None => false
  end.

(** The members, if the value of each of them was read. *)
Fixpoint whole (ms : list (string * item)) : option (list (string * Value)) :=
  match ms with
  | [] => Some []
  | (name, Whole v) :: rest =>
      match whole rest with
      | Some ms' => Some ((name, v) :: ms')
      | None => None
      end
  | (_, Torn _) :: _ => None
  end.

(** How deep arrays and objects are nested in a value. *)
Fixpoint depth (v : Value) : N :=
  match v with
  | Array vs => N.succ (foldr (λ x d, N.max (depth x) d) 0%N vs)
  | Object ms => N.succ (foldr (λ nv d, N.max (depth (snd nv)) d) 0%N ms)
  | _ => 0%N
  end.

(** The decoder refuses a text in which arrays and objects are nested
    more than [maxNestingDepth] deep.  A value that is a member of the
    outermost object is one level down. *)
Definition maxNestingDepth : N := 10000.

Definition too_deep (v : Value) : bool := (maxNestingDepth <=? depth v)%N.

(** The rest of the input if it begins with [p]. *)
Fixpoint starts (p s : string) : option string :=
  match p, s with
  | EmptyString, _ => Some s
  | String a p', String b s' => if Ascii.eqb a b then starts p' s' else None
  | String _ _, EmptyString => None
  end.

(** [read_value]: one JSON value at the front of the input, leading
    white space skipped: the value and the rest of the input.
    [read_elements]: the elements of an array that is not empty, up to
    its closing bracket.  [scan_members]: the members of an object after
    its opening brace, up to its closing brace or to the first syntax
    error, which a value nested too deep is as well.  All recurse on [fuel], of which the length of the input is
    enough. *)
Fixpoint read_value (fuel : nat) (s : string) : option (Value * string) :=
  match fuel with
  | O => None
  | S fuel' =>
      match skip_ws s with
      | EmptyString => None
      | String c r =>
          if Ascii.eqb c "n" then
            match starts "ull" r with Some r' => Some (Null, r') | None => None end
          else if Ascii.eqb c "t" then
            match starts "rue" r with Some r' => Some (Bool true, r') | None => None end
          else if Ascii.eqb c "f" then
            match starts "alse" r with Some r' => Some (Bool false, r') | None => None end
          else if Ascii.eqb c dquote then
            match read_string r with
            | Some (str, r') => Some (Str str, r')
            | None => None
            end
          else if Ascii.eqb c "[" then
            match expect "]" r with
            | Some r' => Some (Array [], r')
            | None =>
                match read_elements fuel' r with
                | Some (vs, r') => Some (Array vs, r')
                | None => None
                end
            end
          else if Ascii.eqb c "{" then
            match scan_members fuel' r [] true with
            | (ms, Closed r') =>
                match whole ms with
                | Some ms' => Some (Object ms', r')
                | None => None
                end
            | (_, Broken) => None
            end
          else read_number (String c r)
      end
  end
with read_elements (fuel : nat) (s : string) : option (list Value * string) :=
  match fuel with
  | O => None
  | S fuel' =>
      match read_value fuel' s with
      | Some (v, r) =>
          match expect "," r with
          | Some r' =>
              match read_elements fuel' r' with
              | Some (vs, r'') => Some (v :: vs, r'')
              | None => None
              end
          | None =>
              match expect "]" r with
              | Some r' => Some ([v], r')
              | None => None
              end
          end
      | None => None
      end
  end
with scan_members (fuel : nat) (s : string) (seen : list string) (first : bool)
  : list (string * item) * ending :=
  match fuel with
  | O => ([], Broken)
  | S fuel' =>
      match expect "}" s with
      | Some r => if first then ([], Closed r) else ([], Broken)
      | None =>
          match expect dquote s with
          | None => ([], Broken)
          | Some r =>
              match read_string r with
              | None => ([], Broken)
              | Some (name, r1) =>
                  if bool_decide (name ∈ seen) then ([], Broken)
                  else
                    match expect ":" r1 with
                    | None => ([(name, Torn false)], Broken)
                    | Some r2 =>
                        match read_value fuel' r2 with
                        | None => ([(name, Torn (null_ahead r1))], Broken)
                        | Some (v, r3) =>
                            if too_deep v then ([(name, Torn false)], Broken)
                            else
                            match expect "," r3 with
                            | Some r4 =>
                                let (ms, e) :=
                                  scan_members fuel' r4 (name :: seen) false in
                                ((name, Whole v) :: ms, e)
                            | None =>
                                match expect "}" r3 with
                                | Some r4 => ([(name, Whole v)], Closed r4)
                                | None => ([(name, Whole v)], Broken)
                                end
                            end
                        end
                    end
              end
          end
      end
  end.

End jsontext.

(** ** Package encoding/json/v2: a [shape] to and from JSON text

    [json.Marshal] and [json.Unmarshal] at the type [*shape], whose
    fields are declared with the tags [json:"color,omitempty"],
    ["kind,omitempty"], ["radius,omitempty"], ["width,omitempty"] and
    ["height,omitempty"].  Like jsontext, the package belongs to the Go
    distribution and is modelled after its documentation:
    - fields are written in the order of their declaration;
    - [omitempty] omits a field that would be written as [null] or as the
      empty string;
    - a string that is not valid UTF-8 is an error;
    - member names match field names exactly, unknown names are skipped;
    - [null] sets a pointer to nil, any other value is stored through
      the pointer, which is allocated first if it is nil;
    - the input is decoded in one pass: a member is stored when it is
      read, and the first error ends the decoding. *)

Module json.
Import jsontext.

Inductive error :=
| SyntacticError     (* the text is not JSON, or a string is not UTF-8 *)
| SemanticError.     (* the JSON value does not fit the Go value *)

(** What a Go function with results [(T, error)] returns. *)
Inductive result (A : Type) :=
| Ok (a : A)
| Err (e : error).
Arguments Ok {A} a.
Arguments Err {A} e.

Inductive field := FColor | FKind | FRadius | FWidth | FHeight.

#[global] Instance field_eq_dec : EqDecision field.
Proof. solve_decision. Defined.

(** The fields of [shape] with a JSON name, in declaration order. *)
Definition fields : list field := [FColor; FKind; FRadius; FWidth; FHeight].

Definition name_of (f : field) : string :=
  match f with
  | FColor => "color"
  | FKind => "kind"
  | FRadius => "radius"
  | FWidth => "width"
  | FHeight => "height"
  end.

Definition field_of (name : string) : option field :=
  if String.eqb name "color" then Some FColor
  else if String.eqb name "kind" then Some FKind
  else if String.eqb name "radius" then Some FRadius
  else if String.eqb name "width" then Some FWidth
  else if String.eqb name "height" then Some FHeight
  else None.

Definition slot (f : field) (s : shape) : option loc :=
  match f with
  | FColor => Color s
  | FKind => Kind s
  | FRadius => Radius s
  | FWidth => Width s
  | FHeight => Height s
  end.

Definition set_slot (f : field) (p : option loc) (s : shape) : shape :=
  match f with
  | FColor => {| Color := p; Kind := Kind s; Radius := Radius s;
                 Width := Width s; Height := Height s |}
  | FKind => {| Color := Color s; Kind := p; Radius := Radius s;
                Width := Width s; Height := Height s |}
  | FRadius => {| Color := Color s; Kind := Kind s; Radius := p;
                  Width := Width s; Height := Height s |}
  | FWidth => {| Color := Color s; Kind := Kind s; Radius := Radius s;
                 Width := p; Height := Height s |}
  | FHeight => {| Color := Color s; Kind := Kind s; Radius := Radius s;
                  Width := Width s; Height := p |}
  end.

(** *** Marshal *)

(** A Go [int] in decimal. *)
Definition format_int (z : Z) : string := NilZero.string_of_int (Z.to_int z).

(** A string as a JSON value: [None] when [omitempty] drops it. *)
Definition marshal_string (s : string) : result (option string) :=
  if utf8_valid s then
    if String.eqb s "" then Ok None else Ok (Some (quote s))
  else Err SyntacticError.

(** The value of one field: [None] when [omitempty] drops the field. *)
Definition marshal_field (m : mem) (s : shape) (f : field)
  : outcome (result (option string)) :=
  match slot f s with
  | None => Returned (Ok None)
  | Some l =>
      match f with
      | FColor =>
          match strs m !! l with
          | Some v => Returned (marshal_string v)
          | None => Panicked NilDereference
          end
      | FKind =>
          match kinds m !! l with
          | Some v => Returned (marshal_string v)
          | None => Panicked NilDereference
          end
      | _ =>
          match ints m !! l with
          | Some z => Returned (Ok (Some (format_int z)))
          | None => Panicked NilDereference
          end
      end
  end.

(** The members of the object, separators included. *)
Fixpoint marshal_fields (m : mem) (s : shape) (fs : list field) (first : bool)
  : outcome (result string) :=
  match fs with
  | [] => Returned (Ok "")
  | f :: rest =>
      match marshal_field m s f with
      | Panicked p => Panicked p
      | Returned (Err e) => Returned (Err e)
      | Returned (Ok None) => marshal_fields m s rest first
      | Returned (Ok (Some v)) =>
          match marshal_fields m s rest false with
          | Returned (Ok more) =>
              Returned (Ok ((if first then "" else ",") +:+
                            quote (name_of f) +:+ ":" +:+ v +:+ more))
          | other => other
          end
      end
  end.

(** [json.Marshal(p)] for [p] a [*shape]. *)
Definition Marshal (p : view) : M (result string) :=
  s <- load_shape (vaddr p) ;;
  λ m, match marshal_fields m s fields true with
       | Returned (Ok body) => (Returned (Ok ("{" +:+ body +:+ "}")), m)
       | Returned (Err e) => (Returned (Err e), m)
       | Panicked p => (Panicked p, m)
       end.

(** *** Unmarshal *)

Definition min_int : Z := - 2 ^ 63.
Definition max_int : Z := 2 ^ 63 - 1.

(** [new(T)] for the pointee type of field [f]. *)
Definition alloc (f : field) : M loc :=
  λ m, match f with
       | FColor =>
           let l := fresh (dom (strs m)) in
           (Returned l, {| strs := <[l := ""]> (strs m); kinds := kinds m;
                           ints := ints m; shapes := shapes m |})
       | FKind =>
           let l := fresh (dom (kinds m)) in
           (Returned l, {| strs := strs m; kinds := <[l := ""]> (kinds m);
                           ints := ints m; shapes := shapes m |})
       | _ =>
           let l := fresh (dom (ints m)) in
           (Returned l, {| strs := strs m; kinds := kinds m;
                           ints := <[l := 0%Z]> (ints m); shapes := shapes m |})
       end.

(** The JSON value [v] stored through the pointer [l] of field [f]. *)
Definition store_value (f : field) (l : loc) (v : Value) : M (option error) :=
  λ m, match f, v with
       | FColor, Str s =>
           (Returned None, {| strs := <[l := s]> (strs m); kinds := kinds m;
                              ints := ints m; shapes := shapes m |})
       | FKind, Str s =>
           (Returned None, {| strs := strs m; kinds := <[l := s]> (kinds m);
                              ints := ints m; shapes := shapes m |})
       | (FRadius | FWidth | FHeight), Number negative d true =>
           let z := Z.of_int (if negative then Neg d else Pos d) in
           if (min_int <=? z)%Z && (z <=? max_int)%Z then
             (Returned None, {| strs := strs m; kinds := kinds m;
                                ints := <[l := z]> (ints m); shapes := shapes m |})
           else (Returned (Some SemanticError), m)
       | _, _ => (Returned (Some SemanticError), m)
       end.

(** The pointer of field [f] of the record at [c], allocated if nil. *)
Definition pointee (c : loc) (f : field) : M loc :=
  s <- load_shape c ;;
  match slot f s with
  | Some l => ret l
  | None =>
      l <- alloc f ;;
      store_shape c (set_slot f (Some l) s) ;;;
      ret l
  end.

(** One member decoded into the record at [c]. *)
Definition unmarshal_member (c : loc) (name : string) (it : item)
  : M (option error) :=
  match field_of name with
  | None =>
      ret (match it with Whole _ => None | Torn _ => Some SyntacticError end)
  | Some f =>
      match it with
      | Whole Null =>
          s <- load_shape c ;;
          store_shape c (set_slot f None s) ;;;
          ret None
      | Torn true => ret (Some SyntacticError)
      | Whole v => l <- pointee c f ;; store_value f l v
      | Torn false => pointee c f ;;; ret (Some SyntacticError)
      end
  end.

(** The members in order, up to the first error. *)
Fixpoint unmarshal_members (c : loc) (ms : list (string * item))
  : M (option error) :=
  match ms with
  | [] => ret None
  | (name, it) :: rest =>
      err <- unmarshal_member c name it ;;
      match err with
      | Some e => ret (Some e)
      | None => unmarshal_members c rest
      end
  end.

(** Nothing but white space may follow the value. *)
Definition check_eof (rest : string) : option error :=
  match skip_ws rest with
  | EmptyString => None
  | _ => Some SyntacticError
  end.

(** [json.Unmarshal(data, p)] for [p] a [*shape]: an object is decoded
    member by member, [null] sets the record to its zero value, and no
    other value fits a struct. *)
Definition Unmarshal (data : string) (p : view) : M (option error) :=
  let c := vaddr p in
  let fuel := String.length data in
  match expect "{" data with
  | Some r =>
      let (ms, e) := scan_members fuel r [] true in
      err <- unmarshal_members c ms ;;
      match err, e with
      | Some e, _ => ret (Some e)
      | None, Closed rest => ret (check_eof rest)
      | None, Broken => ret (Some SyntacticError)
      end
  | None =>
      match expect "[" data with
      | Some _ => ret (Some SemanticError)
      | None =>
          match read_value (S fuel) data with
          | None => ret (Some SyntacticError)
          | Some (Null, rest) =>
              load_shape c ;;;
              store_shape c zero_shape ;;;
              ret (check_eof rest)
          | Some (_, _) => ret (Some SemanticError)
          end
      end
  end.

(** The text is one JSON value, white space around it allowed. *)
Definition well_formed (data : string) : Prop :=
  ∃ v rest, read_value (S (String.length data)) data = Some (v, rest)
            ∧ skip_ws rest = "".

End json.

(** ** Package sumtype *)

Module sumtype.
Import reflect.

(** [Cast]: the pointer is reinterpreted, the address is kept. *)
Definition Cast (To : projection) (caster : loc) : view :=
  {| vtype := To; vaddr := caster |}.

(** [Caster.Json] *)
Definition Json (c : loc) : view := Cast As_shape c.

(** [Caster.MarshalJSON] *)
Definition MarshalJSON (c : loc) : M (json.result string) :=
  json.Marshal (Json c).

(** [Caster.UnmarshalJSON] *)
Definition UnmarshalJSON (c : loc) (data : string) : M (option json.error) :=
  json.Unmarshal data (Json c).

(** [reflect.Zero(t)] stored into field [f] of a [shape]: every data
    field is a pointer, whose zero value is nil; field 0 is the
    zero-size marker and stores nothing. *)
Definition set_zero (f : nat) (s : shape) : shape :=
  match f with
  | 1 => {| Color := None; Kind := Kind s; Radius := Radius s;
            Width := Width s; Height := Height s |}
  | 2 => {| Color := Color s; Kind := None; Radius := Radius s;
            Width := Width s; Height := Height s |}
  | 3 => {| Color := Color s; Kind := Kind s; Radius := None;
            Width := Width s; Height := Height s |}
  | 4 => {| Color := Color s; Kind := Kind s; Radius := Radius s;
            Width := None; Height := Height s |}
  | 5 => {| Color := Color s; Kind := Kind s; Radius := Radius s;
            Width := Width s; Height := None |}
  | _ => s
  end.

(** [jsonFields.Field(f)] for [jsonFields = reflect.ValueOf(c.Json()).Elem()]:
    it panics on the zero Value (a nil pointer) and out of range; what
    it returns is the position and whether the field can be set, which
    for an addressable struct means that the field is exported. *)
Definition Value_Field (jsonFields : view) (f : nat) : M bool :=
  λ m, match shapes m !! vaddr jsonFields with
       | None => (Panicked (ReflectPanic "reflect: call of reflect.Value.Field on zero Value"), m)
       | Some _ =>
           match Field Types.T_shape f with
           | Returned sf => (Returned (IsExported sf), m)
           | Panicked p => (Panicked p, m)
           end
       end.

(** [fieldToZero.Set(reflect.Zero(fieldToZero.Type()))] *)
Definition Value_SetZero (jsonFields : view) (f : nat) : M unit :=
  s <- load_shape (vaddr jsonFields) ;;
  store_shape (vaddr jsonFields) (set_zero f s).

(** [Caster.ZeroNonKindFields]: [ptrToKindStruct] is given by its type,
    the only thing the function uses of it. *)
Definition ZeroNonKindFields (c : loc) (ptrToKindStruct : RType) : M unit :=
  let jsonFields := Json c in
  kindFields <- lift (Elem ptrToKindStruct) ;;
  n <- lift (NumField kindFields) ;;
  for_range n (λ f,
    kindField <- lift (Field kindFields f) ;;
    if negb (IsExported kindField) then
      CanSet <- Value_Field jsonFields f ;;
      if CanSet then Value_SetZero jsonFields f else ret tt
    else ret tt).

(** Errors of [validateStructFields], by the values their text is
    formatted from. *)
Inductive error :=
| ErrFirstField (mainName casterType : string)
| ErrNumFields (mainName : string) (mainNum : nat)
               (otherName : string) (otherNum : nat)
| ErrIncompatible (f : nat) (mainName mfName mfType : string)
                  (otherName ofName ofType : string).

(** [%d] *)
Definition itoa (n : nat) : string := NilZero.string_of_uint (Nat.to_uint n).

(** [error.Error()]: the text [fmt.Errorf] builds. *)
Definition Error (e : error) : string :=
  match e with
  | ErrFirstField mainName casterType =>
      "first field of struct " +:+ mainName +:+
      " must be a type whose underlying type is " +:+ casterType
  | ErrNumFields mainName mainNum otherName otherNum =>
      "structs have different number of fields: " +:+ mainName +:+ "=" +:+
      itoa mainNum +:+ " vs " +:+ otherName +:+ "=" +:+ itoa otherNum
  | ErrIncompatible f mainName mfName mfType otherName ofName ofType =>
      "structs have incompatible field #" +:+ itoa f +:+ ": " +:+
      mainName +:+ "." +:+ mfName +:+ " (" +:+ mfType +:+ ") vs " +:+
      otherName +:+ "." +:+ ofName +:+ " (" +:+ ofType +:+ ")"
  end.

Section Validate.

(** [Type.ConvertibleTo], [reflect.TypeFor[Json]()] and
    [reflect.TypeOf(c)], the type [Caster[Json]]. *)
Variable ConvertibleTo : GoType → GoType → bool.
Variable mainStruct : RType.
Variable underlyingType : GoType.

(** [for f := range mainStruct.NumField()], from field [f] on, with [n]
    fields left. *)
Fixpoint check_fields (f n : nat) (otherStructType : RType)
  : outcome (option error) :=
  match n with
  | O => Returned None
  | S n' =>
      obind (Field mainStruct f) (λ mf,
      obind (Field otherStructType f) (λ of_,
        if decide (Type_ mf ≠ Type_ of_) then
          Returned (Some (ErrIncompatible f
            (TypeName mainStruct) (Name mf) (String (Type_ mf))
            (TypeName otherStructType) (Name of_) (String (Type_ of_))))
        else check_fields (S f) n' otherStructType))
  end.

(** [for _, otherStruct := range structs] *)
Fixpoint check_structs (structs : list RType) : outcome (option error) :=
  match structs with
  | [] => Returned None
  | otherStructType :: rest =>
      obind (NumField mainStruct) (λ mainNum,
      obind (NumField otherStructType) (λ otherNum,
        if negb (Nat.eqb mainNum otherNum) then
          Returned (Some (ErrNumFields (TypeName mainStruct) mainNum
                            (TypeName otherStructType) otherNum))
        else
          obind (NumField mainStruct) (λ n,
          obind (check_fields 0 n otherStructType) (λ err,
            match err with
            | Some e => Returned (Some e)
            | None => check_structs rest
            end))))
  end.

(** [Caster.validateStructFields]; the variadic [structs] are given by
    their types. *)
Definition validateStructFields (structs : list RType)
  : outcome (option error) :=
  obind (Field mainStruct 0) (λ first,
    let firstFieldType := Type_ first in
    if negb (ConvertibleTo firstFieldType underlyingType)
       || negb (ConvertibleTo underlyingType firstFieldType)
    then Returned (Some (ErrFirstField (TypeName mainStruct)
                           (String underlyingType)))
    else check_structs structs).

(** [Caster.ValidateStructFields] *)
Definition ValidateStructFields (panicOnError : bool) (structs : list RType)
  : outcome (option error) :=
  obind (validateStructFields structs) (λ err,
    match err with
    | Some e => if panicOnError then Panicked (PanicError (Error e))
                else Returned (Some e)
    | None => Returned None
    end).

End Validate.

End sumtype.

(** ** The methods of [shapeCaster] (example_sumtypes_test.go) *)

(** [caster]: a conversion of the pointer type. *)
Definition caster (c : loc) : loc := c.

(** [json] *)
Definition json (c : loc) : view := sumtype.Json (caster c).

(** [fmt.Sprintf("can't cast shape from Kind=nil to Kind=%s", kind)] *)
Definition msg_kind_nil (kind : ShapeKind) : string :=
  "can't cast shape from Kind=nil to Kind=" +:+ kind.

(** [fmt.Sprintf("can't cast shape from Kind=%v to Kind=%s", actual, kind)] *)
Definition msg_kind_mismatch (actual kind : ShapeKind) : string :=
  "can't cast shape from Kind=" +:+ actual +:+ " to Kind=" +:+ kind.

(** [ensureKind] *)
Definition ensureKind (c : loc) (kind : ShapeKind) : M unit :=
  s <- load_shape (vaddr (json c)) ;;
  match Kind s with
  | None => throw (PanicString (msg_kind_nil kind))
  | Some _ =>
      s' <- load_shape (vaddr (json c)) ;;
      actual <- load_kind (Kind s') ;;
      if negb (String.eqb actual kind)
      then throw (PanicString (msg_kind_mismatch actual kind))
      else ret tt
  end.

(** [Shape] *)
Definition Shape (c : loc) : M view := ret (sumtype.Cast As_Shape (caster c)).

(** [Circle] *)
Definition Circle (c : loc) : M view :=
  ensureKind c CircleShapeKind ;;;
  ret (sumtype.Cast As_CircleShape (caster c)).

(** [Rectangle] *)
Definition Rectangle (c : loc) : M view :=
  ensureKind c RectangleShapeKind ;;;
  ret (sumtype.Cast As_RectangleShape (caster c)).

(** [*s.Kind = kind] for [s] a [*Shape] *)
Definition assign_Kind (s : view) (kind : ShapeKind) : M unit :=
  r <- load_shape (vaddr s) ;;
  store_kind (Kind r) kind.

(** [SetCircle] *)
Definition SetCircle (c : loc) : M view :=
  s <- Shape c ;;
  assign_Kind s CircleShapeKind ;;;
  sumtype.ZeroNonKindFields (caster c) (reflect.PtrT Types.T_Shape) ;;;
  Circle (vaddr s).

(** [SetRectangle] *)
Definition SetRectangle (c : loc) : M view :=
  s <- Shape c ;;
  assign_Kind s RectangleShapeKind ;;;
  sumtype.ZeroNonKindFields (caster c) (reflect.PtrT Types.T_Shape) ;;;
  Rectangle (vaddr s).

(** What a record holds, read through its pointers. *)
Record contents := {
  cColor : option string;
  cKind : option ShapeKind;
  cRadius : option Z;
  cWidth : option Z;
  cHeight : option Z;
}.

Definition deref {A} (h : gmap loc A) (p : option loc) : option A :=
  match p with Some l => h !! l | None => None end.

Definition contents_of (m : mem) (s : shape) : contents :=
  {| cColor := deref (strs m) (Color s);
     cKind := deref (kinds m) (Kind s);
     cRadius := deref (ints m) (Radius s);
     cWidth := deref (ints m) (Width s);
     cHeight := deref (ints m) (Height s) |}.

Definition read (m : mem) (c : loc) : option contents :=
  contents_of m <$> shapes m !! c.

(** * Properties *)

(** ** Tactics for the state monad *)

Ltac unfold_monad :=
  cbv beta iota zeta delta
    [bind ret throw lift load_shape store_shape load_kind store_kind
     for_range for_range_from caster json sumtype.Json sumtype.Cast vaddr].

Ltac run_with H :=
  unfold_monad; simpl;
  repeat (first [rewrite H | rewrite lookup_insert_eq]; simpl).

Lemma bind_returned {A B} (x : M A) (k : A → M B) m a m' :
  x m = (Returned a, m') → bind x k m = k a m'.
Proof. unfold bind. by intros ->. Qed.

Lemma bind_panicked {A B} (x : M A) (k : A → M B) m p m' :
  x m = (Panicked p, m') → bind x k m = (Panicked p, m').
Proof. unfold bind. by intros ->. Qed.

(** ** Scrubbing *)

Section Scrub.

Variables (c : loc) (m : mem) (s : shape).
Hypothesis Hs : shapes m !! c = Some s.

(** What [ZeroNonKindFields] does when it is given a [*Shape], as
    [SetCircle] and [SetRectangle] call it: the three fields that
    [Shape] hides are set to nil. *)
Lemma ZeroNonKindFields_Shape :
  sumtype.ZeroNonKindFields c (reflect.PtrT Types.T_Shape) m
  = (Returned tt,
     {| strs := strs m; kinds := kinds m; ints := ints m;
        shapes := <[c := {| Color := Color s; Kind := Kind s; Radius := None;
                            Width := None; Height := None |}]> (shapes m) |}).
Proof.
  unfold sumtype.ZeroNonKindFields, sumtype.Value_Field, sumtype.Value_SetZero.
  run_with Hs. by rewrite !insert_insert_eq.
Qed.

(** Given a [*CircleShape] it keeps the radius ... *)
Lemma ZeroNonKindFields_CircleShape :
  sumtype.ZeroNonKindFields c (reflect.PtrT Types.T_CircleShape) m
  = (Returned tt,
     {| strs := strs m; kinds := kinds m; ints := ints m;
        shapes := <[c := {| Color := Color s; Kind := Kind s; Radius := Radius s;
                            Width := None; Height := None |}]> (shapes m) |}).
Proof.
  unfold sumtype.ZeroNonKindFields, sumtype.Value_Field, sumtype.Value_SetZero.
  run_with Hs. by rewrite !insert_insert_eq.
Qed.

(** ... and given a [*RectangleShape], the width and the height. *)
Lemma ZeroNonKindFields_RectangleShape :
  sumtype.ZeroNonKindFields c (reflect.PtrT Types.T_RectangleShape) m
  = (Returned tt,
     {| strs := strs m; kinds := kinds m; ints := ints m;
        shapes := <[c := {| Color := Color s; Kind := Kind s; Radius := None;
                            Width := Width s; Height := Height s |}]> (shapes m) |}).
Proof.
  unfold sumtype.ZeroNonKindFields, sumtype.Value_Field, sumtype.Value_SetZero.
  run_with Hs. done.
Qed.

End Scrub.

(** ** The discriminator guard *)

Section Guard.

Variables (c : loc) (m : mem) (s : shape).
Hypothesis Hs : shapes m !! c = Some s.

Lemma ensureKind_nil kind :
  Kind s = None →
  ensureKind c kind m = (Panicked (PanicString (msg_kind_nil kind)), m).
Proof.
  intros Hk. unfold ensureKind. run_with Hs. by rewrite Hk.
Qed.

Lemma ensureKind_mismatch kind l actual :
  Kind s = Some l → kinds m !! l = Some actual → actual ≠ kind →
  ensureKind c kind m
  = (Panicked (PanicString (msg_kind_mismatch actual kind)), m).
Proof.
  intros Hk Hl Hne. unfold ensureKind. run_with Hs. rewrite Hk. simpl.
  rewrite Hs. simpl. rewrite Hk, Hl.
  apply String.eqb_neq in Hne. by rewrite Hne.
Qed.

Lemma ensureKind_match kind l :
  Kind s = Some l → kinds m !! l = Some kind →
  ensureKind c kind m = (Returned tt, m).
Proof.
  intros Hk Hl. unfold ensureKind. run_with Hs. rewrite Hk. simpl.
  rewrite Hs. simpl. rewrite Hk, Hl. by rewrite String.eqb_refl.
Qed.

End Guard.

(** [ensureKind] never writes, and returns only when the stored
    discriminator is the expected one. *)
Lemma ensureKind_frame c kind m : (ensureKind c kind m).2 = m.
Proof.
  unfold ensureKind. unfold_monad. simpl.
  destruct (shapes m !! c) as [s|] eqn:Hs; [|done].
  destruct (Kind s) as [l|] eqn:Hk; [|done]. simpl.
  rewrite Hs. rewrite Hk. destruct (kinds m !! l); [|done].
  by destruct (negb _).
Qed.

Lemma ensureKind_returns c kind m m' :
  ensureKind c kind m = (Returned tt, m') →
  ∃ s l, shapes m !! c = Some s ∧ Kind s = Some l ∧ kinds m !! l = Some kind.
Proof.
  unfold ensureKind. unfold_monad. simpl.
  destruct (shapes m !! c) as [s|] eqn:Hs; [|done].
  destruct (Kind s) as [l|] eqn:Hk; [|done]. simpl.
  rewrite Hs. rewrite Hk. destruct (kinds m !! l) as [k|] eqn:Hl; [|done].
  destruct (String.eqb k kind) eqn:He; simpl; [|done].
  apply String.eqb_eq in He. subst k. eauto.
Qed.

(** ** Fixtures for the examples *)

(** [var s shape] at address 1, with the given fields, over the given
    stores. *)
Definition mem_of (hs : list (loc * string)) (hk : list (loc * ShapeKind))
    (hi : list (loc * Z)) (s : shape) : mem :=
  {| strs := list_to_map hs; kinds := list_to_map hk; ints := list_to_map hi;
     shapes := {[ 1%positive := s ]} |}.

(** A record that was never given a kind. *)
Definition mem_unset : mem := mem_of [] [] [] zero_shape.

(** [CircleShape{Color: ptr("red"), Kind: ptr(CircleShapeKind), Radius: ptr(1)}] *)
Definition red_circle : shape :=
  {| Color := Some 1%positive; Kind := Some 1%positive;
     Radius := Some 1%positive; Width := None; Height := None |}.
Definition mem_circle : mem :=
  mem_of [(1%positive, "red")] [(1%positive, CircleShapeKind)]
         [(1%positive, 1%Z)] red_circle.

(** [RectangleShape{Color: ptr("red"), Kind: ptr(RectangleShapeKind),
    Width: ptr(100), Height: ptr(50)}] *)
Definition red_rectangle : shape :=
  {| Color := Some 1%positive; Kind := Some 1%positive; Radius := None;
     Width := Some 1%positive; Height := Some 2%positive |}.
Definition mem_rectangle : mem :=
  mem_of [(1%positive, "red")] [(1%positive, RectangleShapeKind)]
         [(1%positive, 100%Z); (2%positive, 50%Z)] red_rectangle.

(** ** C2: the guarded reads *)

(** C2. [Circle()] and [Rectangle()] on a record: with a nil
    discriminator they fail with the "Kind=nil" message; with a
    discriminator other than the target's tag they fail with a message
    made of the actual and of the expected tag; otherwise they return the
    same storage seen as the requested variant.  They return only when
    the stored discriminator is the tag of the variant returned. *)
Theorem guarded_read (c : loc) (m : mem) (s : shape)
    (Hs : shapes m !! c = Some s) :
  (Kind s = None →
     Circle c m = (Panicked (PanicString
       ("can't cast shape from Kind=nil to Kind=" +:+ CircleShapeKind)), m)
     ∧ Rectangle c m = (Panicked (PanicString
       ("can't cast shape from Kind=nil to Kind=" +:+ RectangleShapeKind)), m))
  ∧ (∀ l actual, Kind s = Some l → kinds m !! l = Some actual →
       (actual ≠ CircleShapeKind →
          Circle c m = (Panicked (PanicString
            ("can't cast shape from Kind=" +:+ actual +:+ " to Kind="
             +:+ CircleShapeKind)), m))
       ∧ (actual ≠ RectangleShapeKind →
          Rectangle c m = (Panicked (PanicString
            ("can't cast shape from Kind=" +:+ actual +:+ " to Kind="
             +:+ RectangleShapeKind)), m))
       ∧ (actual = CircleShapeKind →
          Circle c m = (Returned {| vtype := As_CircleShape; vaddr := c |}, m))
       ∧ (actual = RectangleShapeKind →
          Rectangle c m
          = (Returned {| vtype := As_RectangleShape; vaddr := c |}, m)))
  ∧ (∀ v m', Circle c m = (Returned v, m') →
       v = {| vtype := As_CircleShape; vaddr := c |}
       ∧ deref (kinds m) (Kind s) = Some CircleShapeKind)
  ∧ (∀ v m', Rectangle c m = (Returned v, m') →
       v = {| vtype := As_RectangleShape; vaddr := c |}
       ∧ deref (kinds m) (Kind s) = Some RectangleShapeKind).
Proof.
  split; [|split; [|split]].
  - intros Hk. split.
    + unfold Circle, bind. by rewrite (ensureKind_nil c m s Hs).
    + unfold Rectangle, bind. by rewrite (ensureKind_nil c m s Hs).
  - intros l actual Hk Hl. repeat split.
    + intros Hne. unfold Circle, bind.
      by rewrite (ensureKind_mismatch c m s Hs _ l actual).
    + intros Hne. unfold Rectangle, bind.
      by rewrite (ensureKind_mismatch c m s Hs _ l actual).
    + intros ->. unfold Circle, bind.
      by rewrite (ensureKind_match c m s Hs _ l).
    + intros ->. unfold Rectangle, bind.
      by rewrite (ensureKind_match c m s Hs _ l).
  - intros v m' H. unfold Circle, bind, ret in H.
    destruct (ensureKind c CircleShapeKind m) as [[[]|p] m1] eqn:E; [|done].
    injection H as <- _.
    apply ensureKind_returns in E as (s' & l & Hs' & Hk & Hl).
    rewrite Hs in Hs'. injection Hs' as <-. by rewrite Hk.
  - intros v m' H. unfold Rectangle, bind, ret in H.
    destruct (ensureKind c RectangleShapeKind m) as [[[]|p] m1] eqn:E; [|done].
    injection H as <- _.
    apply ensureKind_returns in E as (s' & l & Hs' & Hk & Hl).
    rewrite Hs in Hs'. injection Hs' as <-. by rewrite Hk.
Qed.

Lemma guarded_read_witness :
  shapes mem_circle !! 1%positive = Some red_circle
  ∧ Rectangle 1%positive mem_circle
    = (Panicked (PanicString "can't cast shape from Kind=circle to Kind=rectangle"),
       mem_circle).
Proof.
  split; [reflexivity|].
  destruct (guarded_read 1%positive mem_circle red_circle eq_refl)
    as (_ & H & _).
  destruct (H 1%positive CircleShapeKind eq_refl eq_refl) as (_ & H' & _).
  apply H'. discriminate.
Defined.

(** ** C6: how a guard failure is surfaced *)

(** C6, as stated, fails: reading a record without a kind as a circle
    does not return an error value, it panics. *)
Lemma guard_failure_is_not_returned :
  Circle 1%positive mem_unset
  = (Panicked (PanicString "can't cast shape from Kind=nil to Kind=circle"),
     mem_unset).
Proof. reflexivity. Qed.

(** C6, amended. A failure of the guard in [Circle()] or [Rectangle()]
    is a panic whose value is the message that names the tags: with a
    nil discriminator, nil and the tag asked for; with a discriminator
    that is another tag, that tag and the tag asked for.  Nothing is
    returned to the caller then, and memory is as it was.  No view of
    the wrong variant is ever returned: when either returns, the stored
    discriminator is its tag. *)
Theorem guard_failure_panics (c : loc) (m : mem) (s : shape)
    (Hs : shapes m !! c = Some s) :
  (Kind s = None →
     Circle c m
     = (Panicked (PanicString "can't cast shape from Kind=nil to Kind=circle"), m)
     ∧ Rectangle c m
       = (Panicked (PanicString
            "can't cast shape from Kind=nil to Kind=rectangle"), m))
  ∧ (∀ l actual, Kind s = Some l → kinds m !! l = Some actual →
       (actual ≠ CircleShapeKind →
          Circle c m
          = (Panicked (PanicString
               ("can't cast shape from Kind=" +:+ actual +:+ " to Kind=circle")),
             m))
       ∧ (actual ≠ RectangleShapeKind →
          Rectangle c m
          = (Panicked (PanicString
               ("can't cast shape from Kind=" +:+ actual
                +:+ " to Kind=rectangle")),
             m)))
  ∧ (∀ v m', Circle c m = (Returned v, m') →
       deref (kinds m) (Kind s) = Some CircleShapeKind)
  ∧ (∀ v m', Rectangle c m = (Returned v, m') →
       deref (kinds m) (Kind s) = Some RectangleShapeKind).
Proof.
  split; [|split; [|split]].
  - intros Hk. split.
    + unfold Circle, bind. by rewrite (ensureKind_nil c m s Hs _ Hk).
    + unfold Rectangle, bind. by rewrite (ensureKind_nil c m s Hs _ Hk).
  - intros l actual Hk Hl. split; intros Hne.
    + unfold Circle, bind.
      by rewrite (ensureKind_mismatch c m s Hs _ l actual Hk Hl Hne).
    + unfold Rectangle, bind.
      by rewrite (ensureKind_mismatch c m s Hs _ l actual Hk Hl Hne).
  - intros v m' H. unfold Circle, bind, ret in H.
    destruct (ensureKind c CircleShapeKind m) as [[[]|p] m1] eqn:E; [|done].
    apply ensureKind_returns in E as (s' & l & Hs' & Hk & Hl).
    rewrite Hs in Hs'. injection Hs' as <-. by rewrite Hk.
  - intros v m' H. unfold Rectangle, bind, ret in H.
    destruct (ensureKind c RectangleShapeKind m) as [[[]|p] m1] eqn:E; [|done].
    apply ensureKind_returns in E as (s' & l & Hs' & Hk & Hl).
    rewrite Hs in Hs'. injection Hs' as <-. by rewrite Hk.
Qed.

Lemma guard_failure_panics_witness :
  shapes mem_rectangle !! 1%positive = Some red_rectangle
  ∧ Circle 1%positive mem_rectangle
    = (Panicked (PanicString
         "can't cast shape from Kind=rectangle to Kind=circle"),
       mem_rectangle).
Proof.
  split; [reflexivity|].
  destruct (guard_failure_panics 1%positive mem_rectangle red_rectangle eq_refl)
    as (_ & H & _).
  destruct (H 1%positive RectangleShapeKind eq_refl eq_refl) as [HC _].
  apply HC. discriminate.
Defined.

(** ** C10: the casts and the guarded reads do not write *)

(** C10. [Shape()], [Circle()], [Rectangle()] and [Json()] leave the
    memory as it was, whether they return or panic. *)
Theorem reads_do_not_write (c : loc) (m : mem) :
  (Shape c m).2 = m
  ∧ (Circle c m).2 = m
  ∧ (Rectangle c m).2 = m
  ∧ ret (sumtype.Json c) m
    = (Returned {| vtype := As_shape; vaddr := c |}, m).
Proof.
  repeat split.
  - unfold Circle, bind, ret.
    pose proof (ensureKind_frame c CircleShapeKind m) as H.
    by destruct (ensureKind c CircleShapeKind m) as [[[]|p] m1].
  - unfold Rectangle, bind, ret.
    pose proof (ensureKind_frame c RectangleShapeKind m) as H.
    by destruct (ensureKind c RectangleShapeKind m) as [[[]|p] m1].
Qed.

(** ** C9 and C1: the variant switch *)

Section Switch.

Variables (c : loc) (m : mem) (s : shape).
Hypothesis Hs : shapes m !! c = Some s.

Lemma assign_Kind_nil kind :
  Kind s = None →
  assign_Kind {| vtype := As_Shape; vaddr := c |} kind m
  = (Panicked NilDereference, m).
Proof. intros Hk. unfold assign_Kind. run_with Hs. by rewrite Hk. Qed.

Lemma assign_Kind_set kind l :
  Kind s = Some l →
  assign_Kind {| vtype := As_Shape; vaddr := c |} kind m
  = (Returned tt,
     {| strs := strs m; kinds := <[l := kind]> (kinds m); ints := ints m;
        shapes := shapes m |}).
Proof. intros Hk. unfold assign_Kind. run_with Hs. by rewrite Hk. Qed.

(** The memory after a switch to [kind] of a record whose discriminator
    is the pointer [l]. *)
Definition switched (l : loc) (kind : ShapeKind) : mem :=
  {| strs := strs m; kinds := <[l := kind]> (kinds m); ints := ints m;
     shapes := <[c := {| Color := Color s; Kind := Some l; Radius := None;
                         Width := None; Height := None |}]> (shapes m) |}.

Lemma SetCircle_run l :
  Kind s = Some l →
  SetCircle c m
  = (Returned {| vtype := As_CircleShape; vaddr := c |},
     switched l CircleShapeKind).
Proof.
  intros Hk. unfold SetCircle.
  erewrite bind_returned; [|reflexivity].
  erewrite bind_returned; [|by apply assign_Kind_set].
  erewrite bind_returned; [|by apply ZeroNonKindFields_Shape].
  simpl. rewrite Hk. unfold Circle, caster.
  erewrite bind_returned; [reflexivity|].
  eapply ensureKind_match; simpl; by rewrite ?lookup_insert_eq.
Qed.

Lemma SetRectangle_run l :
  Kind s = Some l →
  SetRectangle c m
  = (Returned {| vtype := As_RectangleShape; vaddr := c |},
     switched l RectangleShapeKind).
Proof.
  intros Hk. unfold SetRectangle.
  erewrite bind_returned; [|reflexivity].
  erewrite bind_returned; [|by apply assign_Kind_set].
  erewrite bind_returned; [|by apply ZeroNonKindFields_Shape].
  simpl. rewrite Hk. unfold Rectangle, caster.
  erewrite bind_returned; [reflexivity|].
  eapply ensureKind_match; simpl; by rewrite ?lookup_insert_eq.
Qed.

End Switch.

(** C9. On a record whose [Kind] is nil, [SetCircle] and [SetRectangle]
    panic with a nil dereference at [*s.Kind = ...], before anything is
    written: the discriminator is not set. *)
Theorem switch_of_unset_kind (c : loc) (m : mem) (s : shape)
    (Hs : shapes m !! c = Some s) (Hk : Kind s = None) :
  SetCircle c m = (Panicked NilDereference, m)
  ∧ SetRectangle c m = (Panicked NilDereference, m).
Proof.
  split.
  - unfold SetCircle.
    erewrite bind_returned; [|reflexivity].
    erewrite bind_panicked; [reflexivity|by apply (assign_Kind_nil c m s)].
  - unfold SetRectangle.
    erewrite bind_returned; [|reflexivity].
    erewrite bind_panicked; [reflexivity|by apply (assign_Kind_nil c m s)].
Qed.

Lemma switch_of_unset_kind_witness :
  shapes mem_unset !! 1%positive = Some zero_shape
  ∧ Kind zero_shape = None
  ∧ SetCircle 1%positive mem_unset = (Panicked NilDereference, mem_unset)
  ∧ SetRectangle 1%positive mem_unset = (Panicked NilDereference, mem_unset).
Proof.
  split; [reflexivity|]. split; [reflexivity|].
  apply (switch_of_unset_kind 1%positive mem_unset zero_shape);
    reflexivity.
Defined.

(** C1, as stated, fails twice.  A record without a kind is not
    switched at all; and on a circle with radius 1, [SetCircle] does not
    leave the radius, a field the circle owns, as it was. *)
Lemma switch_counterexample :
  (SetCircle 1%positive mem_unset).1 = Panicked NilDereference
  ∧ cRadius <$> read mem_circle 1%positive = Some (Some 1%Z)
  ∧ cRadius <$> read (SetCircle 1%positive mem_circle).2 1%positive
    = Some None.
Proof. repeat split; vm_compute; reflexivity. Qed.

(** C1, amended. On a record whose discriminator pointer is not nil,
    [SetCircle] and [SetRectangle] store the tag of the target variant
    through that pointer, set to nil every field at a position the
    target does not own, leave the shared colour as it was, pointer and
    string, and return the same storage seen as the target type. *)
Theorem variant_switch (c : loc) (m : mem) (s : shape) (l : loc)
    (Hs : shapes m !! c = Some s) (Hk : Kind s = Some l) :
  (∃ m' s',
      SetCircle c m = (Returned {| vtype := As_CircleShape; vaddr := c |}, m')
      ∧ shapes m' !! c = Some s'
      ∧ Kind s' = Some l ∧ kinds m' !! l = Some CircleShapeKind
      ∧ Width s' = None ∧ Height s' = None
      ∧ Color s' = Color s ∧ strs m' = strs m)
  ∧ (∃ m' s',
      SetRectangle c m
      = (Returned {| vtype := As_RectangleShape; vaddr := c |}, m')
      ∧ shapes m' !! c = Some s'
      ∧ Kind s' = Some l ∧ kinds m' !! l = Some RectangleShapeKind
      ∧ Radius s' = None
      ∧ Color s' = Color s ∧ strs m' = strs m).
Proof.
  split.
  - eexists _, _. split; [apply (SetCircle_run c m s Hs l Hk)|].
    simpl. rewrite !lookup_insert_eq. done.
  - eexists _, _. split; [apply (SetRectangle_run c m s Hs l Hk)|].
    simpl. rewrite !lookup_insert_eq. done.
Qed.

Lemma variant_switch_witness :
  shapes mem_rectangle !! 1%positive = Some red_rectangle
  ∧ Kind red_rectangle = Some 1%positive
  ∧ ∃ m' s',
      SetCircle 1%positive mem_rectangle
      = (Returned {| vtype := As_CircleShape; vaddr := 1%positive |}, m')
      ∧ shapes m' !! 1%positive = Some s'
      ∧ Kind s' = Some 1%positive
      ∧ kinds m' !! 1%positive = Some CircleShapeKind
      ∧ Width s' = None ∧ Height s' = None
      ∧ Color s' = Color red_rectangle ∧ strs m' = strs mem_rectangle.
Proof.
  split; [reflexivity|]. split; [reflexivity|].
  apply (variant_switch 1%positive mem_rectangle red_rectangle 1%positive);
    reflexivity.
Defined.

(** ** C4: the layout validator *)

Section Layout.

Import reflect sumtype.

Variable ConvertibleTo : GoType → GoType → bool.
Variable mainStruct : RType.
Variable underlyingType : GoType.

(** The first field converts to the caster type and back. *)
Definition marker_ok : Prop :=
  ∃ first, Field mainStruct 0 = Returned first
           ∧ ConvertibleTo (Type_ first) underlyingType = true
           ∧ ConvertibleTo underlyingType (Type_ first) = true.

(** [other] has as many fields as the canonical type, of the same type
    at every position. *)
Definition same_layout (other : RType) : Prop :=
  ∃ n, NumField mainStruct = Returned n ∧ NumField other = Returned n
       ∧ ∀ i, (i < n)%nat →
           ∃ mf of_, Field mainStruct i = Returned mf
                     ∧ Field other i = Returned of_
                     ∧ Type_ mf = Type_ of_.

Definition layout_ok (structs : list RType) : Prop :=
  marker_ok ∧ Forall same_layout structs.

(** What an error says, and that it says it of a type that does not
    fit. *)
Definition describes (structs : list RType) (e : error) : Prop :=
  match e with
  | ErrFirstField mainName casterType =>
      mainName = TypeName mainStruct ∧ casterType = String underlyingType
      ∧ ¬ marker_ok
  | ErrNumFields mainName mainNum otherName otherNum =>
      mainName = TypeName mainStruct
      ∧ NumField mainStruct = Returned mainNum
      ∧ ∃ other, other ∈ structs ∧ otherName = TypeName other
                 ∧ NumField other = Returned otherNum
                 ∧ mainNum ≠ otherNum
  | ErrIncompatible f mainName mfName mfType otherName ofName ofType =>
      mainName = TypeName mainStruct
      ∧ ∃ other mf of_,
          other ∈ structs ∧ otherName = TypeName other
          ∧ Field mainStruct f = Returned mf ∧ Field other f = Returned of_
          ∧ Type_ mf ≠ Type_ of_
          ∧ mfName = Name mf ∧ mfType = String (Type_ mf)
          ∧ ofName = Name of_ ∧ ofType = String (Type_ of_)
  end.

Lemma Field_of_NumField t n i :
  NumField t = Returned n → (i < n)%nat → ∃ f, Field t i = Returned f.
Proof.
  destruct t as [id fs| | |]; simpl; try done.
  intros [= <-] Hi. apply lookup_lt_is_Some in Hi as [f Hf].
  exists f. by rewrite Hf.
Qed.

Lemma NumField_of_Field t i f :
  Field t i = Returned f → ∃ n, NumField t = Returned n ∧ (i < n)%nat.
Proof.
  destruct t as [id fs| | |]; simpl; try done.
  destruct (fs !! i) eqn:E; [|done]. intros _.
  exists (length fs). split; [done|]. by eapply lookup_lt_Some.
Qed.

(** The loop over the fields: it finds the first position from [f] on
    at which the types differ, or none. *)
Lemma check_fields_spec other k f n :
  NumField mainStruct = Returned k → NumField other = Returned k →
  (f + n = k)%nat →
  (check_fields mainStruct f n other = Returned None
   ∧ ∀ i, (f ≤ i)%nat → (i < k)%nat →
       ∃ mf of_, Field mainStruct i = Returned mf
                 ∧ Field other i = Returned of_ ∧ Type_ mf = Type_ of_)
  ∨ (∃ i mf of_,
       (f ≤ i)%nat ∧ Field mainStruct i = Returned mf ∧ Field other i = Returned of_
       ∧ Type_ mf ≠ Type_ of_
       ∧ check_fields mainStruct f n other
         = Returned (Some (ErrIncompatible i
             (TypeName mainStruct) (Name mf) (String (Type_ mf))
             (TypeName other) (Name of_) (String (Type_ of_))))).
Proof.
  intros Hm Ho. revert f. induction n as [|n IH]; intros f Hf.
  - left. split; [done|]. intros i ? ?. lia.
  - destruct (Field_of_NumField _ _ f Hm) as [mf Hmf]; [lia|].
    destruct (Field_of_NumField _ _ f Ho) as [of_ Hof]; [lia|].
    simpl. rewrite Hmf, Hof. simpl.
    destruct (decide (Type_ mf ≠ Type_ of_)) as [Hne|Heq].
    + right. exists f, mf, of_. done.
    + apply dec_stable in Heq.
      destruct (IH (S f)) as [[Hr Hall] | (i & mf' & of' & Hi & ? & ? & ? & Hr)];
        [lia| |].
      * left. split; [done|]. intros i Hi Hk.
        destruct (decide (i = f)) as [->|]; [by eauto|].
        apply Hall; lia.
      * right. exists i, mf', of'. repeat split; try done. lia.
Qed.

Lemma describes_cons other structs e :
  describes structs e → describes (other :: structs) e.
Proof.
  destruct e; simpl; [done| |].
  - intros (? & ? & o & ? & ?). repeat split; try done.
    exists o. split; [by right|done].
  - intros (? & o & mf & of_ & ? & ?). split; [done|].
    exists o, mf, of_. split; [by right|done].
Qed.

(** The loop over the types, when each of them is a struct type. *)
Lemma check_structs_spec structs k :
  NumField mainStruct = Returned k →
  Forall (λ o, is_panic (NumField o) = false) structs →
  (check_structs mainStruct structs = Returned None ∧ Forall same_layout structs)
  ∨ (∃ e, check_structs mainStruct structs = Returned (Some e)
          ∧ describes structs e ∧ ¬ Forall same_layout structs).
Proof.
  intros Hm. induction structs as [|other rest IH]; intros Hall.
  - left. by split.
  - apply Forall_cons in Hall as [Ho Hrest].
    destruct (NumField other) as [j|] eqn:Hj; [|done].
    simpl. rewrite Hm, Hj. simpl.
    destruct (Nat.eqb k j) eqn:Hkj; simpl.
    + apply Nat.eqb_eq in Hkj. subst j.
      destruct (check_fields_spec other k 0 k Hm Hj eq_refl)
        as [[Hr Hsame] | (i & mf & of_ & _ & Hmf & Hof & Hne & Hr)];
        rewrite Hr; simpl.
      * destruct (IH Hrest) as [[Hr' Hall'] | (e & Hr' & He & Hnot)].
        -- left. split; [done|]. constructor; [|done].
           exists k. repeat split; try done. intros i Hi. apply Hsame; lia.
        -- right. exists e. split; [done|]. split; [by apply describes_cons|].
           intros H. by apply Forall_cons in H as [_ H].
      * right. eexists. split; [done|]. split.
        -- simpl. split; [done|]. exists other, mf, of_.
           repeat split; try done. by left.
        -- intros H. apply Forall_cons in H as [(n & Hn & _ & Hsame) _].
           rewrite Hm in Hn. injection Hn as <-.
           destruct (NumField_of_Field _ _ _ Hof) as (n' & Hn' & Hlt).
           rewrite Hj in Hn'. injection Hn' as <-.
           destruct (Hsame i Hlt) as (mf' & of' & Hmf' & Hof' & Heq).
           congruence.
    + apply Nat.eqb_neq in Hkj.
      right. eexists. split; [done|]. split.
      * simpl. repeat split; try done. exists other.
        repeat split; try done. by left.
      * intros H. apply Forall_cons in H as [(n & Hn & Hn' & _) _]. congruence.
Qed.

(** When the loop returns without an error, without any assumption on
    the types: each of them was a struct type of the same layout. *)
Lemma check_structs_None structs :
  check_structs mainStruct structs = Returned None → Forall same_layout structs.
Proof.
  induction structs as [|other rest IH]; [done|]. simpl.
  destruct (NumField mainStruct) as [k|] eqn:Hm; [|done]. simpl.
  destruct (NumField other) as [j|] eqn:Hj; [|done]. simpl.
  destruct (Nat.eqb k j) eqn:Hkj; [|done]. simpl.
  apply Nat.eqb_eq in Hkj. subst j.
  destruct (check_fields_spec other k 0 k Hm Hj eq_refl)
    as [[Hr Hsame] | (i & mf & of_ & _ & Hmf & Hof & Hne & Hr)];
    rewrite Hr; simpl; [|done].
  intros H. constructor; [|by apply IH].
  exists k. repeat split; try done. intros i Hi. apply Hsame; lia.
Qed.

(** C4. [ValidateStructFields] returns nil exactly when the first field
    of the canonical type converts to the caster type and back and every
    type given has the field count of the canonical type and its field
    type at every position.  Otherwise, the canonical type having a
    first field and the types given being struct types, it returns an
    error, or panics with it when [panicOnError] is set; the error names
    the canonical type and the caster type when the first field does not
    fit, the two types and their field counts when these differ, and
    else the position, the two types, and the names and types of the two
    fields. *)
Theorem ValidateStructFields_spec (panicOnError : bool) (structs : list RType) :
  (ValidateStructFields ConvertibleTo mainStruct underlyingType
     panicOnError structs = Returned None
   ↔ layout_ok structs)
  ∧ (is_panic (Field mainStruct 0) = false →
     Forall (λ o, is_panic (NumField o) = false) structs →
     ¬ layout_ok structs →
     ∃ e, ValidateStructFields ConvertibleTo mainStruct underlyingType
            panicOnError structs
          = (if panicOnError then Panicked (PanicError (Error e))
             else Returned (Some e))
          ∧ describes structs e).
Proof.
  unfold ValidateStructFields, validateStructFields, layout_ok, marker_ok.
  destruct (Field mainStruct 0) as [first|p] eqn:Hfirst; simpl.
  2: { split; [|done]. split; [done|]. by intros [(f & ? & _) _]. }
  destruct (NumField_of_Field _ _ _ Hfirst) as (k & Hk & _).
  destruct (negb (ConvertibleTo (Type_ first) underlyingType)
            || negb (ConvertibleTo underlyingType (Type_ first))) eqn:C.
  { assert (¬ ∃ f, Returned first = Returned f
                   ∧ ConvertibleTo (Type_ f) underlyingType = true
                   ∧ ConvertibleTo underlyingType (Type_ f) = true) as Hno.
    { intros (f & [= <-] & C1 & C2). by rewrite C1, C2 in C. }
    split.
    - split; [by destruct panicOnError | by intros [? _]].
    - intros _ _ _. eexists. split; [reflexivity|]. simpl.
      split; [done|]. split; [done|]. unfold marker_ok. by rewrite Hfirst. }
  apply orb_false_elim in C as [C1 C2].
  apply negb_false_iff in C1, C2.
  split.
  - split.
    + intros H. split; [by eauto|]. apply check_structs_None.
      destruct (check_structs mainStruct structs) as [[e|]|]; try done.
      by destruct panicOnError.
    + intros [_ Hall].
      assert (Forall (λ o, is_panic (NumField o) = false) structs) as Hst.
      { eapply Forall_impl; [exact Hall|]. intros o (n & _ & -> & _). done. }
      destruct (check_structs_spec structs k Hk Hst)
        as [[-> _] | (e & _ & _ & Hnot)]; done.
  - intros _ Hst Hnot.
    destruct (check_structs_spec structs k Hk Hst)
      as [[_ Hall] | (e & -> & He & _)].
    + exfalso. apply Hnot. split; [by eauto|done].
    + exists e. simpl. by destruct panicOnError.
Qed.

End Layout.

(** The condition under which C4 promises an error holds for the types
    of the example and a candidate whose fields are out of order; the
    error names position 1 and both field types. *)
Definition T_Misordered : reflect.RType :=
  reflect.StructT (reflect.Defined Types.pkg "Misordered")
    [ Types.unexported "shapeCaster" Types.t_shapeCaster;
      Types.exported "Kind" (reflect.PointerTo Types.t_ShapeKind);
      Types.exported "Color" (reflect.PointerTo Types.t_string);
      Types.exported "Radius" (reflect.PointerTo Types.t_int);
      Types.exported "Width" (reflect.PointerTo Types.t_int);
      Types.exported "Height" (reflect.PointerTo Types.t_int) ].

Lemma ValidateStructFields_spec_witness :
  is_panic (reflect.Field Types.T_shape 0) = false
  ∧ Forall (λ o, is_panic (reflect.NumField o) = false)
      [Types.T_Shape; T_Misordered]
  ∧ ¬ layout_ok Types.ConvertibleTo Types.T_shape Types.t_Caster
        [Types.T_Shape; T_Misordered]
  ∧ ∃ e, sumtype.ValidateStructFields Types.ConvertibleTo Types.T_shape
           Types.t_Caster false [Types.T_Shape; T_Misordered]
         = Returned (Some e)
         ∧ describes Types.ConvertibleTo Types.T_shape Types.t_Caster
             [Types.T_Shape; T_Misordered] e.
Proof.
  assert (¬ layout_ok Types.ConvertibleTo Types.T_shape Types.t_Caster
            [Types.T_Shape; T_Misordered]) as Hnot.
  { intros [_ H]. apply Forall_cons in H as [_ H].
    apply Forall_cons in H as [(n & [= <-] & _ & H) _].
    destruct (H 1) as (mf & of_ & [= <-] & [= <-] & Heq); [lia|done]. }
  split; [reflexivity|]. split; [by repeat constructor|]. split; [exact Hnot|].
  apply (ValidateStructFields_spec Types.ConvertibleTo Types.T_shape
           Types.t_Caster false [Types.T_Shape; T_Misordered]).
  - reflexivity.
  - by repeat constructor.
  - exact Hnot.
Defined.

(** The check the example runs when the package is initialised,
    [Caster[shape]{}.ValidateStructFields(true, Shape{}, CircleShape{},
    RectangleShape{})], passes. *)
Example shapes_validate :
  sumtype.ValidateStructFields Types.ConvertibleTo Types.T_shape Types.t_Caster
    true [Types.T_Shape; Types.T_CircleShape; Types.T_RectangleShape]
  = Returned None.
Proof. reflexivity. Qed.

(** A candidate with misordered fields is reported with the position
    and both field types. *)
Example misordered_reported :
  sumtype.Error <$>
    match sumtype.ValidateStructFields Types.ConvertibleTo Types.T_shape
            Types.t_Caster false [Types.T_Shape; T_Misordered] with
    | Returned e => e
    | Panicked _ => None
    end
  = Some "structs have incompatible field #1: shape.Color (*string) vs Misordered.Kind (*sumtype_test.ShapeKind)".
Proof. reflexivity. Qed.

(** ** Reading back what the encoder writes *)

Section ReadBack.

Import jsontext.

Lemma append_cons (x : ascii) (a b : string) :
  String x a +:+ b = String x (a +:+ b).
Proof. reflexivity. Qed.

Lemma append_nil_l (a : string) : "" +:+ a = a.
Proof. reflexivity. Qed.

Lemma append_assoc (a b c : string) : (a +:+ b) +:+ c = a +:+ (b +:+ c).
Proof.
  induction a as [|x a IH]; [done|]. rewrite !append_cons. by f_equal.
Qed.

Lemma append_nil_r (a : string) : a +:+ "" = a.
Proof. induction a as [|x a IH]; [done|]. rewrite append_cons. by f_equal. Qed.

(** The escape of one byte reads back as that byte. *)
Lemma read_chars_escape_byte (c : ascii) (t : string) :
  read_chars (escape_byte c +:+ t) = prepend (String c "") (read_chars t).
Proof.
  destruct c as [[] [] [] [] [] [] [] []]; reflexivity.
Qed.

Lemma prepend_prepend a b r :
  prepend a (prepend b r) = prepend (a +:+ b) r.
Proof. destruct r as [[s rest]|]; simpl; [|done]. by rewrite append_assoc. Qed.

(** An escaped string and its closing quote read back as the string. *)
Lemma read_chars_escape (s rest : string) :
  read_chars (escape s +:+ String (chr 34) rest) = Some (s, rest).
Proof.
  induction s as [|c s IH]; [done|].
  change (escape (String c s)) with (escape_byte c +:+ escape s).
  rewrite append_assoc, read_chars_escape_byte, IH. done.
Qed.

Lemma read_string_escape (s rest : string) :
  utf8_valid s = true →
  read_string (escape s +:+ String (chr 34) rest) = Some (s, rest).
Proof. intros H. unfold read_string. by rewrite read_chars_escape, H. Qed.

Lemma quote_append (s rest : string) :
  quote s +:+ rest = String (chr 34) (escape s +:+ String (chr 34) rest).
Proof. unfold quote. by rewrite append_cons, append_assoc. Qed.

Lemma read_value_quote (fuel : nat) (s rest : string) :
  utf8_valid s = true →
  read_value (S fuel) (quote s +:+ rest) = Some (Str s, rest).
Proof.
  intros H. rewrite quote_append.
  change (read_value (S fuel) (String (chr 34) ?t))
    with (match read_string t with
          | Some (str, r') => Some (Str str, r')
          | None => None
          end).
  by rewrite (read_string_escape s rest H).
Qed.

(** *** Numbers *)

(** The input goes on with something that is no part of a number. *)
Definition ends_number (rest : string) : Prop :=
  ∃ r, rest = String "," r ∨ rest = String "}" r.

Lemma read_digits_string_of_uint (d : uint) (rest : string) :
  ends_number rest →
  read_digits (NilEmpty.string_of_uint d +:+ rest) = (d, rest).
Proof.
  intros (r & Hr). induction d; simpl; try by rewrite IHd.
  by destruct Hr as [-> | ->].
Qed.

Lemma int_part_ok_unorm (d : uint) : int_part_ok (unorm d) = true.
Proof. induction d; done. Qed.

Lemma unorm_to_uint (p : positive) : unorm (Pos.to_uint p) = Pos.to_uint p.
Proof.
  rewrite <- DecimalPos.Unsigned.to_of, DecimalPos.Unsigned.of_to. done.
Qed.

Lemma int_part_ok_to_uint (p : positive) : int_part_ok (Pos.to_uint p) = true.
Proof. rewrite <- unorm_to_uint. apply int_part_ok_unorm. Qed.

Lemma string_of_uint_to_uint (p : positive) :
  NilZero.string_of_uint (Pos.to_uint p) = NilEmpty.string_of_uint (Pos.to_uint p).
Proof.
  unfold NilZero.string_of_uint.
  pose proof (DecimalPos.Unsigned.to_uint_nonnil p). by destruct (Pos.to_uint p).
Qed.

Lemma read_int_part_digits (d : uint) (t : string) :
  int_part_ok d = true →
  read_digits (NilEmpty.string_of_uint d +:+ t) = (d, t) →
  read_int_part (NilEmpty.string_of_uint d +:+ t) = (d, t).
Proof.
  destruct d as [|d|d|d|d|d|d|d|d|d|d]; try done.
  destruct d; done.
Qed.

(** The digits of a canonical numeral, and then the end of the number,
    read back as an integral number. *)
Lemma read_number_digits (negative : bool) (d : uint) (rest : string) :
  ends_number rest → int_part_ok d = true →
  read_number ((if negative then "-" else "") +:+
               NilEmpty.string_of_uint d +:+ rest)
  = Some (Number negative d true, rest).
Proof.
  intros Hrest Hd.
  assert (∀ t, read_number ((if negative then "-" else "") +:+ t)
               = (if negative then read_number (String "-" t)
                  else read_number t)) as Hsign by (by destruct negative).
  assert (read_int_part (NilEmpty.string_of_uint d +:+ rest) = (d, rest))
    as Hdig
    by (by apply read_int_part_digits, read_digits_string_of_uint).
  destruct Hrest as (r & Hr).
  assert (read_frac rest = Some (false, rest)) as Hf
    by (by destruct Hr as [-> | ->]).
  assert (read_exp rest = Some (false, rest)) as He
    by (by destruct Hr as [-> | ->]).
  destruct negative.
  - rewrite append_cons, append_nil_l. unfold read_number.
    cbn -[read_int_part read_frac read_exp].
    rewrite Hdig, Hd, Hf, He. done.
  - rewrite append_nil_l. unfold read_number.
    assert (∃ x t, NilEmpty.string_of_uint d +:+ rest = String x t
                   ∧ x ≠ "-"%char) as (x & t & Hx & Hne).
    { destruct d; try done; simpl; rewrite append_cons; eexists _, _; split; done. }
    rewrite Hx in *.
    replace (match String x t with
             | String "-" r0 => (true, r0)
             | _ => (false, String x t)
             end) with (false, String x t).
    2: { destruct x as [[] [] [] [] [] [] [] []]; done. }
    rewrite Hdig, Hd, Hf, He. done.
Qed.

Lemma format_int_shape (z : Z) :
  ∃ (negative : bool) (d : uint),
    json.format_int z = (if negative then "-" else "") +:+ NilEmpty.string_of_uint d
    ∧ int_part_ok d = true
    ∧ Z.of_int (if negative then Neg d else Pos d) = z.
Proof.
  unfold json.format_int. destruct z as [|p|p]; simpl.
  - by exists false, (D0 Nil).
  - exists false, (Pos.to_uint p). rewrite string_of_uint_to_uint.
    split; [done|]. split; [apply int_part_ok_to_uint|].
    exact (DecimalZ.of_to (Z.pos p)).
  - exists true, (Pos.to_uint p). rewrite string_of_uint_to_uint.
    split; [done|]. split; [apply int_part_ok_to_uint|].
    exact (DecimalZ.of_to (Z.neg p)).
Qed.

(** A number does not begin like any other value. *)
Lemma read_value_number (fuel : nat) (negative : bool) (d : uint) (t : string) :
  int_part_ok d = true →
  read_value (S fuel)
    ((if negative then "-" else "") +:+ NilEmpty.string_of_uint d +:+ t)
  = read_number
      ((if negative then "-" else "") +:+ NilEmpty.string_of_uint d +:+ t).
Proof.
  intros Hd. destruct negative; [done|].
  destruct d; try done.
Qed.

Lemma read_value_format_int (fuel : nat) (z : Z) (rest : string) :
  ends_number rest →
  ∃ (negative : bool) (d : uint),
    read_value (S fuel) (json.format_int z +:+ rest)
    = Some (Number negative d true, rest)
    ∧ Z.of_int (if negative then Neg d else Pos d) = z.
Proof.
  intros Hrest. destruct (format_int_shape z) as (neg & d & -> & Hd & Hz).
  exists neg, d. split; [|done].
  rewrite append_assoc, read_value_number by done.
  by apply read_number_digits.
Qed.

End ReadBack.

(** ** Scanning the members that [Marshal] writes *)

Section ScanMarshalled.

Import jsontext json.

(** A value as the decoder will see it, and the text of it. *)
Inductive cell :=
| CStr (s : string)
| CInt (z : Z).

Definition number_of (z : Z) : Value :=
  match Z.to_int z with
  | Pos d => Number false d true
  | Neg d => Number true d true
  end.

Definition value_of (x : cell) : Value :=
  match x with
  | CStr s => Str s
  | CInt z => number_of z
  end.

(** What field [f] of the record [s] holds. *)
Definition get (m : mem) (s : shape) (f : field) : option cell :=
  match slot f s with
  | None => None
  | Some l =>
      match f with
      | FColor => CStr <$> strs m !! l
      | FKind => CStr <$> kinds m !! l
      | _ => CInt <$> ints m !! l
      end
  end.

(** The cell fits the field, and the encoder and the decoder accept it. *)
Definition fits (f : field) (x : cell) : Prop :=
  match f, x with
  | (FColor | FKind), CStr v => utf8_valid v = true
  | (FRadius | FWidth | FHeight), CInt z => (min_int ≤ z ≤ max_int)%Z
  | _, _ => False
  end.

(** Every pointer of the record points to a cell that fits. *)
Definition valid (m : mem) (s : shape) : Prop :=
  ∀ f, slot f s ≠ None → ∃ x, get m s f = Some x ∧ fits f x.

(** The cell as [omitempty] lets it through. *)
Definition kept (x : cell) : option cell :=
  match x with
  | CStr "" => None
  | _ => Some x
  end.

(** The members [Marshal] writes for the fields [fs]. *)
Definition written (m : mem) (s : shape) (fs : list field)
  : list (string * item) :=
  omap (λ f, match get m s f ≫= kept with
             | Some x => Some (name_of f, Whole (value_of x))
             | None => None
             end) fs.

Lemma length_append (a b : string) :
  String.length (a +:+ b) = (String.length a + String.length b)%nat.
Proof.
  induction a as [|x a IH]; [done|]. rewrite append_cons. simpl. by rewrite IH.
Qed.

Lemma read_value_number_of (fuel : nat) (z : Z) (rest : string) :
  ends_number rest →
  read_value (S fuel) (format_int z +:+ rest) = Some (number_of z, rest).
Proof.
  intros Hrest. unfold format_int, number_of.
  destruct z as [|p|p]; simpl Z.to_int; cbv beta iota.
  - change (NilZero.string_of_int (Pos zero))
      with ("" +:+ NilEmpty.string_of_uint (D0 Nil)).
    rewrite append_assoc.
    rewrite (read_value_number fuel false (D0 Nil)) by done.
    by apply (read_number_digits false).
  - change (NilZero.string_of_int (Pos (Pos.to_uint p)))
      with (NilZero.string_of_uint (Pos.to_uint p)).
    rewrite string_of_uint_to_uint.
    rewrite <- (append_nil_l (NilEmpty.string_of_uint _ +:+ rest)).
    rewrite (read_value_number fuel false) by apply int_part_ok_to_uint.
    apply (read_number_digits false); [done|apply int_part_ok_to_uint].
  - change (NilZero.string_of_int (Neg (Pos.to_uint p)))
      with (String "-" (NilZero.string_of_uint (Pos.to_uint p))).
    rewrite string_of_uint_to_uint.
    change (String "-" ?t +:+ rest) with ("-" +:+ t +:+ rest).
    rewrite (read_value_number fuel true) by apply int_part_ok_to_uint.
    apply (read_number_digits true); [done|apply int_part_ok_to_uint].
Qed.

(** The text of a field that is written, and the value it reads back as. *)
Lemma marshal_field_written (m : mem) (s : shape) (f : field) :
  valid m s →
  ∃ ot, marshal_field m s f = Returned (Ok ot)
        ∧ match ot, get m s f ≫= kept with
          | None, None => True
          | Some vt, Some x =>
              (2 ≤ String.length vt ∨ ∃ z, x = CInt z ∧ 1 ≤ String.length vt)%nat
              ∧ ∀ fuel rest, ends_number rest →
                  read_value (S fuel) (vt +:+ rest) = Some (value_of x, rest)
          | _, _ => False
          end.
Proof.
  intros Hv. specialize (Hv f). unfold marshal_field, get in *.
  destruct (slot f s) as [l|]; [|by exists None].
  destruct Hv as (x & Hx & Hfit); [done|].
  assert (∀ v, utf8_valid v = true →
            ∃ ot, Returned (marshal_string v) = Returned (Ok ot)
              ∧ match ot, Some (CStr v) ≫= kept with
                | None, None => True
                | Some vt, Some x =>
                    (2 ≤ String.length vt
                     ∨ ∃ z, x = CInt z ∧ 1 ≤ String.length vt)%nat
                    ∧ ∀ fuel rest, ends_number rest →
                        read_value (S fuel) (vt +:+ rest)
                        = Some (value_of x, rest)
                | _, _ => False
                end) as Hstr.
  { intros v Hval. unfold marshal_string. rewrite Hval.
    destruct v as [|a v]; [by exists None|].
    exists (Some (quote (String a v))). split; [done|]. hnf. split.
    - left. unfold quote. cbn [String.length]. rewrite length_append.
      cbn [String.length]. lia.
    - intros fuel rest _. by apply read_value_quote. }
  destruct f; simpl in Hx, Hfit |- *.
  1-2: destruct (_ !! l) as [v|]; [|done]; injection Hx as <-;
       by apply Hstr.
  all: destruct (ints m !! l) as [z|]; [|done]; injection Hx as <-;
       exists (Some (format_int z)); (split; [done|]); hnf; split;
       [ right; exists z; split; [done|];
         destruct (format_int_shape z) as (neg & d & -> & Hd & _);
         rewrite length_append; destruct d; try done; simpl; lia
       | intros fuel rest Hrest; by apply read_value_number_of ].
Qed.


(** What [scan_members] goes on with when it has read a member. *)
Definition continue_scan (fuel : nat) (r3 : string) (seen : list string)
    (head : string * item) : list (string * item) * ending :=
  match expect "," r3 with
  | Some r4 =>
      let (ms, e) := scan_members fuel r4 seen false in (head :: ms, e)
  | None =>
      match expect "}" r3 with
      | Some r4 => ([head], Closed r4)
      | None => ([head], Broken)
      end
  end.

Lemma continue_scan_comma (fuel : nat) (t : string) (seen : list string)
    (head : string * item) :
  continue_scan fuel (String "," t) seen head
  = let (ms, e) := scan_members fuel t seen false in (head :: ms, e).
Proof. reflexivity. Qed.

Lemma scan_members_quote (fuel : nat) (t : string) (seen : list string)
    (first : bool) :
  scan_members (S fuel) (String dquote t) seen first
  = match read_string t with
    | None => ([], Broken)
    | Some (name, r1) =>
        if bool_decide (name ∈ seen) then ([], Broken)
        else
          match expect ":" r1 with
          | None => ([(name, Torn false)], Broken)
          | Some r2 =>
              match read_value fuel r2 with
              | None => ([(name, Torn (null_ahead r1))], Broken)
              | Some (v, r3) =>
                  if too_deep v then ([(name, Torn false)], Broken)
                  else continue_scan fuel r3 (name :: seen) (name, Whole v)
              end
          end
    end.
Proof. reflexivity. Qed.

(** A string or a number is not nested at all. *)
Lemma too_deep_value_of (x : cell) : too_deep (value_of x) = false.
Proof. destruct x as [v|z]; [done|]. unfold value_of, number_of. by destruct (Z.to_int z). Qed.

(** One member, as [Marshal] writes it, is read as that member. *)
Lemma scan_member (fuel : nat) (name vt r3 : string) (v : Value)
    (seen : list string) (first : bool) :
  name ∉ seen → utf8_valid name = true →
  read_value fuel (vt +:+ r3) = Some (v, r3) → too_deep v = false →
  scan_members (S fuel) (quote name +:+ ":" +:+ vt +:+ r3) seen first
  = continue_scan fuel r3 (name :: seen) (name, Whole v).
Proof.
  intros Hseen Hname Hv Hdeep.
  rewrite quote_append, scan_members_quote, read_string_escape by done.
  rewrite bool_decide_false by done.
  change (expect ":" (":" +:+ vt +:+ r3)) with (Some (vt +:+ r3)).
  cbv beta iota. by rewrite Hv, Hdeep.
Qed.

Variables (m : mem) (s : shape).
Hypothesis Hvalid : valid m s.

Lemma field_names_valid (f : field) : utf8_valid (name_of f) = true.
Proof. by destruct f. Qed.

(** The members after the first: the text [Marshal] writes for [fs],
    and that it is read as the members written. *)
Lemma scan_tail (fs : list field) :
  ∃ body,
    marshal_fields m s fs false = Returned (Ok body)
    ∧ (∃ r, body = "" ∨ body = String "," r)
    ∧ ∀ fuel seen head rest,
        NoDup (name_of <$> fs) → (∀ f, f ∈ fs → name_of f ∉ seen) →
        (String.length body ≤ fuel)%nat →
        continue_scan fuel (body +:+ "}" +:+ rest) seen head
        = (head :: written m s fs, Closed rest).
Proof.
  induction fs as [|f fs (more & Hmore & Hshape & IH)].
  - exists "". split; [done|]. split; [by exists ""; left|]. done.
  - destruct (marshal_field_written m s f Hvalid) as (ot & Hf & Hot).
    cbn [marshal_fields]. rewrite Hf, Hmore. unfold written. cbn [omap list_omap].
    fold (written m s fs).
    destruct ot as [vt|], (get m s f ≫= kept) as [x|]; try done.
    + destruct Hot as (Hlen & Hread).
      eexists. split; [done|]. split; [by eexists; right|].
      intros fuel seen head rest Hnd Hseen Hfuel.
      apply NoDup_cons in Hnd as [Hf' Hnd].
      rewrite !length_append in Hfuel. cbn [String.length] in Hfuel.
      destruct fuel as [|fuel]; [lia|].
      rewrite !append_assoc. change ("," +:+ ?t) with (String "," t).
      rewrite continue_scan_comma.
      assert (ends_number (more +:+ "}" +:+ rest)) as Hends.
      { destruct Hshape as (r & [-> | ->]); eexists; [by right|by left]. }
      destruct fuel as [|fuel].
      { destruct Hlen as [?|(z & _ & ?)]; lia. }
      rewrite (scan_member (S fuel) _ _ _ (value_of x)).
      * rewrite IH; [done|done| |lia].
        intros g Hg. apply not_elem_of_cons. split.
        -- intros Heq. apply Hf'. rewrite <- Heq. by apply list_elem_of_fmap_2.
        -- apply Hseen. by right.
      * apply Hseen. by left.
      * apply field_names_valid.
      * by apply Hread.
      * apply too_deep_value_of.
    + exists more. split; [done|]. split; [done|].
      intros fuel seen head rest Hnd Hseen Hfuel.
      apply NoDup_cons in Hnd as [_ Hnd].
      apply IH; [done| |done]. intros g Hg. apply Hseen. by right.
Qed.

(** The members from the first on. *)
Lemma scan_head (fs : list field) :
  ∃ body,
    marshal_fields m s fs true = Returned (Ok body)
    ∧ ∀ fuel rest,
        NoDup (name_of <$> fs) → (String.length body ≤ fuel)%nat →
        scan_members (S fuel) (body +:+ "}" +:+ rest) [] true
        = (written m s fs, Closed rest).
Proof.
  induction fs as [|f fs (body & Hbody & IH)].
  - exists "". split; [done|]. done.
  - destruct (marshal_field_written m s f Hvalid) as (ot & Hf & Hot).
    destruct (scan_tail fs) as (more & Hmore & Hshape & Htail).
    cbn [marshal_fields]. rewrite Hf, Hmore, Hbody. unfold written.
    cbn [omap list_omap]. fold (written m s fs).
    destruct ot as [vt|], (get m s f ≫= kept) as [x|]; try done.
    + destruct Hot as (Hlen & Hread).
      eexists. split; [done|].
      intros fuel rest Hnd Hfuel.
      apply NoDup_cons in Hnd as [Hf' Hnd].
      rewrite append_nil_l in Hfuel |- *.
      rewrite !length_append in Hfuel. cbn [String.length] in Hfuel.
      assert (ends_number (more +:+ "}" +:+ rest)) as Hends.
      { destruct Hshape as (r & [-> | ->]); eexists; [by right|by left]. }
      destruct fuel as [|fuel].
      { destruct Hlen as [?|(z & _ & ?)]; lia. }
      rewrite !append_assoc.
      rewrite (scan_member (S fuel) _ _ _ (value_of x)).
      * rewrite Htail; [done|done| |lia].
        intros g Hg. apply not_elem_of_cons. split; [|apply not_elem_of_nil].
        intros Heq. apply Hf'. rewrite <- Heq. by apply list_elem_of_fmap_2.
      * apply not_elem_of_nil.
      * apply field_names_valid.
      * by apply Hread.
      * apply too_deep_value_of.
    + exists body. split; [done|].
      intros fuel rest Hnd Hfuel.
      apply NoDup_cons in Hnd as [_ Hnd]. by apply IH.
Qed.

End ScanMarshalled.

(** ** Storing members into a record *)

Section Store.

Import jsontext json.

Lemma field_of_name_of (f : field) : field_of (name_of f) = Some f.
Proof. by destruct f. Qed.

Lemma field_of_Some (name : string) (f : field) :
  field_of name = Some f → name = name_of f.
Proof.
  unfold field_of.
  destruct (String.eqb_spec name "color") as [->|?]; [by intros [= <-]|].
  destruct (String.eqb_spec name "kind") as [->|?]; [by intros [= <-]|].
  destruct (String.eqb_spec name "radius") as [->|?]; [by intros [= <-]|].
  destruct (String.eqb_spec name "width") as [->|?]; [by intros [= <-]|].
  destruct (String.eqb_spec name "height") as [->|?]; [by intros [= <-]|].
  done.
Qed.

Lemma name_of_inj (f g : field) : name_of f = name_of g → f = g.
Proof. by destruct f, g. Qed.

Lemma slot_set_slot (f g : field) (p : option loc) (s : shape) :
  slot g (set_slot f p s) = if decide (g = f) then p else slot g s.
Proof. by destruct f, g. Qed.

(** The zero value of the pointee of a field. *)
Definition zero_cell (f : field) : cell :=
  match f with
  | FColor | FKind => CStr ""
  | _ => CInt 0
  end.

(** The memory with the cell [x] at [l] in the store of field [f]. *)
Definition put (f : field) (l : loc) (x : cell) (m : mem) : mem :=
  match f, x with
  | FColor, CStr v =>
      {| strs := <[l := v]> (strs m); kinds := kinds m; ints := ints m;
         shapes := shapes m |}
  | FKind, CStr v =>
      {| strs := strs m; kinds := <[l := v]> (kinds m); ints := ints m;
         shapes := shapes m |}
  | (FRadius | FWidth | FHeight), CInt z =>
      {| strs := strs m; kinds := kinds m; ints := <[l := z]> (ints m);
         shapes := shapes m |}
  | _, _ => m
  end.

(** The location [new(T)] returns for the pointee type of [f]. *)
Definition next (f : field) (m : mem) : loc :=
  match f with
  | FColor => fresh (dom (strs m))
  | FKind => fresh (dom (kinds m))
  | _ => fresh (dom (ints m))
  end.

Lemma alloc_put (f : field) (m : mem) :
  alloc f m = (Returned (next f m), put f (next f m) (zero_cell f) m).
Proof. by destruct f. Qed.

Lemma store_value_put (f : field) (l : loc) (x : cell) (m : mem) :
  fits f x → store_value f l (value_of x) m = (Returned None, put f l x m).
Proof.
  destruct f, x as [v|z]; try done; intros [Hlo Hhi];
    pose proof (DecimalZ.of_to z) as Hz;
    apply Z.leb_le in Hlo, Hhi;
    unfold store_value, value_of, number_of, put;
    destruct (Z.to_int z) as [d|d]; rewrite Hz, Hlo, Hhi; done.
Qed.


Definition with_shape (c : loc) (s : shape) (m : mem) : mem :=
  {| strs := strs m; kinds := kinds m; ints := ints m;
     shapes := <[c := s]> (shapes m) |}.

(** Every pointer of the record points to a cell. *)
Definition allocated (m : mem) (s : shape) : Prop :=
  ∀ g, slot g s ≠ None → is_Some (get m s g).

Section Member.

Variables (c : loc) (m : mem) (s : shape).
Hypothesis Hs : shapes m !! c = Some s.

Lemma pointee_nil (f : field) :
  slot f s = None →
  pointee c f m
  = (Returned (next f m),
     with_shape c (set_slot f (Some (next f m)) s)
       (put f (next f m) (zero_cell f) m)).
Proof.
  intros Hf. unfold pointee.
  erewrite bind_returned; [|unfold load_shape; by rewrite Hs].
  rewrite Hf.
  erewrite bind_returned; [|apply alloc_put].
  by destruct f.
Qed.

Lemma pointee_set (f : field) (l : loc) :
  slot f s = Some l → pointee c f m = (Returned l, m).
Proof.
  intros Hf. unfold pointee.
  erewrite bind_returned; [|unfold load_shape; by rewrite Hs].
  by rewrite Hf.
Qed.

(** The memory after a member with the cell [x] was stored into the
    field [f], which was nil. *)
Definition stored (f : field) (x : cell) : mem :=
  put f (next f m) x
    (with_shape c (set_slot f (Some (next f m)) s)
       (put f (next f m) (zero_cell f) m)).

Lemma unmarshal_member_stored (f : field) (x : cell) :
  slot f s = None → fits f x →
  unmarshal_member c (name_of f) (Whole (value_of x)) m
  = (Returned None, stored f x).
Proof.
  intros Hf Hx. unfold unmarshal_member. rewrite field_of_name_of.
  assert (∀ v, v = value_of x →
            match v with
            | Null => s0 <- load_shape c;; store_shape c (set_slot f None s0);;; ret None
            | _ => l <- pointee c f;; store_value f l v
            end = (l <- pointee c f;; store_value f l (value_of x))) as Hv.
  { intros v ->. destruct x as [v|z]; [done|].
    unfold value_of, number_of. by destruct (Z.to_int z). }
  rewrite (Hv _ eq_refl).
  erewrite bind_returned; [|by apply pointee_nil].
  by apply store_value_put.
Qed.

Lemma shapes_stored (f : field) (x : cell) :
  shapes (stored f x) = <[c := set_slot f (Some (next f m)) s]> (shapes m).
Proof. by destruct f, x. Qed.

Lemma get_stored_same (f : field) (x : cell) :
  fits f x → get (stored f x) (set_slot f (Some (next f m)) s) f = Some x.
Proof.
  destruct f, x; try done; intros _; unfold get, stored, put; simpl;
    by rewrite lookup_insert_eq.
Qed.

Lemma fresh_ne {A} (h : gmap loc A) (l : loc) :
  is_Some (h !! l) → l ≠ fresh (dom h).
Proof.
  intros Hl ->. apply elem_of_dom in Hl. by apply is_fresh in Hl.
Qed.

Lemma get_stored_other (f g : field) (x : cell) :
  fits f x → g ≠ f → (slot g s ≠ None → is_Some (get m s g)) →
  get (stored f x) (set_slot f (Some (next f m)) s) g = get m s g.
Proof.
  intros Hx Hne Hg. unfold get in *. rewrite slot_set_slot.
  rewrite decide_False by done.
  destruct (slot g s) as [lg|]; [|done]. specialize (Hg ltac:(done)).
  destruct f, g, x; try done; unfold stored, put, next; simpl in *;
    apply fmap_is_Some, fresh_ne in Hg;
    by rewrite !lookup_insert_ne.
Qed.

Lemma allocated_stored (f : field) (x : cell) :
  fits f x → allocated m s →
  allocated (stored f x) (set_slot f (Some (next f m)) s).
Proof.
  intros Hx Ha g Hg. destruct (decide (g = f)) as [->|Hne].
  - by rewrite get_stored_same.
  - rewrite get_stored_other by (try done; apply Ha).
    apply Ha. by rewrite slot_set_slot, decide_False in Hg.
Qed.

End Member.

(** The members written for the record [s0] in [m0], stored into a
    record whose fields [fs] are nil: these fields come to hold what was
    written, the others stay. *)
Lemma unmarshal_written (m0 : mem) (s0 : shape) (c : loc) (fs : list field) :
  valid m0 s0 → NoDup fs →
  ∀ m s,
    shapes m !! c = Some s → (∀ f, f ∈ fs → slot f s = None) → allocated m s →
    ∃ m' s',
      unmarshal_members c (written m0 s0 fs) m = (Returned None, m')
      ∧ shapes m' !! c = Some s'
      ∧ (∀ f, f ∈ fs → get m' s' f = get m0 s0 f ≫= kept)
      ∧ (∀ g, g ∉ fs → get m' s' g = get m s g)
      ∧ allocated m' s'.
Proof.
  intros Hvalid. induction fs as [|f fs IH]; intros Hnd m s Hs Hnil Ha.
  - exists m, s. repeat split; try done. intros f Hf. by apply elem_of_nil in Hf.
  - apply NoDup_cons in Hnd as [Hf Hnd].
    assert (slot f s = None) as Hfnil by (apply Hnil; by left).
    unfold written. cbn [omap list_omap]. fold (written m0 s0 fs).
    destruct (get m0 s0 f ≫= kept) as [x|] eqn:Hx.
    + assert (fits f x) as Hfit.
      { destruct (get m0 s0 f) as [y|] eqn:Hy; [|done].
        destruct (Hvalid f) as (y' & Hy' & Hfit).
        { unfold get in Hy. by destruct (slot f s0). }
        rewrite Hy in Hy'. injection Hy' as <-.
        destruct y as [[|a v]|z]; by simplify_eq/=. }
      cbn [unmarshal_members].
      erewrite bind_returned; [|by apply unmarshal_member_stored].
      destruct (IH Hnd (stored c m s f x) (set_slot f (Some (next f m)) s))
        as (m' & s' & Hrun & Hs' & Hin & Hout & Ha').
      * rewrite shapes_stored. apply lookup_insert_eq.
      * intros g Hg. rewrite slot_set_slot, decide_False; [apply Hnil; by right|].
        by intros ->.
      * by apply allocated_stored.
      * exists m', s'. repeat split; try done.
        -- intros g Hg. apply elem_of_cons in Hg as [->|Hg]; [|by apply Hin].
           rewrite Hout by done. rewrite get_stored_same by done. done.
        -- intros g Hg. apply not_elem_of_cons in Hg as [Hne Hg].
           rewrite Hout by done. apply get_stored_other; try done. apply Ha.
    + destruct (IH Hnd m s Hs) as (m' & s' & Hrun & Hs' & Hin & Hout & Ha');
        [intros g Hg; apply Hnil; by right|done|].
      exists m', s'. repeat split; try done.
      * intros g Hg. apply elem_of_cons in Hg as [->|Hg]; [|by apply Hin].
        rewrite Hout by done. unfold get. by rewrite Hfnil.
      * intros g Hg. apply not_elem_of_cons in Hg as [_ Hg]. by apply Hout.
Qed.

End Store.

(** ** C5: encoding, then decoding *)

Section RoundTrip.

Import jsontext json.

Lemma Unmarshal_object (r : string) (p : view) :
  Unmarshal (String "{" r) p
  = (let (ms, e) := scan_members (String.length (String "{" r)) r [] true in
     err <- unmarshal_members (vaddr p) ms ;;
     match err, e with
     | Some e, _ => ret (Some e)
     | None, Closed rest => ret (check_eof rest)
     | None, Broken => ret (Some SyntacticError)
     end).
Proof. reflexivity. Qed.

Lemma fields_NoDup : NoDup fields.
Proof. by apply (bool_decide_unpack _). Qed.

Lemma names_NoDup : NoDup (name_of <$> fields).
Proof. by apply (bool_decide_unpack _). Qed.

(** A record whose pointers all point to cells that fit is encoded
    without error, and the text decodes, into a record that was zero, to
    what the record held, less the strings that [omitempty] dropped. *)
Lemma roundtrip (m : mem) (c : loc) (s : shape) :
  shapes m !! c = Some s → valid m s →
  ∃ text,
    sumtype.MarshalJSON c m = (Returned (Ok text), m)
    ∧ ∀ m2 c2,
        shapes m2 !! c2 = Some zero_shape →
        ∃ m3 s3,
          sumtype.UnmarshalJSON c2 text m2 = (Returned None, m3)
          ∧ shapes m3 !! c2 = Some s3
          ∧ allocated m3 s3
          ∧ ∀ f, get m3 s3 f = get m s f ≫= kept.
Proof.
  intros Hs Hvalid.
  destruct (scan_head m s Hvalid fields) as (body & Hbody & Hscan).
  exists ("{" +:+ body +:+ "}"). split.
  { unfold sumtype.MarshalJSON, Marshal.
    erewrite bind_returned; [|unfold load_shape; simpl; by rewrite Hs].
    by rewrite Hbody. }
  intros m2 c2 Hs2.
  unfold sumtype.UnmarshalJSON.
  change ("{" +:+ body +:+ "}") with (String "{" (body +:+ "}")).
  rewrite Unmarshal_object. cbn [String.length].
  specialize (Hscan (String.length (body +:+ "}")) "").
  change ("}" +:+ "") with "}" in Hscan. rewrite Hscan.
  2: { exact names_NoDup. }
  2: { rewrite length_append. lia. }
  destruct (unmarshal_written m s c2 fields Hvalid fields_NoDup m2 zero_shape Hs2)
    as (m3 & s3 & Hrun & Hs3 & Hin & _ & Ha).
  { intros f _. by destruct f. }
  { intros f Hf. by destruct f. }
  exists m3, s3.
  split; [by erewrite bind_returned by exact Hrun|].
  split; [done|]. split; [done|].
  intros f. apply Hin. destruct f; set_solver.
Qed.

(** What a record holds, by the cells of its fields. *)
Definition str_of (x : cell) : option string :=
  match x with CStr v => Some v | CInt _ => None end.
Definition int_of (x : cell) : option Z :=
  match x with CInt z => Some z | CStr _ => None end.

Lemma contents_of_get (m : mem) (s : shape) :
  contents_of m s
  = {| cColor := get m s FColor ≫= str_of;
       cKind := get m s FKind ≫= str_of;
       cRadius := get m s FRadius ≫= int_of;
       cWidth := get m s FWidth ≫= int_of;
       cHeight := get m s FHeight ≫= int_of |}.
Proof.
  unfold contents_of, get, deref. simpl.
  destruct (Color s) as [l1|], (Kind s) as [l2|], (Radius s) as [l3|],
    (Width s) as [l4|], (Height s) as [l5|]; simpl;
    repeat match goal with |- context [?h !! ?l] => destruct (h !! l) end;
    done.
Qed.

End RoundTrip.

(** A variant and the values of the fields it owns. *)
Inductive variant :=
| VCircle (radius : Z)
| VRectangle (width height : Z).

Definition tag_of (v : variant) : ShapeKind :=
  match v with
  | VCircle _ => CircleShapeKind
  | VRectangle _ _ => RectangleShapeKind
  end.

(** What a record populated as the variant [v], of the colour [color],
    holds. *)
Definition contents_as (color : string) (v : variant) : contents :=
  match v with
  | VCircle radius =>
      {| cColor := Some color; cKind := Some CircleShapeKind;
         cRadius := Some radius; cWidth := None; cHeight := None |}
  | VRectangle width height =>
      {| cColor := Some color; cKind := Some RectangleShapeKind;
         cRadius := None; cWidth := Some width; cHeight := Some height |}
  end.

(** The fields the variant does not own are nil. *)
Definition others_nil (v : variant) (s : shape) : Prop :=
  match v with
  | VCircle _ => Width s = None ∧ Height s = None
  | VRectangle _ _ => Radius s = None
  end.

Definition populated (m : mem) (s : shape) (color : string) (v : variant)
  : Prop :=
  contents_of m s = contents_as color v ∧ others_nil v s.

(** The values are values of the Go type [int]. *)
Definition ints_fit (v : variant) : Prop :=
  match v with
  | VCircle radius => (json.min_int ≤ radius ≤ json.max_int)%Z
  | VRectangle width height =>
      (json.min_int ≤ width ≤ json.max_int)%Z
      ∧ (json.min_int ≤ height ≤ json.max_int)%Z
  end.

Lemma populated_valid (m : mem) (s : shape) (color : string) (v : variant) :
  populated m s color v → jsontext.utf8_valid color = true → ints_fit v →
  valid m s.
Proof.
  intros [Hc Hnil] Hcolor Hints f Hf.
  rewrite contents_of_get in Hc.
  destruct v as [r|w h]; simpl in *; injection Hc as Hc1 Hc2 Hc3 Hc4 Hc5.
  - destruct Hnil as [Hw Hh].
    destruct f; simpl in Hf; try done;
      [ destruct (get m s json.FColor) as [[x|x]|]
      | destruct (get m s json.FKind) as [[x|x]|]
      | destruct (get m s json.FRadius) as [[x|x]|] ];
      simplify_eq/=; eexists; (split; [done|]); done.
  - destruct Hints as [Hw Hh].
    destruct f; simpl in Hf; try done;
      [ destruct (get m s json.FColor) as [[x|x]|]
      | destruct (get m s json.FKind) as [[x|x]|]
      | destruct (get m s json.FWidth) as [[x|x]|]
      | destruct (get m s json.FHeight) as [[x|x]|] ];
      simplify_eq/=; eexists; (split; [done|]); done.
Qed.

(** C5, as stated, fails for some colours.  A circle whose colour is the
    empty string is encoded without the colour, which [omitempty] drops,
    and decodes to a record without a colour; a circle whose colour is
    the single byte 255, which is not UTF-8, is not encoded at all. *)
Lemma roundtrip_counterexample :
  let empty := mem_of [(1%positive, "")] [(1%positive, CircleShapeKind)]
                 [(1%positive, 1%Z)] red_circle in
  let byte255 := mem_of [(1%positive, String (ascii_of_N 255) "")]
                   [(1%positive, CircleShapeKind)] [(1%positive, 1%Z)]
                   red_circle in
  (populated empty red_circle "" (VCircle 1)
   ∧ ∃ text,
       (sumtype.MarshalJSON 1%positive empty).1 = Returned (json.Ok text)
       ∧ cColor <$> read (sumtype.UnmarshalJSON 1%positive text mem_unset).2
                      1%positive
         = Some None)
  ∧ (populated byte255 red_circle (String (ascii_of_N 255) "") (VCircle 1)
     ∧ (sumtype.MarshalJSON 1%positive byte255).1
       = Returned (json.Err json.SyntacticError)).
Proof.
  split; (split; [by split|]).
  - eexists. split; [vm_compute; reflexivity|]. vm_compute. reflexivity.
  - vm_compute. reflexivity.
Qed.

(** C5, amended. A record populated as the variant V with a colour that
    is a non-empty UTF-8 string and with integers of the type [int] is
    encoded without error, and the text decodes, into a record that was
    zero, without error and to a record that holds the tag of V, the
    colour and the values of the fields V owns, and whose other fields
    are nil. *)
Theorem roundtrip_of_variant (m : mem) (c : loc) (s : shape)
    (color : string) (v : variant) :
  shapes m !! c = Some s → populated m s color v →
  jsontext.utf8_valid color = true → color ≠ "" → ints_fit v →
  ∃ text,
    sumtype.MarshalJSON c m = (Returned (json.Ok text), m)
    ∧ ∀ m2 c2,
        shapes m2 !! c2 = Some zero_shape →
        ∃ m3 s3,
          sumtype.UnmarshalJSON c2 text m2 = (Returned None, m3)
          ∧ shapes m3 !! c2 = Some s3
          ∧ contents_of m3 s3 = contents_as color v
          ∧ others_nil v s3.
Proof.
  intros Hs Hpop Hcolor Hne Hints.
  pose proof (populated_valid m s color v Hpop Hcolor Hints) as Hvalid.
  destruct (roundtrip m c s Hs Hvalid) as (text & Hm & Hu).
  exists text. split; [done|]. intros m2 c2 Hs2.
  destruct (Hu m2 c2 Hs2) as (m3 & s3 & Hrun & Hs3 & Ha & Hget).
  exists m3, s3. split; [done|]. split; [done|].
  destruct Hpop as [Hc Hnil]. rewrite contents_of_get in Hc |- *.
  assert (∀ f, get m s f = None → json.slot f s3 = None) as Hslot.
  { intros f Hf. specialize (Hget f). rewrite Hf in Hget. simpl in Hget.
    destruct (json.slot f s3) eqn:E; [|done].
    destruct (Ha f) as [x Hx]; [by rewrite E|]. congruence. }
  assert (∀ f, json.slot f s = None → get m s f = None) as Hnone.
  { intros f Hf. unfold get. by rewrite Hf. }
  rewrite !Hget.
  destruct v as [r|w h]; simpl in *; injection Hc as Hc1 Hc2 Hc3 Hc4 Hc5.
  - destruct Hnil as [Hw Hh].
    destruct (get m s json.FColor) as [[x|x]|],
      (get m s json.FKind) as [[y|y]|],
      (get m s json.FRadius) as [[z|z]|]; simplify_eq/=.
    rewrite (Hnone json.FWidth Hw), (Hnone json.FHeight Hh). simpl.
    split; [by destruct color|].
    split; [apply (Hslot json.FWidth)|apply (Hslot json.FHeight)];
      by apply Hnone.
  - destruct (get m s json.FColor) as [[x|x]|],
      (get m s json.FKind) as [[y|y]|],
      (get m s json.FWidth) as [[z|z]|],
      (get m s json.FHeight) as [[z'|z']|]; simplify_eq/=.
    rewrite (Hnone json.FRadius Hnil). simpl.
    split; [by destruct color|].
    apply (Hslot json.FRadius). by apply Hnone.
Qed.

Lemma roundtrip_of_variant_witness :
  shapes mem_rectangle !! 1%positive = Some red_rectangle
  ∧ populated mem_rectangle red_rectangle "red" (VRectangle 100 50)
  ∧ jsontext.utf8_valid "red" = true ∧ "red" ≠ ""
  ∧ ints_fit (VRectangle 100 50)
  ∧ ∃ text,
      sumtype.MarshalJSON 1%positive mem_rectangle
      = (Returned (json.Ok text), mem_rectangle)
      ∧ ∀ m2 c2,
          shapes m2 !! c2 = Some zero_shape →
          ∃ m3 s3,
            sumtype.UnmarshalJSON c2 text m2 = (Returned None, m3)
            ∧ shapes m3 !! c2 = Some s3
            ∧ contents_of m3 s3 = contents_as "red" (VRectangle 100 50)
            ∧ others_nil (VRectangle 100 50) s3.
Proof.
  assert (ints_fit (VRectangle 100 50)) as Hints by (by vm_compute).
  split; [reflexivity|]. split; [by split|]. split; [reflexivity|].
  split; [discriminate|]. split; [exact Hints|].
  apply (roundtrip_of_variant mem_rectangle 1%positive red_rectangle "red"
           (VRectangle 100 50)).
  - reflexivity.
  - by split.
  - reflexivity.
  - discriminate.
  - exact Hints.
Defined.

(** A JSON text written with apostrophes in place of double quotes. *)
Fixpoint json_text (s : string) : string :=
  match s with
  | EmptyString => EmptyString
  | String c r =>
      String (if Ascii.eqb c "'" then jsontext.dquote else c) (json_text r)
  end.

(** ** Decoding any object text *)

Section Decode.

Import jsontext json.

(** The members of an object as [scan_members] yields them. *)
Definition wrap (ms : list (string * Value)) : list (string * item) :=
  (λ nv, (nv.1, Whole nv.2)) <$> ms.

Lemma whole_wrap (evs : list (string * item)) (ms : list (string * Value)) :
  whole evs = Some ms → evs = wrap ms.
Proof.
  revert ms. induction evs as [|[n [v|b]] evs IH]; intros ms; simpl.
  - by intros [= <-].
  - destruct (whole evs) as [ms'|]; [|done]. intros [= <-].
    unfold wrap. simpl. f_equal. by apply IH.
  - done.
Qed.

Lemma expect_Some (c : ascii) (s r : string) :
  skip_ws s = String c r → expect c s = Some r.
Proof. intros H. unfold expect. by rewrite H, Ascii.eqb_refl. Qed.

(** An object is read by [scan_members]. *)
Lemma read_value_Object (fuel : nat) (data rest : string)
    (ms : list (string * Value)) :
  read_value (S fuel) data = Some (Object ms, rest) →
  ∃ r evs,
    expect "{" data = Some r
    ∧ scan_members fuel r [] true = (evs, Closed rest)
    ∧ whole evs = Some ms.
Proof.
  cbn [read_value]. destruct (skip_ws data) as [|c r] eqn:E; [done|].
  intros H.
  destruct (Ascii.eqb_spec c "n"); [repeat case_match; by simplify_eq|].
  destruct (Ascii.eqb_spec c "t"); [repeat case_match; by simplify_eq|].
  destruct (Ascii.eqb_spec c "f"); [repeat case_match; by simplify_eq|].
  destruct (Ascii.eqb_spec c dquote); [repeat case_match; by simplify_eq|].
  destruct (Ascii.eqb_spec c "["); [repeat case_match; by simplify_eq|].
  destruct (Ascii.eqb_spec c "{") as [->|?].
  - exists r. destruct (scan_members fuel r [] true) as [evs [r'|]];
      [|done].
    destruct (whole evs) as [ms'|] eqn:W; [|done]. simplify_eq.
    exists evs. by rewrite (expect_Some _ _ _ E).
  - unfold read_number in H. repeat case_match; by simplify_eq.
Qed.


Lemma wrap_names (ms : list (string * Value)) : (wrap ms).*1 = ms.*1.
Proof. unfold wrap. induction ms as [|[n v] ms IH]; [done|]. simpl. by f_equal. Qed.

(** Decoding an object text is storing its members in order. *)
Lemma Unmarshal_of_object (data rest : string) (ms : list (string * Value))
    (p : view) :
  read_value (S (String.length data)) data = Some (Object ms, rest) →
  Unmarshal data p
  = (err <- unmarshal_members (vaddr p) (wrap ms) ;;
     match err with
     | Some e => ret (Some e)
     | None => ret (check_eof rest)
     end).
Proof.
  intros H. apply read_value_Object in H as (r & evs & Hr & Hscan & Hw).
  unfold Unmarshal. rewrite Hr, Hscan. by rewrite (whole_wrap _ _ Hw).
Qed.

(** The names [scan_members] yields are new and differ from each other. *)
Lemma scan_members_names (fuel : nat) :
  ∀ r seen first evs e,
    scan_members fuel r seen first = (evs, e) →
    NoDup evs.*1 ∧ ∀ n, n ∈ evs.*1 → n ∉ seen.
Proof.
  assert (∀ seen : list string, NoDup ([] : list (string * item)).*1
            ∧ ∀ n, n ∈ ([] : list (string * item)).*1 → n ∉ seen) as Hnil.
  { intros seen. split; [constructor|]. intros n Hn. by apply elem_of_nil in Hn. }
  assert (∀ (seen : list string) name (it : item), name ∉ seen →
            NoDup [(name, it)].*1 ∧ ∀ n, n ∈ [(name, it)].*1 → n ∉ seen) as Hone.
  { intros seen name it Hname. split; [apply NoDup_singleton|].
    intros n Hn. apply list_elem_of_singleton in Hn. by subst. }
  induction fuel as [|fuel IH]; intros r seen first evs e; cbn [scan_members].
  { intros [= <- <-]. apply Hnil. }
  intros H.
  destruct (expect "}" r); [destruct first; simplify_eq; apply Hnil|].
  destruct (expect dquote r) as [r0|]; [|simplify_eq; apply Hnil].
  destruct (read_string r0) as [[name r1]|]; [|simplify_eq; apply Hnil].
  destruct (bool_decide (name ∈ seen)) eqn:Hseen; [simplify_eq; apply Hnil|].
  apply bool_decide_eq_false in Hseen.
  destruct (expect ":" r1) as [r2|]; [|simplify_eq; by apply Hone].
  destruct (read_value fuel r2) as [[v r3]|]; [|simplify_eq; by apply Hone].
  destruct (too_deep v); [simplify_eq; by apply Hone|].
  destruct (expect "," r3) as [r4|].
  - destruct (scan_members fuel r4 (name :: seen) false) as [ms e'] eqn:Hrec.
    apply IH in Hrec as [Hnd Hnot]. simplify_eq. simpl. split.
    + constructor; [|done]. intros Hin. apply Hnot in Hin.
      apply Hin. by left.
    + intros n Hn. apply elem_of_cons in Hn as [->|Hn]; [done|].
      apply Hnot in Hn. intros Hin. apply Hn. by right.
  - destruct (expect "}" r3); simplify_eq; by apply Hone.
Qed.

Lemma object_names (fuel : nat) (data rest : string)
    (ms : list (string * Value)) :
  read_value (S fuel) data = Some (Object ms, rest) → NoDup ms.*1.
Proof.
  intros H. apply read_value_Object in H as (r & evs & _ & Hscan & Hw).
  apply scan_members_names in Hscan as [Hnd _].
  by rewrite (whole_wrap _ _ Hw), wrap_names in Hnd.
Qed.

(** *** One member *)

Lemma store_value_total (f : field) (l : loc) (v : Value) (m : mem) :
  ∃ r m',
    store_value f l v m = (Returned r, m')
    ∧ shapes m' = shapes m
    ∧ (f ≠ FKind → kinds m' = kinds m)
    ∧ (∀ k, f = FKind → v = Str k → r = None ∧ kinds m' !! l = Some k).
Proof.
  destruct f, v as [|b|neg d [|]|str|vs|ms]; simpl;
    try (eexists _, _; split; [reflexivity|]; simpl;
         repeat split; try done; intros; simplify_eq;
         by rewrite ?lookup_insert_eq).
  all: destruct (_ && _);
    eexists _, _; (split; [reflexivity|]); simpl; repeat split; done.
Qed.

Section OneMember.

Variables (c : loc) (m : mem) (s : shape).
Hypothesis Hs : shapes m !! c = Some s.

Lemma pointee_total (f : field) :
  ∃ l m1 s1,
    pointee c f m = (Returned l, m1)
    ∧ shapes m1 !! c = Some s1
    ∧ slot f s1 = Some l
    ∧ (∀ g, g ≠ f → slot g s1 = slot g s)
    ∧ (f ≠ FKind → kinds m1 = kinds m).
Proof.
  destruct (slot f s) as [l|] eqn:Hf.
  - exists l, m, s. by rewrite (pointee_set c m s Hs f l Hf).
  - rewrite (pointee_nil c m s Hs f Hf).
    exists (next f m),
      (with_shape c (set_slot f (Some (next f m)) s)
         (put f (next f m) (zero_cell f) m)),
      (set_slot f (Some (next f m)) s).
    split; [done|]. split; [apply lookup_insert_eq|].
    split; [by rewrite slot_set_slot, decide_True|].
    split; [intros g Hg; by rewrite slot_set_slot, decide_False|].
    by destruct f.
Qed.

(** What decoding one member does to the record: it returns, it leaves
    the other fields, and the kinds unless it is the kind; and if it
    returns no error, a value other than [null] has left the field set,
    and a string for the kind is the kind. *)
Lemma unmarshal_member_effect (name : string) (it : item) :
  ∃ r m' s',
    unmarshal_member c name it m = (Returned r, m')
    ∧ shapes m' !! c = Some s'
    ∧ (∀ f, name_of f ≠ name → slot f s' = slot f s)
    ∧ (name ≠ "kind" → kinds m' = kinds m)
    ∧ (r = None → ∀ f v, name = name_of f → it = Whole v → v ≠ Null →
         slot f s' ≠ None)
    ∧ (r = None → ∀ k, name = "kind" → it = Whole (Str k) →
         deref (kinds m') (Kind s') = Some k).
Proof.
  unfold unmarshal_member. destruct (field_of name) as [f|] eqn:Hname.
  2: { exists (match it with Whole _ => None | Torn _ => Some SyntacticError end),
         m, s.
       repeat split; try done.
       - intros _ f v ->. by rewrite field_of_name_of in Hname.
       - intros _ k ->. done. }
  apply field_of_Some in Hname as ->.
  assert (∀ g, name_of g ≠ name_of f → g ≠ f) as Hne by (intros g H ->; done).
  assert (name_of f ≠ "kind" → f ≠ FKind) as Hk by (intros H ->; done).
  assert (∀ v, v ≠ Null →
            match v with
            | Null => s0 <- load_shape c;; store_shape c (set_slot f None s0);;; ret None
            | _ => l <- pointee c f;; store_value f l v
            end = (l <- pointee c f;; store_value f l v)) as Hv.
  { intros v Hnull. by destruct v. }
  destruct (pointee_total f) as (l & m1 & s1 & Hp & Hs1 & Hl & Hother & Hkinds).
  destruct it as [v|[|]].
  - assert (v = Null ∨ v ≠ Null) as [->|Hnull] by (destruct v; by eauto).
    + exists None, (with_shape c (set_slot f None s) m), (set_slot f None s).
      split.
      { erewrite bind_returned; [|unfold load_shape; by rewrite Hs].
        erewrite bind_returned; [|reflexivity]. reflexivity. }
      split; [apply lookup_insert_eq|].
      split.
      { intros g Hg. rewrite slot_set_slot, decide_False; [done|by apply Hne]. }
      split; [done|]. split; [|done].
      intros _ g v' _ [= <-] Hnull. done.
    + rewrite (Hv v Hnull).
      destruct (store_value_total f l v m1) as (r & m' & Hrun & Hsh & Hkd & Hkind).
      exists r, m', s1. split; [by erewrite bind_returned by exact Hp|].
      split; [by rewrite Hsh|].
      split; [intros g Hg; apply Hother; by apply Hne|].
      split; [intros Hn; rewrite Hkd, Hkinds by (by apply Hk); done|].
      split.
      * intros _ g v' Hg [= <-] _. apply name_of_inj in Hg as <-. by rewrite Hl.
      * intros _ k Hg [= ->]. change "kind" with (name_of FKind) in Hg.
        apply name_of_inj in Hg as ->. simpl in Hl.
        destruct (Hkind k eq_refl eq_refl) as [_ Hlook]. by rewrite Hl.
  - exists (Some SyntacticError), m, s. repeat split; done.
  - exists (Some SyntacticError), m1, s1.
    split; [by erewrite bind_returned by exact Hp|].
    split; [done|].
    split; [intros g Hg; apply Hother; by apply Hne|].
    split; [intros Hn; by apply Hkinds, Hk|]. done.
Qed.

End OneMember.

(** *** The members in order *)

(** Decoding a list of members returns, and leaves every field that
    none of them names. *)
Lemma unmarshal_members_frame (c : loc) (evs : list (string * item)) :
  ∀ m s,
    shapes m !! c = Some s →
    ∃ r m' s',
      unmarshal_members c evs m = (Returned r, m')
      ∧ shapes m' !! c = Some s'
      ∧ (∀ f, name_of f ∉ evs.*1 → slot f s' = slot f s)
      ∧ ("kind" ∉ evs.*1 → kinds m' = kinds m).
Proof.
  induction evs as [|[name it] evs IH]; intros m s Hs.
  - exists None, m, s. done.
  - destruct (unmarshal_member_effect c m s Hs name it)
      as (r1 & m1 & s1 & Hrun1 & Hs1 & Hslot1 & Hkinds1 & _).
    cbn [unmarshal_members]. erewrite bind_returned by exact Hrun1.
    destruct r1 as [e|].
    + exists (Some e), m1, s1. split; [done|]. split; [done|]. split.
      * intros f Hf. apply Hslot1. intros Heq. apply Hf, elem_of_cons. by left.
      * intros Hk. apply Hkinds1. intros ->. apply Hk, elem_of_cons. by left.
    + destruct (IH m1 s1 Hs1) as (r & m' & s' & Hrun & Hs' & Hslot & Hkinds).
      exists r, m', s'. split; [done|]. split; [done|]. split.
      * intros f Hf. apply not_elem_of_cons in Hf as [Hne Hf].
        rewrite Hslot by done. by apply Hslot1.
      * intros Hk. apply not_elem_of_cons in Hk as [Hne Hk].
        rewrite Hkinds by done. by apply Hkinds1.
Qed.

(** When no error is returned: a member other than [null] for a field
    has left the field set, and a string for the kind is the kind. *)
Lemma unmarshal_members_effect (c : loc) (evs : list (string * item)) :
  NoDup evs.*1 →
  ∀ m s m',
    shapes m !! c = Some s →
    unmarshal_members c evs m = (Returned None, m') →
    ∃ s',
      shapes m' !! c = Some s'
      ∧ (∀ f v, (name_of f, Whole v) ∈ evs → v ≠ Null → slot f s' ≠ None)
      ∧ (∀ k, ("kind", Whole (Str k)) ∈ evs →
           deref (kinds m') (Kind s') = Some k).
Proof.
  induction evs as [|[name it] evs IH]; intros Hnd m s m' Hs Hrun.
  - exists s. cbn [unmarshal_members] in Hrun. unfold ret in Hrun. simplify_eq.
    split; [done|]. split; intros; by apply elem_of_nil in H.
  - apply NoDup_cons in Hnd as [Hname Hnd]. simpl in Hname.
    destruct (unmarshal_member_effect c m s Hs name it)
      as (r1 & m1 & s1 & Hrun1 & Hs1 & _ & _ & Hset1 & Hkind1).
    cbn [unmarshal_members] in Hrun. erewrite bind_returned in Hrun by exact Hrun1.
    destruct r1 as [e|]; [unfold ret in Hrun; simplify_eq|].
    destruct (unmarshal_members_frame c evs m1 s1 Hs1)
      as (r & m'' & s' & Hrun' & Hs' & Hslot & Hkinds).
    rewrite Hrun in Hrun'. simplify_eq.
    destruct (IH Hnd m1 s1 m'' Hs1 Hrun) as (s'' & Hs'' & Hset & Hkind).
    rewrite Hs' in Hs''. simplify_eq.
    exists s''. split; [done|]. split.
    + intros f v Hin Hnull. apply elem_of_cons in Hin as [[= <- <-]|Hin].
      * rewrite Hslot by done. by eapply Hset1.
      * by eapply Hset.
    + intros k Hin. apply elem_of_cons in Hin as [[= <- <-]|Hin].
      * rewrite Hkinds by done.
        change (Kind s'') with (slot FKind s'').
        rewrite Hslot by done. by apply Hkind1.
      * by apply Hkind.
Qed.

(** A member with an unknown name does nothing. *)
Definition known (nv : string * Value) : bool :=
  match field_of nv.1 with Some _ => true | None => false end.

Lemma unmarshal_members_known (c : loc) (ms : list (string * Value)) (m : mem) :
  unmarshal_members c (wrap ms) m
  = unmarshal_members c (wrap (filter known ms)) m.
Proof.
  revert m. induction ms as [|[name v] ms IH]; intros m; [done|].
  destruct (field_of name) as [f|] eqn:Hf.
  - rewrite filter_cons_True by (unfold known; simpl; by rewrite Hf).
    unfold wrap. simpl. cbn [unmarshal_members]. unfold bind.
    destruct (unmarshal_member c name (Whole v) m) as [[[e|]|p] m1];
      try done; apply IH.
  - rewrite filter_cons_False by (unfold known; simpl; rewrite Hf; by intros []).
    unfold wrap at 1. simpl. cbn [unmarshal_members]. unfold bind.
    unfold unmarshal_member. rewrite Hf. simpl. apply IH.
Qed.

End Decode.

(** ** C8: decoding trusts the text *)

(** The text is a JSON object with the members [ms], white space around
    it allowed, as the decoder reads it: the names of the members
    differ, and no value is nested deeper than the decoder allows. *)
Definition object_text (data : string) (ms : list (string * jsontext.Value))
  : Prop :=
  ∃ rest,
    jsontext.read_value (S (String.length data)) data
    = Some (jsontext.Object ms, rest)
    ∧ jsontext.skip_ws rest = "".

Lemma UnmarshalJSON_object (data : string)
    (ms : list (string * jsontext.Value)) (c : loc) (m : mem) :
  object_text data ms →
  sumtype.UnmarshalJSON c data m = json.unmarshal_members c (wrap ms) m.
Proof.
  intros (rest & Hread & Hrest).
  unfold sumtype.UnmarshalJSON. rewrite (Unmarshal_of_object _ _ _ _ Hread).
  unfold json.check_eof. rewrite Hrest. unfold bind. simpl.
  by destruct (json.unmarshal_members c (wrap ms) m) as [[[e|]|p] m'].
Qed.

(** *** Storing values of the type of the field *)

Section StoreFitting.

Import jsontext json.

(** The cell that the JSON value [v] is stored as in the field [f],
    when it is of the type of the field: a string for the colour and
    the kind, an integer of the type [int] for the others. *)
Definition cell_of (f : field) (v : Value) : option cell :=
  match f, v with
  | (FColor | FKind), Str str => Some (CStr str)
  | (FRadius | FWidth | FHeight), Number negative d true =>
      let z := Z.of_int (if negative then Neg d else Pos d) in
      if (min_int <=? z)%Z && (z <=? max_int)%Z then Some (CInt z) else None
  | _, _ => None
  end.

(** A member that the record has a field for gives [null] or a value of
    the type of the field. *)
Definition fits_field (nv : string * Value) : Prop :=
  match field_of nv.1 with
  | Some f => nv.2 = Null ∨ is_Some (cell_of f nv.2)
  | None => True
  end.

(** The store that the pointer of a field points into. *)
Definition pool (f : field) : nat :=
  match f with FColor => 0 | FKind => 1 | _ => 2 end.

(** No two fields of the record share a pointer. *)
Definition unshared (s : shape) : Prop :=
  ∀ f g l, f ≠ g → pool f = pool g → slot f s = Some l → slot g s ≠ Some l.

(** What the pointer [l] of the field [g] points to. *)
Definition look (g : field) (m : mem) (l : loc) : option cell :=
  match g with
  | FColor => CStr <$> strs m !! l
  | FKind => CStr <$> kinds m !! l
  | _ => CInt <$> ints m !! l
  end.

Lemma get_look (m : mem) (s : shape) (g : field) :
  get m s g = slot g s ≫= look g m.
Proof. unfold get. destruct (slot g s); [|done]. by destruct g. Qed.

Lemma look_put_cell (f : field) (v : Value) (x : cell) (l : loc) (m : mem) :
  cell_of f v = Some x → look f (put f l x m) l = Some x.
Proof.
  destruct f, v as [|b|negative d [|]|str|vs|ms]; simpl; try done;
    try (intros [= <-]; simpl; by rewrite lookup_insert_eq);
    (destruct (_ && _); [|done]); intros [= <-]; simpl;
    by rewrite lookup_insert_eq.
Qed.

Lemma look_put_other (f g : field) (l l' : loc) (x : cell) (m : mem) :
  (pool g = pool f → l' ≠ l) → look g (put f l x m) l' = look g m l'.
Proof.
  intros H. destruct f, g, x; simpl in *; try done;
    rewrite lookup_insert_ne; try done; intros ->; by apply H.
Qed.

Lemma store_value_cell (f : field) (l : loc) (v : Value) (x : cell) (m : mem) :
  cell_of f v = Some x → store_value f l v m = (Returned None, put f l x m).
Proof.
  destruct f, v as [|b|negative d [|]|str|vs|ms]; simpl; try done;
    try (by intros [= <-]);
    (destruct (_ && _); [|done]); by intros [= <-].
Qed.

Lemma look_Some_ne_next (g f : field) (m : mem) (l : loc) :
  is_Some (look g m l) → pool g = pool f → l ≠ next f m.
Proof.
  destruct f, g; simpl; try done; intros H%fmap_is_Some _;
    by apply fresh_ne.
Qed.

Section Step.

Variables (c : loc) (m : mem) (s : shape).
Hypothesis Hs : shapes m !! c = Some s.
Hypothesis Hall : allocated m s.
Hypothesis Hun : unshared s.

(** A member that gives a value of the type of its field: the value is
    stored, and the other fields and what they point to are as before. *)
Lemma unmarshal_member_cell (f : field) (v : Value) (x : cell) :
  cell_of f v = Some x →
  ∃ m' s',
    unmarshal_member c (name_of f) (Whole v) m = (Returned None, m')
    ∧ shapes m' !! c = Some s'
    ∧ get m' s' f = Some x
    ∧ (∀ g, g ≠ f → slot g s' = slot g s ∧ get m' s' g = get m s g)
    ∧ allocated m' s' ∧ unshared s'.
Proof using Hs Hall Hun.
  intros Hx. unfold unmarshal_member. rewrite field_of_name_of.
  assert (match v with
          | Null => s0 <- load_shape c;; store_shape c (set_slot f None s0);;; ret None
          | _ => l <- pointee c f;; store_value f l v
          end = (l <- pointee c f;; store_value f l v)) as ->.
  { destruct v; try done. by destruct f. }
  destruct (slot f s) as [l|] eqn:Hf.
  - exists (put f l x m), s.
    split.
    { erewrite bind_returned; [|by apply (pointee_set c m s Hs)].
      by apply store_value_cell. }
    split; [by destruct f, x|].
    assert (get (put f l x m) s f = Some x) as Hsame.
    { rewrite get_look, Hf. simpl. by eapply look_put_cell. }
    assert (∀ g, g ≠ f → get (put f l x m) s g = get m s g) as Hother.
    { intros g Hg. rewrite !get_look. destruct (slot g s) as [lg|] eqn:Hlg; [|done].
      simpl. apply look_put_other. intros Hp ->.
      by apply (Hun f g l (not_eq_sym Hg) (eq_sym Hp)). }
    split; [done|]. split; [by auto|]. split; [|done].
    intros g Hg. destruct (decide (g = f)) as [->|Hne].
    + by rewrite Hsame.
    + rewrite Hother by done. by apply Hall.
  - set (l := next f m).
    set (s' := set_slot f (Some l) s).
    set (m1 := with_shape c s' (put f l (zero_cell f) m)).
    exists (put f l x m1), s'.
    split.
    { erewrite bind_returned; [|by apply (pointee_nil c m s Hs)].
      by apply store_value_cell. }
    split; [destruct f, x; apply lookup_insert_eq|].
    assert (∀ g lg, g ≠ f → slot g s = Some lg → pool g = pool f → lg ≠ l)
      as Hfresh.
    { intros g lg Hg Hlg. apply look_Some_ne_next.
      specialize (Hall g). rewrite get_look, Hlg in Hall. apply Hall. done. }
    assert (get (put f l x m1) s' f = Some x) as Hsame.
    { rewrite get_look. unfold s'. rewrite slot_set_slot, decide_True by done.
      simpl. by eapply look_put_cell. }
    assert (∀ g, g ≠ f → slot g s' = slot g s
                        ∧ get (put f l x m1) s' g = get m s g) as Hother.
    { intros g Hg. unfold s'. rewrite slot_set_slot, decide_False by done.
      split; [done|]. rewrite !get_look, slot_set_slot, decide_False by done.
      destruct (slot g s) as [lg|] eqn:Hlg; [|done]. simpl.
      rewrite look_put_other by (by apply Hfresh).
      change (look g m1 lg) with (look g (put f l (zero_cell f) m) lg).
      apply look_put_other. by apply Hfresh. }
    split; [done|]. split; [done|]. split.
    + intros g Hg. destruct (decide (g = f)) as [->|Hne].
      * by rewrite Hsame.
      * destruct (Hother g Hne) as [Hslot ->]. apply Hall. by rewrite <- Hslot.
    + intros g h lg Hgh Hp. unfold s'. rewrite !slot_set_slot.
      destruct (decide (g = f)) as [->|Hg], (decide (h = f)) as [->|Hh];
        try done.
      * intros [= <-] Hh'. by apply (Hfresh h l Hh Hh' (eq_sym Hp)).
      * intros Hg' [= <-]. by apply (Hfresh g l Hg Hg' Hp).
      * by apply Hun.
Qed.

(** A member that gives [null]: the field is nil, the others are as
    before. *)
Lemma unmarshal_member_null (f : field) :
  ∃ m' s',
    unmarshal_member c (name_of f) (Whole Null) m = (Returned None, m')
    ∧ shapes m' !! c = Some s'
    ∧ slot f s' = None
    ∧ (∀ g, g ≠ f → slot g s' = slot g s ∧ get m' s' g = get m s g)
    ∧ allocated m' s' ∧ unshared s'.
Proof using Hs Hall Hun.
  exists (with_shape c (set_slot f None s) m), (set_slot f None s).
  split.
  { unfold unmarshal_member. rewrite field_of_name_of.
    erewrite bind_returned; [|unfold load_shape; by rewrite Hs].
    erewrite bind_returned; [|reflexivity]. reflexivity. }
  split; [apply lookup_insert_eq|].
  split; [by rewrite slot_set_slot, decide_True|].
  assert (∀ g, g ≠ f → slot g (set_slot f None s) = slot g s
                      ∧ get (with_shape c (set_slot f None s) m)
                          (set_slot f None s) g = get m s g) as Hother.
  { intros g Hg. rewrite !get_look, slot_set_slot, decide_False by done. done. }
  split; [done|]. split.
  - intros g. destruct (decide (g = f)) as [->|Hne].
    + by rewrite slot_set_slot, decide_True.
    + destruct (Hother g Hne) as [-> ->]. apply Hall.
  - intros g h lg Hgh Hp. rewrite !slot_set_slot.
    destruct (decide (g = f)), (decide (h = f)); try done. by apply Hun.
Qed.

End Step.

(** The members in order, when the record has a field for each and each
    gives [null] or a value of the type of its field. *)
Lemma unmarshal_members_fitting (c : loc) (ms : list (string * Value)) :
  NoDup ms.*1 →
  Forall (λ nv, is_Some (field_of nv.1) ∧ fits_field nv) ms →
  ∀ m s,
    shapes m !! c = Some s → allocated m s → unshared s →
    ∃ m' s',
      unmarshal_members c (wrap ms) m = (Returned None, m')
      ∧ shapes m' !! c = Some s'
      ∧ allocated m' s' ∧ unshared s'
      ∧ (∀ f v x, (name_of f, v) ∈ ms → cell_of f v = Some x →
           get m' s' f = Some x)
      ∧ (∀ f, (name_of f, Null) ∈ ms → slot f s' = None)
      ∧ (∀ f, name_of f ∉ ms.*1 →
           slot f s' = slot f s ∧ get m' s' f = get m s f).
Proof.
  induction ms as [|[name v] ms IH]; intros Hnd Hfit m s Hs Hall Hun.
  { exists m, s. split; [done|]. split; [done|]. split; [done|].
    split; [done|]. split; [|split; [|done]]; intros; by apply elem_of_nil in H. }
  rewrite fmap_cons in Hnd. apply NoDup_cons in Hnd as [Hname Hnd].
  change ((name, v).1) with name in Hname.
  apply Forall_cons in Hfit as [[[f Hf] Hv] Hfit].
  unfold fits_field in Hv. cbn [fst snd] in Hf, Hv. rewrite Hf in Hv.
  apply field_of_Some in Hf as ->.
  assert (∃ m1 s1,
            unmarshal_member c (name_of f) (Whole v) m = (Returned None, m1)
            ∧ shapes m1 !! c = Some s1
            ∧ (∀ x, cell_of f v = Some x → get m1 s1 f = Some x)
            ∧ (v = Null → slot f s1 = None)
            ∧ (∀ g, g ≠ f → slot g s1 = slot g s ∧ get m1 s1 g = get m s g)
            ∧ allocated m1 s1 ∧ unshared s1)
    as (m1 & s1 & Hrun1 & Hs1 & Hcell1 & Hnull1 & Hother1 & Hall1 & Hun1).
  { destruct Hv as [->|[x Hx]].
    - destruct (unmarshal_member_null c m s Hs Hall Hun f)
        as (m1 & s1 & ? & ? & ? & ? & ? & ?).
      exists m1, s1. split; [done|]. split; [done|].
      split; [intros x Hx; by destruct f|]. done.
    - destruct (unmarshal_member_cell c m s Hs Hall Hun f v x Hx)
        as (m1 & s1 & ? & ? & ? & ? & ? & ?).
      exists m1, s1. split; [done|]. split; [done|].
      split; [intros x' Hx'; congruence|].
      split; [intros ->; by destruct f|]. done. }
  destruct (IH Hnd Hfit m1 s1 Hs1 Hall1 Hun1)
    as (m' & s' & Hrun & Hs' & Hall' & Hun' & Hcell & Hnull & Hframe).
  exists m', s'.
  split.
  { unfold wrap. rewrite fmap_cons. cbn [unmarshal_members fst snd].
    erewrite bind_returned by exact Hrun1. exact Hrun. }
  split; [done|]. split; [done|]. split; [done|].
  assert (∀ g w, (name_of g, w) ∈ (name_of f, v) :: ms →
            (g = f ∧ w = v) ∨ (g ≠ f ∧ (name_of g, w) ∈ ms)) as Hin.
  { intros g w H. apply elem_of_cons in H as [[= Hg ->]|H].
    - apply name_of_inj in Hg as ->. by left.
    - right. split; [|done]. intros ->. apply Hname.
      apply list_elem_of_fmap. by exists (name_of f, w). }
  split; [|split].
  - intros g w x Hg Hx. apply Hin in Hg as [[-> ->]|[Hne Hg]].
    + destruct (Hframe f Hname) as [_ ->]. by apply Hcell1.
    + by eapply Hcell.
  - intros g Hg. apply Hin in Hg as [[-> <-]|[Hne Hg]].
    + destruct (Hframe f Hname) as [-> _]. by apply Hnull1.
    + by apply Hnull.
  - intros g Hg. rewrite fmap_cons in Hg.
    apply not_elem_of_cons in Hg as [Hne Hg]. cbn [fst] in Hne.
    assert (g ≠ f) as Hgf by (by intros ->).
    destruct (Hframe g Hg) as [-> ->]. by apply Hother1.
Qed.

(** The members with a known key are among the members, and their names
    differ when those of the members do. *)
Lemma NoDup_known (ms : list (string * Value)) :
  NoDup ms.*1 → NoDup (filter known ms).*1.
Proof.
  induction ms as [|nv ms IH]; [done|]. rewrite fmap_cons.
  intros [Hn Hnd]%NoDup_cons.
  destruct (known nv) eqn:Hk.
  - rewrite filter_cons_True by (by rewrite Hk). rewrite fmap_cons.
    apply NoDup_cons. split; [|by apply IH].
    intros Hin. apply Hn. apply list_elem_of_fmap in Hin as (x & -> & Hx).
    apply list_elem_of_fmap. exists x. split; [done|].
    by apply list_elem_of_filter in Hx as [_ Hx].
  - rewrite filter_cons_False by (rewrite Hk; by intros []). by apply IH.
Qed.

End StoreFitting.

(** *** The grammar of JSON alone *)

(** The rest of the input after one JSON value, by the grammar of JSON
    alone (RFC 8259): the names of the members of an object need not
    differ, and nothing bounds the nesting.  This is what the claim
    calls a well-formed text; the decoder asks for more. *)
Fixpoint skip_value (fuel : nat) (s : string) : option string :=
  match fuel with
  | O => None
  | S fuel' =>
      match jsontext.skip_ws s with
      | EmptyString => None
      | String c r =>
          if Ascii.eqb c "n" then jsontext.starts "ull" r
          else if Ascii.eqb c "t" then jsontext.starts "rue" r
          else if Ascii.eqb c "f" then jsontext.starts "alse" r
          else if Ascii.eqb c jsontext.dquote then
            snd <$> jsontext.read_string r
          else if Ascii.eqb c "[" then
            match jsontext.expect "]" r with
            | Some r' => Some r'
            | None => skip_elements fuel' r
            end
          else if Ascii.eqb c "{" then
            match jsontext.expect "}" r with
            | Some r' => Some r'
            | None => skip_members fuel' r
            end
          else snd <$> jsontext.read_number (String c r)
      end
  end
with skip_elements (fuel : nat) (s : string) : option string :=
  match fuel with
  | O => None
  | S fuel' =>
      match skip_value fuel' s with
      | Some r =>
          match jsontext.expect "," r with
          | Some r' => skip_elements fuel' r'
          | None => jsontext.expect "]" r
          end
      | None => None
      end
  end
with skip_members (fuel : nat) (s : string) : option string :=
  match fuel with
  | O => None
  | S fuel' =>
      match jsontext.expect jsontext.dquote s with
      | None => None
      | Some r =>
          match jsontext.read_string r with
          | None => None
          | Some (_, r1) =>
              match jsontext.expect ":" r1 with
              | None => None
              | Some r2 =>
                  match skip_value fuel' r2 with
                  | None => None
                  | Some r3 =>
                      match jsontext.expect "," r3 with
                      | Some r4 => skip_members fuel' r4
                      | None => jsontext.expect "}" r3
                      end
                  end
              end
          end
      end
  end.

(** The text is a JSON object by the grammar, white space around it
    allowed. *)
Definition json_object (data : string) : Prop :=
  ∃ r rest,
    jsontext.expect "{" data = Some r
    ∧ skip_value (S (String.length data)) data = Some rest
    ∧ jsontext.skip_ws rest = "".

(** An object that has the same unknown key twice. *)
Definition twice_extra : string := json_text "{'extra':1,'extra':2}".



(** A circle that comes with a width and with a key the record does not
    have: the kind is set, the width is kept, the key is skipped. *)
Definition circle_with_width : string :=
  json_text "{'kind':'circle','width':3,'extra':[1,2]}".


Example circle_with_width_decoded :
  read (sumtype.UnmarshalJSON 1%positive circle_with_width mem_unset).2
    1%positive
  = Some {| cColor := None; cKind := Some CircleShapeKind; cRadius := None;
            cWidth := Some 3%Z; cHeight := None |}.
Proof. vm_compute. reflexivity. Qed.

(** ** C7: malformed text *)

Section Malformed.

Import jsontext json.

Lemma expect_inv (c : ascii) (s r : string) :
  expect c s = Some r → skip_ws s = String c r.
Proof.
  unfold expect. destruct (skip_ws s) as [|x t]; [done|].
  destruct (Ascii.eqb_spec x c) as [->|?]; [|done]. by intros [= ->].
Qed.

Lemma check_eof_None (rest : string) : check_eof rest = None → skip_ws rest = "".
Proof. unfold check_eof. by destruct (skip_ws rest). Qed.

(** Members that are stored without error were all read whole. *)
Lemma unmarshal_members_whole (c : loc) (evs : list (string * item)) :
  ∀ m m', unmarshal_members c evs m = (Returned None, m') → is_Some (whole evs).
Proof.
  induction evs as [|[name [v|b]] evs IH]; intros m m'; [done| |].
  - cbn [unmarshal_members whole]. unfold bind.
    destruct (unmarshal_member c name (Whole v) m) as [[[e|]|p] m1]; try done.
    intros H. apply IH in H as [ms ->]. done.
  - cbn [unmarshal_members]. unfold bind, unmarshal_member.
    destruct (field_of name) as [f|]; [|done].
    destruct b; [done|]. unfold bind, ret.
    by destruct (pointee c f m) as [[l|p] m1].
Qed.

(** What an object text is decoded from: the members read up to its end
    or to the first syntax error. *)
Definition members_read (data : string) : list string :=
  match expect "{" data with
  | Some r => (scan_members (String.length data) r [] true).1.*1
  | None => []
  end.

Variables (c : loc) (m : mem) (s : shape).
Hypothesis Hs : shapes m !! c = Some s.

(** Decoding returns, whatever the text, and leaves every field that no
    member read names, unless the text is not an object. *)
Lemma Unmarshal_returns (data : string) :
  ∃ r m' s',
    Unmarshal data {| vtype := As_shape; vaddr := c |} m = (Returned r, m')
    ∧ shapes m' !! c = Some s'
    ∧ (is_Some (expect "{" data) →
       ∀ f, name_of f ∉ members_read data → slot f s' = slot f s)
    ∧ (expect "{" data = None → expect "n" data = None → m' = m).
Proof.
  unfold Unmarshal, members_read. cbn [vaddr].
  destruct (expect "{" data) as [r|].
  - destruct (scan_members (String.length data) r [] true) as [evs e].
    destruct (unmarshal_members_frame c evs m s Hs)
      as (r1 & m' & s' & Hrun & Hs' & Hslot & _).
    erewrite bind_returned by exact Hrun.
    exists (match r1, e with
            | Some e1, _ => Some e1
            | None, Closed rest => check_eof rest
            | None, Broken => Some SyntacticError
            end), m', s'.
    split.
    { destruct r1 as [e1|], e as [rest|]; reflexivity. }
    split; [done|]. split; [done|]. done.
  - destruct (expect "[" data).
    { exists (Some SemanticError), m, s. split; [done|]. split; [done|].
      split; [by intros [? ?]|done]. }
    destruct (read_value (S (String.length data)) data) as [[v rest]|] eqn:Hv.
    2: { exists (Some SyntacticError), m, s. split; [done|]. split; [done|].
         split; [by intros [? ?]|done]. }
    destruct v.
    2-6: exists (Some SemanticError), m, s; split; [done|]; split; [done|];
         split; [by intros [? ?]|done].
    exists (check_eof rest), (with_shape c zero_shape m), zero_shape.
    split.
    { erewrite bind_returned; [|unfold load_shape; by rewrite Hs].
      erewrite bind_returned; [|reflexivity]. reflexivity. }
    split; [apply lookup_insert_eq|].
    split; [by intros [? ?]|].
    intros _ Hn. exfalso. revert Hv Hn. cbn [read_value]. unfold expect.
    destruct (skip_ws data) as [|x t]; [done|].
    destruct (Ascii.eqb_spec x "n") as [->|?]; [done|].
    intros H _. revert H.
    repeat (case_match; try done); unfold read_number;
      repeat (case_match; try done).
Qed.

(** Decoding returns no error on well-formed text only. *)
Lemma Unmarshal_well_formed (data : string) (p : view) (m' : mem) :
  Unmarshal data p m = (Returned None, m') → well_formed data.
Proof.
  unfold Unmarshal.
  destruct (expect "{" data) as [r|] eqn:Hr.
  - destruct (scan_members (String.length data) r [] true) as [evs e] eqn:Hscan.
    unfold bind.
    destruct (unmarshal_members (vaddr p) evs m) as [[[e1|]|q] m1] eqn:Hrun;
      try done.
    destruct e as [rest|]; [|done]. unfold ret. intros [= Heof <-].
    apply unmarshal_members_whole in Hrun as [ms Hms].
    apply check_eof_None in Heof. apply expect_inv in Hr.
    exists (Object ms), rest. split; [|done].
    cbn [read_value]. rewrite Hr. simpl. by rewrite Hscan, Hms.
  - destruct (expect "[" data); [done|].
    destruct (read_value (S (String.length data)) data) as [[v rest]|] eqn:Hv;
      [|done].
    destruct v; try done.
    unfold bind, load_shape, store_shape, ret.
    destruct (shapes m !! vaddr p); [|done]. intros [= Heof <-].
    exists Null, rest. split; [done|]. by apply check_eof_None.
Qed.

End Malformed.

(** The beginning of an object: one member, a comma, and the end of the
    input. *)
Definition cut_short : string := json_text "{'color':'red',".




(** ** C3: decode a circle, switch to a rectangle, encode *)

(** [ptr(z)] for an [int]. *)
Definition ptr_int (z : Z) : M loc :=
  λ m, let l := fresh (dom (ints m)) in
       (Returned l,
        {| strs := strs m; kinds := kinds m; ints := <[l := z]> (ints m);
           shapes := shapes m |}).

(** [r.Width = p] and the like, through a view [r]. *)
Definition assign_field (r : view) (f : json.field) (p : loc) : M unit :=
  s <- load_shape (vaddr r) ;;
  store_shape (vaddr r) (json.set_slot f (Some p) s).

(** The steps of the scenario, on the record at [c]. *)
Definition circle_text : string :=
  json_text "{'kind':'circle','color':'red','radius':1}".

Definition decode_circle (c : loc) : M (option json.error) :=
  sumtype.UnmarshalJSON c circle_text.

Definition set_size_and_encode (r : view) : M (json.result string) :=
  w <- ptr_int 10 ;;
  assign_field r json.FWidth w ;;;
  h <- ptr_int 20 ;;
  assign_field r json.FHeight h ;;;
  sumtype.MarshalJSON (vaddr r).

Definition rectangle_view (c : loc) : view :=
  {| vtype := As_RectangleShape; vaddr := c |}.

(** C3, as stated, fails in its last step: the text that is encoded
    does not begin with the kind. *)
Lemma scenario_counterexample :
  let m1 := (decode_circle 1%positive mem_unset).2 in
  let m2 := (SetRectangle 1%positive m1).2 in
  (set_size_and_encode (rectangle_view 1%positive) m2).1
  ≠ Returned (json.Ok
      (json_text "{'kind':'rectangle','color':'red','width':10,'height':20}")).
Proof. vm_compute. discriminate. Qed.

Section Scenario.

Variables (m0 : mem) (c : loc).
Hypothesis Hzero : shapes m0 !! c = Some zero_shape.

(** The text is that of a red circle of radius 1. *)
Lemma circle_text_members :
  object_text circle_text
    [("kind", jsontext.Str "circle"); ("color", jsontext.Str "red");
     ("radius", jsontext.Number false (D1 Nil) true)].
Proof. exists "". split; vm_compute; reflexivity. Qed.

Lemma decode_circle_run :
  ∃ m1 s1 lc lk lr,
    decode_circle c m0 = (Returned None, m1)
    ∧ shapes m1 !! c = Some s1
    ∧ s1 = {| Color := Some lc; Kind := Some lk; Radius := Some lr;
              Width := None; Height := None |}
    ∧ strs m1 !! lc = Some "red"
    ∧ kinds m1 !! lk = Some CircleShapeKind
    ∧ ints m1 !! lr = Some 1%Z.
Proof.
  unfold decode_circle.
  rewrite (UnmarshalJSON_object _ _ c m0 circle_text_members).
  change (wrap _)
    with (written mem_circle red_circle [json.FKind; json.FColor; json.FRadius]).
  assert (valid mem_circle red_circle) as Hvalid.
  { intros f Hf. destruct (json.slot f red_circle) as [l|] eqn:E; [|done].
    destruct f; simplify_eq/=; eexists; (split; [reflexivity|]); done. }
  assert (NoDup [json.FKind; json.FColor; json.FRadius]) as Hnd
    by (by apply (bool_decide_unpack _)).
  destruct (unmarshal_written mem_circle red_circle c _ Hvalid Hnd m0 zero_shape
              Hzero)
    as (m1 & s1 & Hrun & Hs1 & Hin & Hout & Ha).
  - intros g Hg. by destruct g.
  - intros g Hg. by destruct g.
  - assert (∀ f, (f = json.FKind ∨ f = json.FColor ∨ f = json.FRadius) →
              f ∈ [json.FKind; json.FColor; json.FRadius]) as Hmem.
    { intros f [-> | [-> | ->]]; by apply (bool_decide_unpack _). }
    assert (∀ f, (f = json.FWidth ∨ f = json.FHeight) →
              f ∉ [json.FKind; json.FColor; json.FRadius]) as Hnot.
    { intros f [-> | ->]; by apply (bool_decide_unpack _). }
    pose proof (Hin json.FKind (Hmem json.FKind ltac:(auto))) as Hk.
    pose proof (Hin json.FColor (Hmem json.FColor ltac:(auto))) as Hc.
    pose proof (Hin json.FRadius (Hmem json.FRadius ltac:(auto))) as Hr.
    change (get mem_circle red_circle json.FKind ≫= kept)
      with (Some (CStr CircleShapeKind)) in Hk.
    change (get mem_circle red_circle json.FColor ≫= kept)
      with (Some (CStr "red")) in Hc.
    change (get mem_circle red_circle json.FRadius ≫= kept)
      with (Some (CInt 1)) in Hr.
    pose proof (Hout json.FWidth (Hnot json.FWidth ltac:(auto))) as Hw.
    pose proof (Hout json.FHeight (Hnot json.FHeight ltac:(auto))) as Hh.
    pose proof (Ha json.FWidth) as Haw. pose proof (Ha json.FHeight) as Hah.
    rewrite Hw in Haw. rewrite Hh in Hah.
    unfold get in Hk, Hc, Hr, Haw, Hah. simpl in Hk, Hc, Hr, Haw, Hah.
    destruct s1 as [[lc|] [lk|] [lr|] w h]; try done.
    simpl in Hk, Hc, Hr, Haw, Hah.
    assert (w = None) as -> by (destruct w; [by destruct Haw|done]).
    assert (h = None) as -> by (destruct h; [by destruct Hah|done]).
    exists m1,
      {| Color := Some lc; Kind := Some lk; Radius := Some lr;
         Width := None; Height := None |}, lc, lk, lr.
    split; [done|]. split; [done|]. split; [done|].
    destruct (strs m1 !! lc), (kinds m1 !! lk), (ints m1 !! lr);
      by simplify_eq/=.
Qed.

End Scenario.

(** C3, amended. A record that was zero decodes the text to a circle
    of colour red and radius 1, without width and height; the switch to
    a rectangle keeps the colour and leaves radius, width and height
    absent; with the width 10 and the height 20 the record encodes to
    the text whose keys come in the order of the fields of [shape]:
    color, kind, width, height. *)
Theorem scenario (m0 : mem) (c : loc) :
  shapes m0 !! c = Some zero_shape →
  ∃ m1 m2 m3,
    decode_circle c m0 = (Returned None, m1)
    ∧ read m1 c
      = Some {| cColor := Some "red"; cKind := Some CircleShapeKind;
                cRadius := Some 1%Z; cWidth := None; cHeight := None |}
    ∧ SetRectangle c m1 = (Returned (rectangle_view c), m2)
    ∧ read m2 c
      = Some {| cColor := Some "red"; cKind := Some RectangleShapeKind;
                cRadius := None; cWidth := None; cHeight := None |}
    ∧ set_size_and_encode (rectangle_view c) m2
      = (Returned (json.Ok
           (json_text "{'color':'red','kind':'rectangle','width':10,'height':20}")),
         m3).
Proof.
  intros Hzero.
  destruct (decode_circle_run m0 c Hzero)
    as (m1 & s1 & lc & lk & lr & Hrun & Hs1 & Heq & Hc & Hk & Hr).
  assert (Kind s1 = Some lk) as Hkind by (by subst s1).
  exists m1, (switched c m1 s1 lk RectangleShapeKind). eexists.
  split; [done|].
  split.
  { unfold read, contents_of. rewrite Hs1. subst s1. simpl.
    by rewrite Hc, Hk, Hr. }
  split; [by apply (SetRectangle_run c m1 s1 Hs1)|].
  split.
  { unfold read, contents_of, switched. simpl.
    rewrite !lookup_insert_eq. subst s1. simpl.
    by rewrite Hc, lookup_insert_eq. }
  unfold set_size_and_encode, ptr_int, assign_field, sumtype.MarshalJSON,
    json.Marshal, switched, rectangle_view.
  subst s1. unfold_monad. simpl.
  repeat (rewrite lookup_insert_eq; simpl).
  unfold json.marshal_field. simpl.
  set (w := fresh (dom (ints m1))).
  set (h := fresh (dom (<[w := 10%Z]> (ints m1)))).
  assert (h ≠ w) as Hwh.
  { intros Heq. pose proof (is_fresh (dom (<[w := 10%Z]> (ints m1)))) as Hf.
    fold h in Hf. rewrite Heq in Hf. apply Hf. set_solver. }
  repeat (first [ rewrite lookup_insert_eq | rewrite Hc
                | rewrite (lookup_insert_ne _ h w) by done ]; simpl).
  reflexivity.
Qed.

Lemma scenario_witness :
  shapes mem_unset !! 1%positive = Some zero_shape
  ∧ ∃ m1 m2 m3,
      decode_circle 1%positive mem_unset = (Returned None, m1)
      ∧ read m1 1%positive
        = Some {| cColor := Some "red"; cKind := Some CircleShapeKind;
                  cRadius := Some 1%Z; cWidth := None; cHeight := None |}
      ∧ SetRectangle 1%positive m1 = (Returned (rectangle_view 1%positive), m2)
      ∧ read m2 1%positive
        = Some {| cColor := Some "red"; cKind := Some RectangleShapeKind;
                  cRadius := None; cWidth := None; cHeight := None |}
      ∧ set_size_and_encode (rectangle_view 1%positive) m2
        = (Returned (json.Ok
             (json_text "{'color':'red','kind':'rectangle','width':10,'height':20}")),
           m3).
Proof.
  split; [reflexivity|]. apply (scenario mem_unset 1%positive). reflexivity.
Defined.

(** ** The model against the output the repository records *)

(** [ptr(v)] for a [string]. *)
Definition ptr_string (v : string) : M loc :=
  λ m, let l := fresh (dom (strs m)) in
       (Returned l,
        {| strs := <[l := v]> (strs m); kinds := kinds m; ints := ints m;
           shapes := shapes m |}).

(** The first shape of [Example] is printed, indentation apart, as its
    [Output] comment has it. *)
Example Example_first_shape :
  (sumtype.MarshalJSON 1%positive mem_circle).1
  = Returned (json.Ok (json_text "{'color':'red','kind':'circle','radius':1}")).
Proof. vm_compute. reflexivity. Qed.

(** The third shape, a blue rectangle 5 by 5, is turned into a circle:
    [c := s.SetCircle(); c.Color, c.Radius = ptr("blue"), ptr(5)], and is
    then printed as the [Output] comment has it. *)
Example Example_third_shape :
  let blue := mem_of [(1%positive, "blue")] [(1%positive, RectangleShapeKind)]
                [(1%positive, 5%Z); (2%positive, 5%Z)] red_rectangle in
  ((c <- SetCircle 1%positive ;;
    color <- ptr_string "blue" ;;
    radius <- ptr_int 5 ;;
    assign_field c json.FColor color ;;;
    assign_field c json.FRadius radius ;;;
    sumtype.MarshalJSON (vaddr c)) blue).1
  = Returned (json.Ok (json_text "{'color':'blue','kind':'circle','radius':5}")).
Proof. vm_compute. reflexivity. Qed.

(** The reader on strings outside ASCII: UTF-8 is passed through, an
    escaped surrogate pair is decoded, a lone surrogate is an error. *)
Example read_euro :
  jsontext.read_value 1 (json_text "'€'") = Some (jsontext.Str "€", "").
Proof. reflexivity. Qed.

Example read_surrogate_pair :
  jsontext.read_value 1 (json_text "'😀'")
  = Some (jsontext.Str "😀", "").
Proof. reflexivity. Qed.

Example read_lone_surrogate :
  jsontext.read_value 1 (json_text "'\ud83d'") = None.
Proof. reflexivity. Qed.

(** * Further properties of the code *)

(** ** [ZeroNonKindFields] given any kind struct *)

(** The position of a field in the struct [shape]; position 0 is the
    caster. *)
Definition position (f : json.field) : nat :=
  match f with
  | json.FColor => 1
  | json.FKind => 2
  | json.FRadius => 3
  | json.FWidth => 4
  | json.FHeight => 5
  end.

(** The kind struct hides position [i]: it has a field there, and the
    field is not exported. *)
Definition hides (fs : list reflect.StructField) (i : nat) : bool :=
  match fs !! i with
  | Some kindField => negb (reflect.IsExported kindField)
  | None => false
  end.

(** The body of the loop of [ZeroNonKindFields]. *)
Definition scrub_body (c : loc) (kindFields : reflect.RType) (f : nat) : M unit :=
  kindField <- lift (reflect.Field kindFields f) ;;
  if negb (reflect.IsExported kindField) then
    CanSet <- sumtype.Value_Field (sumtype.Json c) f ;;
    if CanSet then sumtype.Value_SetZero (sumtype.Json c) f else ret tt
  else ret tt.

Section ScrubAny.

Variables (c : loc) (id : reflect.GoType) (fs : list reflect.StructField).

Lemma ZeroNonKindFields_loop (m : mem) :
  sumtype.ZeroNonKindFields c (reflect.PtrT (reflect.StructT id fs)) m
  = for_range_from 0 (length fs) (scrub_body c (reflect.StructT id fs)) m.
Proof. reflexivity. Qed.

Lemma with_shape_same (m : mem) (s : shape) :
  shapes m !! c = Some s → with_shape c s m = m.
Proof.
  intros Hs. destruct m as [a b d e]. unfold with_shape. simpl in *.
  f_equal. by apply insert_id.
Qed.

Lemma with_shape_twice (m : mem) (s s' : shape) :
  with_shape c s' (with_shape c s m) = with_shape c s' m.
Proof. unfold with_shape. simpl. f_equal. apply insert_insert_eq. Qed.

Lemma slot_set_zero (f : json.field) (i : nat) (s : shape) :
  json.slot f (sumtype.set_zero i s)
  = if decide (position f = i) then None else json.slot f s.
Proof. destruct f; do 6 (destruct i as [|i]; try done). Qed.

Lemma shape_slots (a b : shape) : (∀ f, json.slot f a = json.slot f b) → a = b.
Proof.
  intros H. destruct a, b.
  pose proof (H json.FColor). pose proof (H json.FKind).
  pose proof (H json.FRadius). pose proof (H json.FWidth).
  pose proof (H json.FHeight). simpl in *. by subst.
Qed.

(** One round of the loop, on a position of the struct [shape]. *)
Lemma scrub_body_run (m : mem) (s : shape) (i : nat) :
  shapes m !! c = Some s → (i < length fs)%nat → (i < 6)%nat →
  ∃ s',
    scrub_body c (reflect.StructT id fs) i m = (Returned tt, with_shape c s' m)
    ∧ ∀ f, json.slot f s'
           = if bool_decide (position f = i) && hides fs i then None
             else json.slot f s.
Proof.
  intros Hs Hlen Hi. unfold scrub_body, hides.
  apply lookup_lt_is_Some in Hlen as [kindField Hk].
  erewrite bind_returned; [|unfold lift; simpl; by rewrite Hk].
  rewrite Hk. destruct (reflect.IsExported kindField); simpl.
  { exists s. rewrite with_shape_same by done. split; [done|].
    intros f. by rewrite andb_false_r. }
  unfold sumtype.Value_Field, sumtype.Value_SetZero.
  destruct i as [|[|[|[|[|[|i]]]]]]; [| | | | | |lia]; run_with Hs.
  - exists s. rewrite with_shape_same by done. split; [done|].
    intros f. by destruct f.
  - exists (sumtype.set_zero 1 s). split; [done|]. intros f. by destruct f.
  - exists (sumtype.set_zero 2 s). split; [done|]. intros f. by destruct f.
  - exists (sumtype.set_zero 3 s). split; [done|]. intros f. by destruct f.
  - exists (sumtype.set_zero 4 s). split; [done|]. intros f. by destruct f.
  - exists (sumtype.set_zero 5 s). split; [done|]. intros f. by destruct f.
Qed.

(** The rounds from position [start] on. *)
Lemma scrub_rounds (n : nat) :
  ∀ start m s,
    shapes m !! c = Some s → (start + n ≤ length fs)%nat → (start + n ≤ 6)%nat →
    ∃ s',
      for_range_from start n (scrub_body c (reflect.StructT id fs)) m
      = (Returned tt, with_shape c s' m)
      ∧ ∀ f, json.slot f s'
             = if bool_decide (start ≤ position f < start + n)%nat
                  && hides fs (position f)
               then None else json.slot f s.
Proof.
  induction n as [|n IH]; intros start m s Hs Hlen Hsix.
  - exists s. rewrite with_shape_same by done. split; [done|].
    intros f. by rewrite bool_decide_false by lia.
  - destruct (scrub_body_run m s start Hs) as (s1 & Hrun1 & Hslot1); [lia|lia|].
    cbn [for_range_from]. erewrite bind_returned by exact Hrun1.
    destruct (IH (S start) (with_shape c s1 m) s1) as (s' & Hrun & Hslot);
      [apply lookup_insert_eq|lia|lia|].
    exists s'. rewrite Hrun, with_shape_twice. split; [done|].
    intros f. rewrite Hslot, Hslot1.
    destruct (decide (position f = start)) as [->|Hne].
    + rewrite (bool_decide_false (S _ ≤ _ < _)%nat) by lia.
      rewrite !bool_decide_true by lia. done.
    + rewrite (bool_decide_false (position f = start)) by done.
      destruct (decide (start ≤ position f < start + S n)%nat).
      * rewrite !bool_decide_true by lia. done.
      * rewrite !bool_decide_false by lia. done.
Qed.

Lemma ZeroNonKindFields_run (m : mem) (s : shape) :
  shapes m !! c = Some s → (length fs ≤ 6)%nat →
  ∃ s',
    sumtype.ZeroNonKindFields c (reflect.PtrT (reflect.StructT id fs)) m
    = (Returned tt, with_shape c s' m)
    ∧ ∀ f, json.slot f s'
           = if hides fs (position f) then None else json.slot f s.
Proof.
  intros Hs Hlen. rewrite ZeroNonKindFields_loop.
  destruct (scrub_rounds (length fs) 0 m s Hs) as (s' & Hrun & Hslot);
    [lia|lia|].
  exists s'. split; [done|]. intros f. rewrite Hslot.
  destruct (decide (position f < length fs)%nat).
  - by rewrite bool_decide_true by lia.
  - rewrite bool_decide_false by lia. unfold hides.
    by rewrite lookup_ge_None_2 by lia.
Qed.

(** A round panics when the kind struct hides a position that [shape]
    does not have. *)
Lemma scrub_body_beyond (m : mem) (i : nat) :
  (6 ≤ i)%nat → hides fs i = true →
  ∃ p m', scrub_body c (reflect.StructT id fs) i m = (Panicked p, m').
Proof.
  intros Hi. unfold hides, scrub_body.
  destruct (fs !! i) as [kindField|] eqn:Hk; [|done]. intros Hhid.
  erewrite bind_returned; [|unfold lift; simpl; by rewrite Hk].
  rewrite Hhid. unfold sumtype.Value_Field, bind.
  destruct (shapes m !! vaddr (sumtype.Json c)); [|by eauto].
  do 6 (destruct i as [|i]; [lia|]). simpl. by eauto.
Qed.

Lemma scrub_rounds_beyond (i : nat) (n : nat) :
  (6 ≤ i)%nat → hides fs i = true →
  ∀ start m,
    (start ≤ i)%nat → (i < start + n)%nat →
    ∃ p m',
      for_range_from start n (scrub_body c (reflect.StructT id fs)) m
      = (Panicked p, m').
Proof.
  intros Hi Hhid. induction n as [|n IH]; intros start m Hle Hlt; [lia|].
  cbn [for_range_from]. unfold bind at 1.
  destruct (scrub_body c (reflect.StructT id fs) start m) as [[[]|p] m1] eqn:E;
    [|by eauto].
  destruct (decide (start = i)) as [->|Hne].
  - destruct (scrub_body_beyond m i Hi Hhid) as (p & m' & Hp). congruence.
  - apply IH; lia.
Qed.

End ScrubAny.

(** [ZeroNonKindFields] given a pointer to any struct of at most the six
    fields of [shape]: it returns; in the record, every field at a
    position where the kind struct has an unexported field is nil and
    every other field is as it was; the strings, kinds and integers that
    the pointers pointed to stay in memory as they were, and so does
    every other record. *)
Theorem ZeroNonKindFields_by_position (c : loc) (m : mem) (s : shape)
    (id : reflect.GoType) (fs : list reflect.StructField) :
  shapes m !! c = Some s → (length fs ≤ 6)%nat →
  ∃ m' s',
    sumtype.ZeroNonKindFields c (reflect.PtrT (reflect.StructT id fs)) m
    = (Returned tt, m')
    ∧ shapes m' !! c = Some s'
    ∧ (∀ f, json.slot f s'
            = if hides fs (position f) then None else json.slot f s)
    ∧ strs m' = strs m ∧ kinds m' = kinds m ∧ ints m' = ints m
    ∧ ∀ c', c' ≠ c → shapes m' !! c' = shapes m !! c'.
Proof.
  intros Hs Hlen.
  destruct (ZeroNonKindFields_run c id fs m s Hs Hlen) as (s' & Hrun & Hslot).
  exists (with_shape c s' m), s'. split; [done|].
  split; [apply lookup_insert_eq|]. split; [done|].
  repeat split. intros c' Hne. simpl. by rewrite lookup_insert_ne.
Qed.

Lemma ZeroNonKindFields_by_position_witness :
  shapes mem_rectangle !! 1%positive = Some red_rectangle
  ∧ ∃ m' s',
      sumtype.ZeroNonKindFields 1%positive (reflect.PtrT Types.T_CircleShape)
        mem_rectangle = (Returned tt, m')
      ∧ shapes m' !! 1%positive = Some s'
      ∧ Width s' = None ∧ Color s' = Color red_rectangle.
Proof.
  split; [reflexivity|].
  destruct (ZeroNonKindFields_by_position 1%positive mem_rectangle red_rectangle
              (reflect.Defined Types.pkg "CircleShape")
              [ Types.unexported "shapeCaster" Types.t_shapeCaster;
                Types.exported "Color" (reflect.PointerTo Types.t_string);
                Types.exported "Kind" (reflect.PointerTo Types.t_ShapeKind);
                Types.exported "Radius" (reflect.PointerTo Types.t_int);
                Types.unexported "_" (reflect.PointerTo Types.t_int);
                Types.unexported "_" (reflect.PointerTo Types.t_int) ]
              eq_refl)
    as (m' & s' & Hrun & Hs' & Hslot & _).
  { simpl. lia. }
  exists m', s'. split; [exact Hrun|]. split; [exact Hs'|].
  split; [exact (Hslot json.FWidth) | exact (Hslot json.FColor)].
Defined.

(** The rounds on a record that is not there (a nil receiver): the first
    position that the kind struct hides panics, and nothing was written
    before. *)
Lemma scrub_rounds_absent (c : loc) (id : reflect.GoType)
    (fs : list reflect.StructField) (m : mem) (i n : nat) :
  shapes m !! c = None → hides fs i = true →
  ∀ start,
    (start ≤ i)%nat → (i < start + n)%nat →
    ∃ p, for_range_from start n (scrub_body c (reflect.StructT id fs)) m
         = (Panicked p, m).
Proof.
  intros Hs Hhid. induction n as [|n IH]; intros start Hle Hlt; [lia|].
  cbn [for_range_from]. unfold bind at 1, scrub_body at 1.
  unfold bind, lift, sumtype.Value_Field. simpl.
  destruct (fs !! start) as [kindField|] eqn:Hk; [|by eauto].
  destruct (reflect.IsExported kindField) eqn:He; simpl.
  - destruct (decide (start = i)) as [->|Hne].
    + unfold hides in Hhid. rewrite Hk, He in Hhid. done.
    + apply IH; lia.
  - rewrite Hs. by eauto.
Qed.

(** When [ZeroNonKindFields] panics inside package reflect: when the
    type of its argument has no element type (a struct passed by value,
    for one) or has one that is no struct (a pointer to a pointer), and
    then memory is as it was; when the kind struct has an unexported
    field at a position that [shape] does not have; and when the
    receiver is nil and the kind struct has an unexported field, and
    then too memory is as it was. *)
Theorem ZeroNonKindFields_panics (c : loc) (m : mem) :
  (∀ t, (∀ e, reflect.Elem t = Returned e →
              ∀ id fs, e ≠ reflect.StructT id fs) →
        ∃ msg, sumtype.ZeroNonKindFields c t m = (Panicked (ReflectPanic msg), m))
  ∧ (∀ id fs i, (6 ≤ i)%nat → hides fs i = true →
        is_panic (sumtype.ZeroNonKindFields c
                    (reflect.PtrT (reflect.StructT id fs)) m).1 = true)
  ∧ (∀ id fs i, shapes m !! c = None → hides fs i = true →
        ∃ p, sumtype.ZeroNonKindFields c
               (reflect.PtrT (reflect.StructT id fs)) m = (Panicked p, m)).
Proof.
  split; [|split].
  - intros t Ht.
    destruct t as [id fs|e|id e|id]; try (eexists; reflexivity);
      (destruct e as [id' fs|e'|id' e'|id'];
       [by destruct (Ht _ eq_refl id' fs)|..]; eexists; reflexivity).
  - intros id fs i Hi Hhid. rewrite ZeroNonKindFields_loop.
    destruct (scrub_rounds_beyond c id fs i (length fs) Hi Hhid 0 m)
      as (p & m' & ->); [lia| |done].
    unfold hides in Hhid. destruct (fs !! i) eqn:E; [|done].
    by eapply lookup_lt_Some.
  - intros id fs i Hs Hhid. rewrite ZeroNonKindFields_loop.
    apply (scrub_rounds_absent c id fs m i (length fs) Hs Hhid 0); [lia|].
    unfold hides in Hhid. destruct (fs !! i) eqn:E; [|done].
    by eapply lookup_lt_Some.
Qed.

Lemma ZeroNonKindFields_panics_witness :
  ∃ msg, sumtype.ZeroNonKindFields 1%positive Types.T_CircleShape mem_circle
         = (Panicked (ReflectPanic msg), mem_circle).
Proof.
  destruct (ZeroNonKindFields_panics 1%positive mem_circle) as (H & _).
  apply H. discriminate.
Defined.

(** [ZeroNonKindFields] twice, with the same kind struct, is
    [ZeroNonKindFields] once. *)
Theorem ZeroNonKindFields_idempotent (c : loc) (m : mem) (s : shape)
    (id : reflect.GoType) (fs : list reflect.StructField) :
  shapes m !! c = Some s → (length fs ≤ 6)%nat →
  let t := reflect.PtrT (reflect.StructT id fs) in
  (sumtype.ZeroNonKindFields c t ;;; sumtype.ZeroNonKindFields c t) m
  = sumtype.ZeroNonKindFields c t m.
Proof.
  intros Hs Hlen t. subst t.
  destruct (ZeroNonKindFields_run c id fs m s Hs Hlen) as (s1 & Hrun1 & Hslot1).
  destruct (ZeroNonKindFields_run c id fs (with_shape c s1 m) s1)
    as (s2 & Hrun2 & Hslot2); [apply lookup_insert_eq|done|].
  erewrite bind_returned by exact Hrun1. rewrite Hrun1, Hrun2.
  rewrite with_shape_twice. do 2 f_equal. apply shape_slots.
  intros f. rewrite Hslot2, Hslot1. by destruct (hides fs (position f)).
Qed.

Lemma ZeroNonKindFields_idempotent_witness :
  shapes mem_rectangle !! 1%positive = Some red_rectangle
  ∧ (sumtype.ZeroNonKindFields 1%positive (reflect.PtrT Types.T_Shape) ;;;
     sumtype.ZeroNonKindFields 1%positive (reflect.PtrT Types.T_Shape))
      mem_rectangle
    = sumtype.ZeroNonKindFields 1%positive (reflect.PtrT Types.T_Shape)
        mem_rectangle.
Proof.
  split; [reflexivity|].
  apply (ZeroNonKindFields_idempotent 1%positive mem_rectangle red_rectangle
           (reflect.Defined Types.pkg "Shape")
           [ Types.unexported "shapeCaster" Types.t_shapeCaster;
             Types.exported "Color" (reflect.PointerTo Types.t_string);
             Types.exported "Kind" (reflect.PointerTo Types.t_ShapeKind);
             Types.unexported "_" (reflect.PointerTo Types.t_int);
             Types.unexported "_" (reflect.PointerTo Types.t_int);
             Types.unexported "_" (reflect.PointerTo Types.t_int) ]
           eq_refl).
  simpl. lia.
Defined.

(** ** More on the variant switch *)

Section SwitchMore.

Variables (c : loc) (m : mem) (s : shape) (l : loc).
Hypothesis Hs : shapes m !! c = Some s.
Hypothesis Hk : Kind s = Some l.

(** The record after a switch. *)
Definition reset : shape :=
  {| Color := Color s; Kind := Some l; Radius := None; Width := None;
     Height := None |}.

Lemma shapes_switched (kind : ShapeKind) :
  shapes (switched c m s l kind) !! c = Some reset.
Proof. apply lookup_insert_eq. Qed.

Lemma switched_twice (k1 k2 : ShapeKind) :
  switched c (switched c m s l k1) reset l k2 = switched c m s l k2.
Proof. unfold switched. simpl. f_equal; apply insert_insert_eq. Qed.

Lemma read_switched (kind : ShapeKind) :
  read (switched c m s l kind) c
  = Some {| cColor := deref (strs m) (Color s); cKind := Some kind;
            cRadius := None; cWidth := None; cHeight := None |}.
Proof.
  unfold read. rewrite shapes_switched. simpl. unfold contents_of. simpl.
  by rewrite lookup_insert_eq.
Qed.

(** Another record after the switch: its pointers are as they were, and
    so is what they point to, but for the kind if it shares the pointer. *)
Lemma read_switched_other (kind : ShapeKind) (c' : loc) (s' : shape) :
  c' ≠ c → shapes m !! c' = Some s' →
  read (switched c m s l kind) c'
  = Some {| cColor := deref (strs m) (Color s');
            cKind := if decide (Kind s' = Some l) then Some kind
                     else deref (kinds m) (Kind s');
            cRadius := deref (ints m) (Radius s');
            cWidth := deref (ints m) (Width s');
            cHeight := deref (ints m) (Height s') |}.
Proof.
  clear Hs Hk. intros Hne Hs'. unfold read, switched. simpl.
  rewrite lookup_insert_ne by done. rewrite Hs'. simpl.
  unfold contents_of. simpl. f_equal. f_equal.
  destruct (decide (Kind s' = Some l)) as [->|Hl]; simpl.
  - apply lookup_insert_eq.
  - destruct (Kind s') as [l'|]; [|done]. simpl.
    apply lookup_insert_ne. by intros ->.
Qed.

End SwitchMore.

(** [SetCircle] and [SetRectangle] on a record whose discriminator
    pointer is not nil leave a record that holds the colour it held, the
    tag of the target, and neither radius nor width nor height: the
    fields the target owns are reset like the others. *)
Theorem switch_resets_variant_fields (c : loc) (m : mem) (s : shape) (l : loc) :
  shapes m !! c = Some s → Kind s = Some l →
  read (SetCircle c m).2 c
  = Some {| cColor := deref (strs m) (Color s); cKind := Some CircleShapeKind;
            cRadius := None; cWidth := None; cHeight := None |}
  ∧ read (SetRectangle c m).2 c
    = Some {| cColor := deref (strs m) (Color s);
              cKind := Some RectangleShapeKind;
              cRadius := None; cWidth := None; cHeight := None |}.
Proof.
  intros Hs Hk.
  rewrite (SetCircle_run c m s Hs l Hk), (SetRectangle_run c m s Hs l Hk).
  split; apply read_switched.
Qed.

Lemma switch_resets_variant_fields_witness :
  shapes mem_circle !! 1%positive = Some red_circle
  ∧ Kind red_circle = Some 1%positive
  ∧ read (SetCircle 1%positive mem_circle).2 1%positive
    = Some {| cColor := Some "red"; cKind := Some CircleShapeKind;
              cRadius := None; cWidth := None; cHeight := None |}.
Proof.
  split; [reflexivity|]. split; [reflexivity|].
  destruct (switch_resets_variant_fields 1%positive mem_circle red_circle
              1%positive eq_refl eq_refl) as [H _].
  exact H.
Defined.

(** Of two switches in a row the second alone counts: whatever the
    first, the result and the memory are those of the second. *)
Theorem switch_twice (c : loc) (m : mem) (s : shape) (l : loc) :
  shapes m !! c = Some s → Kind s = Some l →
  (SetCircle c ;;; SetCircle c) m = SetCircle c m
  ∧ (SetRectangle c ;;; SetCircle c) m = SetCircle c m
  ∧ (SetCircle c ;;; SetRectangle c) m = SetRectangle c m
  ∧ (SetRectangle c ;;; SetRectangle c) m = SetRectangle c m.
Proof.
  intros Hs Hk.
  pose proof (SetCircle_run c m s Hs l Hk) as HC.
  pose proof (SetRectangle_run c m s Hs l Hk) as HR.
  assert (∀ k1, SetCircle c (switched c m s l k1)
                = (Returned {| vtype := As_CircleShape; vaddr := c |},
                   switched c m s l CircleShapeKind)) as HC2.
  { intros k1.
    rewrite (SetCircle_run c _ (reset s l) (shapes_switched c m s l k1) l eq_refl).
    by rewrite switched_twice. }
  assert (∀ k1, SetRectangle c (switched c m s l k1)
                = (Returned {| vtype := As_RectangleShape; vaddr := c |},
                   switched c m s l RectangleShapeKind)) as HR2.
  { intros k1.
    rewrite (SetRectangle_run c _ (reset s l) (shapes_switched c m s l k1) l
               eq_refl).
    by rewrite switched_twice. }
  repeat split.
  - erewrite bind_returned by exact HC. by rewrite HC, HC2.
  - erewrite bind_returned by exact HR. by rewrite HC, HC2.
  - erewrite bind_returned by exact HC. by rewrite HR, HR2.
  - erewrite bind_returned by exact HR. by rewrite HR, HR2.
Qed.

Lemma switch_twice_witness :
  shapes mem_rectangle !! 1%positive = Some red_rectangle
  ∧ Kind red_rectangle = Some 1%positive
  ∧ (SetCircle 1%positive ;;; SetRectangle 1%positive) mem_rectangle
    = SetRectangle 1%positive mem_rectangle.
Proof.
  split; [reflexivity|]. split; [reflexivity|].
  destruct (switch_twice 1%positive mem_rectangle red_rectangle 1%positive
              eq_refl eq_refl) as (_ & _ & H & _).
  exact H.
Defined.

(** After a switch the guarded read of the target returns the record,
    and the guarded read of the other variant panics with the message
    that names both tags. *)
Theorem switch_then_read (c : loc) (m : mem) (s : shape) (l : loc) :
  shapes m !! c = Some s → Kind s = Some l →
  (let m' := (SetCircle c m).2 in
   Circle c m' = (Returned {| vtype := As_CircleShape; vaddr := c |}, m')
   ∧ Rectangle c m'
     = (Panicked (PanicString
          "can't cast shape from Kind=circle to Kind=rectangle"), m'))
  ∧ (let m' := (SetRectangle c m).2 in
     Rectangle c m' = (Returned {| vtype := As_RectangleShape; vaddr := c |}, m')
     ∧ Circle c m'
       = (Panicked (PanicString
            "can't cast shape from Kind=rectangle to Kind=circle"), m')).
Proof.
  intros Hs Hk.
  rewrite (SetCircle_run c m s Hs l Hk), (SetRectangle_run c m s Hs l Hk).
  cbn [snd]. split; split.
  - unfold Circle. erewrite bind_returned; [reflexivity|].
    eapply ensureKind_match; [apply shapes_switched|reflexivity|].
    apply lookup_insert_eq.
  - unfold Rectangle. erewrite bind_panicked; [reflexivity|].
    eapply (ensureKind_mismatch _ _ _ (shapes_switched c m s l _) _ l
              CircleShapeKind); [reflexivity|apply lookup_insert_eq|done].
  - unfold Rectangle. erewrite bind_returned; [reflexivity|].
    eapply ensureKind_match; [apply shapes_switched|reflexivity|].
    apply lookup_insert_eq.
  - unfold Circle. erewrite bind_panicked; [reflexivity|].
    eapply (ensureKind_mismatch _ _ _ (shapes_switched c m s l _) _ l
              RectangleShapeKind); [reflexivity|apply lookup_insert_eq|done].
Qed.

Lemma switch_then_read_witness :
  shapes mem_rectangle !! 1%positive = Some red_rectangle
  ∧ Kind red_rectangle = Some 1%positive
  ∧ Rectangle 1%positive (SetCircle 1%positive mem_rectangle).2
    = (Panicked (PanicString
         "can't cast shape from Kind=circle to Kind=rectangle"),
       (SetCircle 1%positive mem_rectangle).2).
Proof.
  split; [reflexivity|]. split; [reflexivity|].
  destruct (switch_then_read 1%positive mem_rectangle red_rectangle 1%positive
              eq_refl eq_refl) as [[_ H] _].
  exact H.
Defined.

(** The switch writes through the discriminator pointer.  A second
    record that shares the pointer therefore changes its kind with the
    first, and keeps all its fields: it is not scrubbed.  A record that
    does not share it reads as before.  The strings and the integers in
    memory are as before. *)
Theorem switch_and_other_records (c c' : loc) (m : mem) (s s' : shape) (l : loc) :
  shapes m !! c = Some s → Kind s = Some l →
  c' ≠ c → shapes m !! c' = Some s' →
  let m' := (SetCircle c m).2 in
  shapes m' !! c' = Some s'
  ∧ strs m' = strs m ∧ ints m' = ints m
  ∧ (Kind s' = Some l →
     read m' c'
     = Some {| cColor := deref (strs m) (Color s');
               cKind := Some CircleShapeKind;
               cRadius := deref (ints m) (Radius s');
               cWidth := deref (ints m) (Width s');
               cHeight := deref (ints m) (Height s') |})
  ∧ (Kind s' ≠ Some l → read m' c' = read m c').
Proof.
  intros Hs Hk Hne Hs' m'. subst m'.
  rewrite (SetCircle_run c m s Hs l Hk). cbn [snd].
  split; [simpl; by rewrite lookup_insert_ne|].
  split; [done|]. split; [done|].
  rewrite (read_switched_other c m s l _ c' s' Hne Hs').
  split; intros Hl.
  - by rewrite decide_True.
  - rewrite decide_False by done. unfold read. by rewrite Hs'.
Qed.

(** Two rectangles at 1 and 2 that share one discriminator. *)
Definition mem_shared : mem :=
  {| strs := {[ 1%positive := "red" ]};
     kinds := {[ 1%positive := RectangleShapeKind ]};
     ints := {[ 1%positive := 100%Z; 2%positive := 50%Z ]};
     shapes := {[ 1%positive := red_rectangle; 2%positive := red_rectangle ]} |}.

Lemma switch_and_other_records_witness :
  shapes mem_shared !! 1%positive = Some red_rectangle
  ∧ Kind red_rectangle = Some 1%positive
  ∧ 2%positive ≠ 1%positive
  ∧ shapes mem_shared !! 2%positive = Some red_rectangle
  ∧ read (SetCircle 1%positive mem_shared).2 2%positive
    = Some {| cColor := Some "red"; cKind := Some CircleShapeKind;
              cRadius := None; cWidth := Some 100%Z; cHeight := Some 50%Z |}.
Proof.
  split; [reflexivity|]. split; [reflexivity|]. split; [discriminate|].
  split; [reflexivity|].
  destruct (switch_and_other_records 1%positive 2%positive mem_shared
              red_rectangle red_rectangle 1%positive eq_refl eq_refl)
    as (_ & _ & _ & H & _); [discriminate|reflexivity|].
  exact (H eq_refl).
Defined.

(** ** More on the layout validator *)

Section LayoutMore.

Variable ConvertibleTo : reflect.GoType → reflect.GoType → bool.
Variable mainStruct : reflect.RType.
Variable underlyingType : reflect.GoType.

(** The loop over the fields returns without an error only for a type
    of the same layout. *)
Lemma check_fields_None (other : reflect.RType) (k : nat) :
  reflect.NumField mainStruct = Returned k →
  reflect.NumField other = Returned k →
  sumtype.check_fields mainStruct 0 k other = Returned None
  ↔ same_layout mainStruct other.
Proof.
  intros Hm Ho.
  destruct (check_fields_spec mainStruct other k 0 k Hm Ho eq_refl)
    as [[Hr Hsame] | (i & mf & of_ & _ & Hmf & Hof & Hne & Hr)].
  - split; [|done]. intros _. exists k. repeat split; try done.
    intros i Hi. apply Hsame; lia.
  - split; [by rewrite Hr|].
    intros (n & Hn & _ & Hsame). rewrite Hm in Hn. injection Hn as <-.
    destruct (NumField_of_Field _ _ _ Hof) as (n' & Hn' & Hlt).
    rewrite Ho in Hn'. injection Hn' as <-.
    destruct (Hsame i Hlt) as (mf' & of' & Hmf' & Hof' & Heq). congruence.
Qed.

(** A type of the same layout is passed over. *)
Lemma check_structs_pass (other : reflect.RType) (rest : list reflect.RType) :
  same_layout mainStruct other →
  sumtype.check_structs mainStruct (other :: rest)
  = sumtype.check_structs mainStruct rest.
Proof.
  intros Hsame. pose proof Hsame as (k & Hm & Ho & _).
  cbn [sumtype.check_structs]. rewrite Hm, Ho. simpl.
  rewrite Nat.eqb_refl. simpl.
  apply (check_fields_None other k Hm Ho) in Hsame. by rewrite Hsame.
Qed.

(** At a type that does not fit, the loop ends. *)
Lemma check_structs_stop (other : reflect.RType) (rest : list reflect.RType) :
  ¬ same_layout mainStruct other →
  sumtype.check_structs mainStruct (other :: rest)
  = sumtype.check_structs mainStruct [other].
Proof.
  intros Hnot. cbn [sumtype.check_structs].
  destruct (reflect.NumField mainStruct) as [k|] eqn:Hm; [|done].
  destruct (reflect.NumField other) as [j|] eqn:Ho; [|done]. simpl.
  destruct (Nat.eqb_spec k j) as [<-|Hne]; [|done]. simpl.
  destruct (sumtype.check_fields mainStruct 0 k other) as [[e|]|p] eqn:E;
    try done.
  exfalso. apply Hnot. by apply (check_fields_None other k Hm Ho).
Qed.

(** The position the loop over the fields reports is the first at which
    the types differ. *)
Lemma check_fields_first (other : reflect.RType) (n : nat) :
  ∀ f i mainName mfName mfType otherName ofName ofType,
    sumtype.check_fields mainStruct f n other
    = Returned (Some (sumtype.ErrIncompatible i mainName mfName mfType
                        otherName ofName ofType)) →
    (f ≤ i)%nat
    ∧ (∀ j, (f ≤ j)%nat → (j < i)%nat →
         ∃ mf of_, reflect.Field mainStruct j = Returned mf
                   ∧ reflect.Field other j = Returned of_
                   ∧ reflect.Type_ mf = reflect.Type_ of_)
    ∧ ∃ mf of_, reflect.Field mainStruct i = Returned mf
                ∧ reflect.Field other i = Returned of_
                ∧ reflect.Type_ mf ≠ reflect.Type_ of_.
Proof.
  induction n as [|n IH]; intros f i a1 a2 a3 a4 a5 a6; [done|].
  cbn [sumtype.check_fields].
  destruct (reflect.Field mainStruct f) as [mf|] eqn:Hmf; [|done].
  destruct (reflect.Field other f) as [of_|] eqn:Hof; [|done]. simpl.
  destruct (decide (reflect.Type_ mf ≠ reflect.Type_ of_)) as [Hne|Heq].
  - intros [= <- _ _ _ _ _ _]. split; [done|]. split; [intros; lia|].
    by exists mf, of_.
  - apply dec_stable in Heq. intros H.
    apply IH in H as (Hle & Hbefore & Hat). split; [lia|]. split; [|done].
    intros j Hj Hlt. destruct (decide (j = f)) as [->|]; [by eauto|].
    apply Hbefore; lia.
Qed.

End LayoutMore.

(** The validator stops at the first type that does not fit.  Types of
    the layout of the canonical type, given first, make no difference to
    the result; and what is given after a type of another layout makes
    none either, not even what is no struct type. *)
Theorem validation_stops_at_first_misfit
    (ConvertibleTo : reflect.GoType → reflect.GoType → bool)
    (mainStruct : reflect.RType) (underlyingType : reflect.GoType)
    (panicOnError : bool) :
  (∀ fit rest,
     Forall (same_layout mainStruct) fit →
     sumtype.ValidateStructFields ConvertibleTo mainStruct underlyingType
       panicOnError (fit ++ rest)
     = sumtype.ValidateStructFields ConvertibleTo mainStruct underlyingType
         panicOnError rest)
  ∧ (∀ other rest,
       ¬ same_layout mainStruct other →
       sumtype.ValidateStructFields ConvertibleTo mainStruct underlyingType
         panicOnError (other :: rest)
       = sumtype.ValidateStructFields ConvertibleTo mainStruct underlyingType
           panicOnError [other]).
Proof.
  unfold sumtype.ValidateStructFields, sumtype.validateStructFields.
  split.
  - intros fit rest Hfit.
    assert (sumtype.check_structs mainStruct (fit ++ rest)
            = sumtype.check_structs mainStruct rest) as ->; [|done].
    induction Hfit as [|other fit Hsame _ IH]; [done|].
    rewrite <- app_comm_cons. by rewrite check_structs_pass.
  - intros other rest Hnot. by rewrite (check_structs_stop _ other rest Hnot).
Qed.

Lemma validation_stops_at_first_misfit_witness :
  ¬ same_layout Types.T_shape T_Misordered
  ∧ sumtype.ValidateStructFields Types.ConvertibleTo Types.T_shape Types.t_Caster
      false [T_Misordered; reflect.PtrT Types.T_Shape]
    = sumtype.ValidateStructFields Types.ConvertibleTo Types.T_shape
        Types.t_Caster false [T_Misordered].
Proof.
  assert (¬ same_layout Types.T_shape T_Misordered) as Hnot.
  { intros (n & [= <-] & _ & H).
    destruct (H 1) as (mf & of_ & [= <-] & [= <-] & Heq); [lia|done]. }
  split; [exact Hnot|].
  destruct (validation_stops_at_first_misfit Types.ConvertibleTo Types.T_shape
              Types.t_Caster false) as [_ H].
  apply H. exact Hnot.
Defined.

(** When the validator reports an incompatible field, the position in
    the error is the first at which the field types of the two structs
    differ: at every position before it they are the same. *)
Theorem incompatible_field_is_the_first
    (ConvertibleTo : reflect.GoType → reflect.GoType → bool)
    (mainStruct : reflect.RType) (underlyingType : reflect.GoType)
    (other : reflect.RType)
    (i : nat) (mainName mfName mfType otherName ofName ofType : string) :
  sumtype.ValidateStructFields ConvertibleTo mainStruct underlyingType
    false [other]
  = Returned (Some (sumtype.ErrIncompatible i mainName mfName mfType
                      otherName ofName ofType)) →
  (∀ j, (j < i)%nat →
     ∃ mf of_, reflect.Field mainStruct j = Returned mf
               ∧ reflect.Field other j = Returned of_
               ∧ reflect.Type_ mf = reflect.Type_ of_)
  ∧ ∃ mf of_, reflect.Field mainStruct i = Returned mf
              ∧ reflect.Field other i = Returned of_
              ∧ reflect.Type_ mf ≠ reflect.Type_ of_.
Proof.
  unfold sumtype.ValidateStructFields, sumtype.validateStructFields.
  destruct (reflect.Field mainStruct 0) as [first|]; [|done]. simpl.
  destruct (negb _ || negb _); [done|].
  cbn [sumtype.check_structs].
  destruct (reflect.NumField mainStruct) as [k|]; [|done].
  destruct (reflect.NumField other) as [k'|]; [|done]. simpl.
  destruct (Nat.eqb k k'); [|done]. simpl.
  destruct (sumtype.check_fields mainStruct 0 k other) as [[e|]|p] eqn:E;
    try done.
  simpl. intros [= ->].
  apply check_fields_first in E as (_ & Hbefore & Hat).
  split; [|done]. intros j Hj. apply Hbefore; lia.
Qed.

(** A candidate whose last two fields have other types than those of
    [shape]. *)
Definition T_Mistyped : reflect.RType :=
  reflect.StructT (reflect.Defined Types.pkg "Mistyped")
    [ Types.unexported "shapeCaster" Types.t_shapeCaster;
      Types.exported "Color" (reflect.PointerTo Types.t_string);
      Types.exported "Kind" (reflect.PointerTo Types.t_ShapeKind);
      Types.exported "Radius" (reflect.PointerTo Types.t_int);
      Types.exported "Width" Types.t_int;
      Types.exported "Height" Types.t_int ].

Lemma incompatible_field_is_the_first_witness :
  sumtype.ValidateStructFields Types.ConvertibleTo Types.T_shape Types.t_Caster
    false [T_Mistyped]
  = Returned (Some (sumtype.ErrIncompatible 4 "shape" "Width" "*int"
                      "Mistyped" "Width" "int"))
  ∧ ∃ mf of_, reflect.Field Types.T_shape 4 = Returned mf
              ∧ reflect.Field T_Mistyped 4 = Returned of_
              ∧ reflect.Type_ mf ≠ reflect.Type_ of_.
Proof.
  split; [reflexivity|].
  destruct (incompatible_field_is_the_first Types.ConvertibleTo Types.T_shape
              Types.t_Caster T_Mistyped 4 "shape" "Width" "*int"
              "Mistyped" "Width" "int" eq_refl) as [_ H].
  exact H.
Defined.

(** The validator compares the types of the fields and nothing else.  A
    struct whose fields have, in order, the types of the fields of the
    canonical struct passes, whatever the names of its fields and
    whether they are exported: two fields of one type that have changed
    places are not found. *)
Theorem validation_compares_types_only
    (ConvertibleTo : reflect.GoType → reflect.GoType → bool)
    (underlyingType : reflect.GoType) (panicOnError : bool)
    (id id' : reflect.GoType) (fs fs' : list reflect.StructField) :
  marker_ok ConvertibleTo (reflect.StructT id fs) underlyingType →
  reflect.Type_ <$> fs' = reflect.Type_ <$> fs →
  sumtype.ValidateStructFields ConvertibleTo (reflect.StructT id fs)
    underlyingType panicOnError [reflect.StructT id' fs']
  = Returned None.
Proof.
  intros (first & Hfirst & C1 & C2) Htypes.
  assert (same_layout (reflect.StructT id fs) (reflect.StructT id' fs')) as Hsame.
  { exists (length fs). split; [done|]. split.
    - simpl. f_equal. by rewrite <- (length_fmap reflect.Type_ fs'), Htypes,
        length_fmap.
    - intros i Hi. simpl.
      destruct (fs !! i) as [mf|] eqn:Hmf.
      2: { apply lookup_ge_None in Hmf. lia. }
      destruct (fs' !! i) as [of_|] eqn:Hof.
      2: { apply lookup_ge_None in Hof.
           rewrite <- (length_fmap reflect.Type_ fs'), Htypes, length_fmap in Hof.
           lia. }
      exists mf, of_. split; [done|]. split; [done|].
      assert ((reflect.Type_ <$> fs') !! i = (reflect.Type_ <$> fs) !! i) as H
        by (by rewrite Htypes).
      rewrite !list_lookup_fmap, Hmf, Hof in H. by injection H. }
  unfold sumtype.ValidateStructFields, sumtype.validateStructFields.
  rewrite Hfirst. cbn [obind]. rewrite C1, C2. cbn [negb orb].
  by rewrite (check_structs_pass _ _ [] Hsame).
Qed.

(** [RectangleShape] with the names of its last two fields exchanged. *)
Definition T_Swapped : reflect.RType :=
  reflect.StructT (reflect.Defined Types.pkg "Swapped")
    [ Types.unexported "shapeCaster" Types.t_shapeCaster;
      Types.exported "Color" (reflect.PointerTo Types.t_string);
      Types.exported "Kind" (reflect.PointerTo Types.t_ShapeKind);
      Types.unexported "_" (reflect.PointerTo Types.t_int);
      Types.exported "Height" (reflect.PointerTo Types.t_int);
      Types.exported "Width" (reflect.PointerTo Types.t_int) ].

Lemma validation_compares_types_only_witness :
  marker_ok Types.ConvertibleTo Types.T_shape Types.t_Caster
  ∧ sumtype.ValidateStructFields Types.ConvertibleTo Types.T_shape
      Types.t_Caster true [T_Swapped]
    = Returned None.
Proof.
  assert (marker_ok Types.ConvertibleTo Types.T_shape Types.t_Caster) as Hok.
  { eexists. split; [reflexivity|]. split; reflexivity. }
  split; [exact Hok|].
  apply (validation_compares_types_only Types.ConvertibleTo Types.t_Caster true
           _ (reflect.Defined Types.pkg "Swapped") _ _ Hok).
  reflexivity.
Defined.

(** Where the validator does not return an error but panics inside
    package reflect, whatever [panicOnError] is: when the canonical type
    is no struct or a struct without fields, and when it comes to an
    argument that is no struct, a pointer to one for instance. *)
Theorem validation_panics_in_reflect
    (ConvertibleTo : reflect.GoType → reflect.GoType → bool)
    (mainStruct : reflect.RType) (underlyingType : reflect.GoType)
    (panicOnError : bool) :
  ((∀ id first fs, mainStruct ≠ reflect.StructT id (first :: fs)) →
   ∀ structs,
     ∃ msg, sumtype.ValidateStructFields ConvertibleTo mainStruct
              underlyingType panicOnError structs
            = Panicked (ReflectPanic msg))
  ∧ (marker_ok ConvertibleTo mainStruct underlyingType →
     ∀ other rest,
       (∀ id fs, other ≠ reflect.StructT id fs) →
       ∃ msg, sumtype.ValidateStructFields ConvertibleTo mainStruct
                underlyingType panicOnError (other :: rest)
              = Panicked (ReflectPanic msg)).
Proof.
  unfold sumtype.ValidateStructFields, sumtype.validateStructFields.
  split.
  - intros Hno structs.
    destruct mainStruct as [id [|first fs]|e|id e|id];
      try (eexists; reflexivity).
    by destruct (Hno id first fs).
  - intros (first & Hfirst & C1 & C2) other rest Hno.
    rewrite Hfirst. simpl. rewrite C1, C2. simpl.
    destruct (NumField_of_Field _ _ _ Hfirst) as (k & -> & _). simpl.
    destruct other as [id fs|e|id e|id]; try (eexists; reflexivity).
    by destruct (Hno id fs).
Qed.

Lemma validation_panics_in_reflect_witness :
  marker_ok Types.ConvertibleTo Types.T_shape Types.t_Caster
  ∧ ∃ msg, sumtype.ValidateStructFields Types.ConvertibleTo Types.T_shape
             Types.t_Caster false
             [reflect.PtrT Types.T_Shape; Types.T_CircleShape]
           = Panicked (ReflectPanic msg).
Proof.
  assert (marker_ok Types.ConvertibleTo Types.T_shape Types.t_Caster) as Hok.
  { eexists. split; [reflexivity|]. split; reflexivity. }
  split; [exact Hok|].
  destruct (validation_panics_in_reflect Types.ConvertibleTo Types.T_shape
              Types.t_Caster false) as [_ H].
  apply (H Hok). discriminate.
Defined.

(** ** The loop of [Example] *)

(** [*p] for a [*int]. *)
Definition load_int (p : option loc) : M Z :=
  λ m, match p with
       | None => (Panicked NilDereference, m)
       | Some l => match ints m !! l with
                   | Some z => (Returned z, m)
                   | None => (Panicked NilDereference, m)
                   end
       end.

(** [fmt.Printf("Unrecognized shape kind: %s\n", kind)], by what it
    prints. *)
Definition msg_unrecognized (kind : ShapeKind) : string :=
  "Unrecognized shape kind: " +:+ kind +:+ String (jsontext.chr 10) "".

(** [*r.Height] and [*r.Width] through a view of the record. *)
Definition load_field (r : view) (f : json.field) : M Z :=
  rec <- load_shape (vaddr r) ;;
  load_int (json.slot f rec).

(** [*r.Height < 10 && *r.Width < 10] *)
Definition both_under_10 (r : view) : M bool :=
  h <- load_field r json.FHeight ;;
  if (h <? 10)%Z
  then (w <- load_field r json.FWidth ;; ret (w <? 10)%Z)
  else ret false.

(** The body of the loop of [Example] for one [s], a [*Shape]: the
    switch on [*s.Kind].  It returns what it prints. *)
Definition process (s : loc) : M string :=
  rec <- load_shape s ;;
  kind <- load_kind (Kind rec) ;;
  if String.eqb kind CircleShapeKind then
    c <- Circle s ;;
    color <- ptr_string "white" ;;
    radius <- ptr_int 2 ;;
    assign_field c json.FColor color ;;;
    assign_field c json.FRadius radius ;;;
    ret ""
  else if String.eqb kind RectangleShapeKind then
    r <- Rectangle s ;;
    h <- load_field r json.FHeight ;;
    ph <- ptr_int (Z.min h 10) ;;
    assign_field r json.FHeight ph ;;;
    w <- load_field r json.FWidth ;;
    pw <- ptr_int (Z.min w 10) ;;
    assign_field r json.FWidth pw ;;;
    small <- both_under_10 r ;;
    if (small : bool) then
      c <- SetCircle s ;;
      color <- ptr_string "blue" ;;
      radius <- ptr_int 5 ;;
      assign_field c json.FColor color ;;;
      assign_field c json.FRadius radius ;;;
      ret ""
    else ret ""
  else
    rec' <- load_shape s ;;
    kind' <- load_kind (Kind rec') ;;
    ret (msg_unrecognized kind').

(** The three shapes of [Example] after the loop, as they are printed
    (indentation apart) in its [Output] comment. *)
Example process_shapes_of_Example :
  let green := mem_of [(1%positive, "green")] [(1%positive, RectangleShapeKind)]
                 [(1%positive, 15%Z); (2%positive, 15%Z)] red_rectangle in
  let blue := mem_of [(1%positive, "blue")] [(1%positive, RectangleShapeKind)]
                [(1%positive, 5%Z); (2%positive, 5%Z)] red_rectangle in
  ((process 1%positive ;;; sumtype.MarshalJSON 1%positive) mem_circle).1
  = Returned (json.Ok (json_text "{'color':'white','kind':'circle','radius':2}"))
  ∧ ((process 1%positive ;;; sumtype.MarshalJSON 1%positive) green).1
    = Returned (json.Ok
        (json_text "{'color':'green','kind':'rectangle','width':10,'height':10}"))
  ∧ ((process 1%positive ;;; sumtype.MarshalJSON 1%positive) blue).1
    = Returned (json.Ok (json_text "{'color':'blue','kind':'circle','radius':5}")).
Proof. repeat split; vm_compute; reflexivity. Qed.

Section Process.

Lemma deref_Some {A} (h : gmap loc A) (p : option loc) (x : A) :
  deref h p = Some x → ∃ l, p = Some l ∧ h !! l = Some x.
Proof. destruct p as [l|]; [|done]. simpl. by eauto. Qed.

Lemma assign_field_run (t : projection) (c : loc) (f : json.field) (p : loc)
    (m : mem) (s : shape) :
  shapes m !! c = Some s →
  assign_field {| vtype := t; vaddr := c |} f p m
  = (Returned tt, with_shape c (json.set_slot f (Some p) s) m).
Proof.
  intros Hs. unfold assign_field.
  erewrite bind_returned; [|unfold load_shape; simpl; by rewrite Hs]. done.
Qed.

Lemma load_field_run (t : projection) (c : loc) (f : json.field) (m : mem)
    (s : shape) (l : loc) (z : Z) :
  shapes m !! c = Some s → json.slot f s = Some l → ints m !! l = Some z →
  load_field {| vtype := t; vaddr := c |} f m = (Returned z, m).
Proof.
  intros Hs Hl Hz. unfold load_field.
  erewrite bind_returned; [|unfold load_shape; simpl; by rewrite Hs].
  unfold load_int. by rewrite Hl, Hz.
Qed.

Variables (s : loc) (m : mem) (rec : shape).
Hypothesis Hs : shapes m !! s = Some rec.

Lemma process_circle (color : string) (radius : Z) :
  populated m rec color (VCircle radius) →
  ∃ m' rec',
    process s m = (Returned "", m')
    ∧ shapes m' !! s = Some rec'
    ∧ populated m' rec' "white" (VCircle 2).
Proof.
  intros [Hc [Hw Hh]]. unfold contents_of, contents_as in Hc.
  injection Hc as _ Hkind _ _ _.
  apply deref_Some in Hkind as (l & Hk & Hl).
  unfold process.
  erewrite bind_returned; [|unfold load_shape; by rewrite Hs].
  erewrite bind_returned; [|unfold load_kind; by rewrite Hk, Hl].
  rewrite String.eqb_refl.
  erewrite bind_returned.
  2: { unfold Circle. erewrite bind_returned; [reflexivity|].
       by eapply ensureKind_match. }
  erewrite bind_returned; [|reflexivity].
  erewrite bind_returned; [|reflexivity].
  erewrite bind_returned; [|apply assign_field_run; exact Hs].
  erewrite bind_returned; [|apply assign_field_run; apply lookup_insert_eq].
  eexists _, _. split; [reflexivity|]. split; [apply lookup_insert_eq|].
  split; [|by split].
  unfold contents_of, contents_as. simpl.
  rewrite !lookup_insert_eq, Hk, Hw, Hh. simpl. by rewrite Hl.
Qed.

(** The rectangle with its sides cut down to 10, before the test. *)
Lemma process_rectangle_clamped (color : string) (w h : Z) :
  populated m rec color (VRectangle w h) →
  ∃ l ph pw m4,
    Kind rec = Some l ∧ kinds m4 = kinds m ∧ strs m4 = strs m
    ∧ kinds m !! l = Some RectangleShapeKind
    ∧ shapes m4 !! s
      = Some {| Color := Color rec; Kind := Some l; Radius := None;
                Width := Some pw; Height := Some ph |}
    ∧ ints m4 !! ph = Some (Z.min h 10) ∧ ints m4 !! pw = Some (Z.min w 10)
    ∧ both_under_10 {| vtype := As_RectangleShape; vaddr := s |} m4
      = (Returned ((h <? 10)%Z && (w <? 10)%Z), m4)
    ∧ process s m
      = (small <- both_under_10 {| vtype := As_RectangleShape; vaddr := s |} ;;
           if (small : bool) then
             c <- SetCircle s ;;
             color <- ptr_string "blue" ;;
             radius <- ptr_int 5 ;;
             assign_field c json.FColor color ;;;
             assign_field c json.FRadius radius ;;;
             ret ""
           else ret "") m4.
Proof.
  intros [Hc Hr]. simpl in Hr. unfold contents_of, contents_as in Hc.
  injection Hc as _ Hkind _ Hwidth Hheight.
  apply deref_Some in Hkind as (l & Hk & Hl).
  apply deref_Some in Hwidth as (lw & Hw & Hlw).
  apply deref_Some in Hheight as (lh & Hh & Hlh).
  set (ph := fresh (dom (ints m))).
  set (m1 := {| strs := strs m; kinds := kinds m;
                ints := <[ph := Z.min h 10]> (ints m); shapes := shapes m |}).
  set (rec2 := json.set_slot json.FHeight (Some ph) rec).
  set (m2 := with_shape s rec2 m1).
  set (pw := fresh (dom (ints m2))).
  set (m3 := {| strs := strs m2; kinds := kinds m2;
                ints := <[pw := Z.min w 10]> (ints m2); shapes := shapes m2 |}).
  set (rec4 := json.set_slot json.FWidth (Some pw) rec2).
  set (m4 := with_shape s rec4 m3).
  assert (lw ≠ ph) as Hne1 by (apply fresh_ne; by rewrite Hlw).
  assert (ph ≠ pw) as Hne2.
  { apply fresh_ne. simpl. by rewrite lookup_insert_eq. }
  exists l, ph, pw, m4.
  split; [done|]. split; [done|]. split; [done|]. split; [done|].
  split.
  { subst m4 rec4 rec2. simpl. rewrite lookup_insert_eq. simpl.
    by rewrite Hk, Hr. }
  split.
  { subst m4 m3 m2 m1. simpl. rewrite lookup_insert_ne by done.
    apply lookup_insert_eq. }
  split; [apply lookup_insert_eq|].
  split.
  { assert (∀ z, (Z.min z 10 <? 10)%Z = (z <? 10)%Z) as Hmin.
    { intros z. destruct (Z.ltb_spec z 10), (Z.ltb_spec (Z.min z 10) 10); lia. }
    unfold both_under_10.
    erewrite bind_returned.
    2: { eapply load_field_run; [apply lookup_insert_eq|reflexivity|].
         subst m4 m3 m2 m1. simpl. rewrite lookup_insert_ne by done.
         apply lookup_insert_eq. }
    rewrite Hmin. destruct (h <? 10)%Z; [|reflexivity].
    erewrite bind_returned.
    2: { eapply load_field_run; [apply lookup_insert_eq|reflexivity|].
         apply lookup_insert_eq. }
    by rewrite Hmin. }
  unfold process.
  erewrite bind_returned; [|unfold load_shape; by rewrite Hs].
  erewrite bind_returned; [|unfold load_kind; by rewrite Hk, Hl].
  change (String.eqb RectangleShapeKind CircleShapeKind) with false.
  rewrite String.eqb_refl. cbv iota.
  erewrite bind_returned.
  2: { unfold Rectangle. erewrite bind_returned; [reflexivity|].
       by eapply ensureKind_match. }
  erewrite bind_returned; [|by eapply load_field_run].
  erewrite bind_returned; [|reflexivity]. fold ph. fold m1.
  erewrite bind_returned; [|apply assign_field_run; exact Hs].
  fold rec2. fold m2.
  erewrite bind_returned.
  2: { eapply load_field_run; [apply lookup_insert_eq|exact Hw|].
       subst m2 m1. simpl. by rewrite lookup_insert_ne. }
  erewrite bind_returned; [|reflexivity]. fold pw. fold m3.
  erewrite bind_returned; [|apply assign_field_run; apply lookup_insert_eq].
  fold rec4. fold m4. reflexivity.
Qed.

End Process.

(** What the loop of [Example] does to a shape that is a populated
    variant.  It prints nothing and leaves a populated variant: of a
    circle, a white circle of radius 2; of a rectangle with both sides
    under 10, a blue circle of radius 5; of any other rectangle, the
    rectangle of the same colour with each side cut down to 10. *)
Theorem process_of_variant (s : loc) (m : mem) (rec : shape) (color : string)
    (v : variant) :
  shapes m !! s = Some rec → populated m rec color v →
  ∃ m' rec',
    process s m = (Returned "", m')
    ∧ shapes m' !! s = Some rec'
    ∧ match v with
      | VCircle _ => populated m' rec' "white" (VCircle 2)
      | VRectangle w h =>
          if (h <? 10)%Z && (w <? 10)%Z
          then populated m' rec' "blue" (VCircle 5)
          else populated m' rec' color (VRectangle (Z.min w 10) (Z.min h 10))
      end.
Proof.
  intros Hs Hpop. destruct v as [radius|w h].
  { by eapply process_circle. }
  destruct (process_rectangle_clamped s m rec Hs color w h Hpop)
    as (l & ph & pw & m4 & Hk & Hkinds & Hstrs & Hl & Hs4 & Hph & Hpw
        & Hsmall & ->).
  destruct Hpop as [Hc _]. unfold contents_of, contents_as in Hc.
  injection Hc as Hcolor _ _ _ _.
  erewrite bind_returned by exact Hsmall.
  destruct ((h <? 10)%Z && (w <? 10)%Z).
  - erewrite bind_returned; [|by eapply SetCircle_run].
    erewrite bind_returned; [|reflexivity].
    erewrite bind_returned; [|reflexivity].
    erewrite bind_returned; [|apply assign_field_run; apply lookup_insert_eq].
    erewrite bind_returned; [|apply assign_field_run; apply lookup_insert_eq].
    eexists _, _. split; [reflexivity|]. split; [apply lookup_insert_eq|].
    split; [|by split]. unfold contents_of, contents_as. simpl.
    by rewrite !lookup_insert_eq.
  - eexists _, _. split; [reflexivity|]. split; [exact Hs4|].
    split; [|done]. unfold contents_of, contents_as. simpl.
    by rewrite Hstrs, Hkinds, Hcolor, Hl, Hph, Hpw.
Qed.

Lemma process_of_variant_witness :
  shapes mem_rectangle !! 1%positive = Some red_rectangle
  ∧ populated mem_rectangle red_rectangle "red" (VRectangle 100 50)
  ∧ ∃ m' rec',
      process 1%positive mem_rectangle = (Returned "", m')
      ∧ shapes m' !! 1%positive = Some rec'
      ∧ populated m' rec' "red" (VRectangle 10 10).
Proof.
  split; [reflexivity|]. split; [by split|].
  apply (process_of_variant 1%positive mem_rectangle red_rectangle "red"
           (VRectangle 100 50) eq_refl).
  by split.
Defined.

(** A shape of a kind that the loop does not know is left as it is, and
    with it all of memory; a line that names the kind is printed. *)
Theorem process_of_unknown_kind (s : loc) (m : mem) (rec : shape) (l : loc)
    (kind : ShapeKind) :
  shapes m !! s = Some rec → Kind rec = Some l → kinds m !! l = Some kind →
  kind ≠ CircleShapeKind → kind ≠ RectangleShapeKind →
  process s m
  = (Returned ("Unrecognized shape kind: " +:+ kind +:+ String (jsontext.chr 10) ""),
     m).
Proof.
  intros Hs Hk Hl Hc Hr. unfold process.
  erewrite bind_returned; [|unfold load_shape; by rewrite Hs].
  erewrite bind_returned; [|unfold load_kind; by rewrite Hk, Hl].
  apply String.eqb_neq in Hc, Hr. rewrite Hc, Hr.
  erewrite bind_returned; [|unfold load_shape; by rewrite Hs].
  erewrite bind_returned; [|unfold load_kind; by rewrite Hk, Hl].
  reflexivity.
Qed.

(** A triangle, as a later version of the service might send one. *)
Definition mem_triangle : mem :=
  mem_of [(1%positive, "red")] [(1%positive, "triangle")] []
    {| Color := Some 1%positive; Kind := Some 1%positive; Radius := None;
       Width := None; Height := None |}.

Lemma process_of_unknown_kind_witness :
  (process 1%positive mem_triangle).2 = mem_triangle
  ∧ ∃ line, (process 1%positive mem_triangle).1 = Returned line.
Proof.
  rewrite (process_of_unknown_kind 1%positive mem_triangle _ 1%positive
             "triangle" eq_refl eq_refl eq_refl);
    [|discriminate|discriminate].
  split; [reflexivity|]. eexists. reflexivity.
Defined.

(** Where the loop of [Example] panics with a nil dereference: on a
    shape without a kind, at the switch, and on a rectangle without a
    height, at [*r.Height]; in both cases nothing was written.  On a
    rectangle that has a height but no width it panics at [*r.Width]. *)
Theorem process_panics (s : loc) (m : mem) (rec : shape) :
  shapes m !! s = Some rec →
  (Kind rec = None → process s m = (Panicked NilDereference, m))
  ∧ (deref (kinds m) (Kind rec) = Some RectangleShapeKind →
     (Height rec = None → process s m = (Panicked NilDereference, m))
     ∧ (is_Some (deref (ints m) (Height rec)) → Width rec = None →
        (process s m).1 = Panicked NilDereference)).
Proof.
  intros Hs. split.
  - intros Hk. unfold process.
    erewrite bind_returned; [|unfold load_shape; by rewrite Hs].
    erewrite bind_panicked; [reflexivity|]. unfold load_kind. by rewrite Hk.
  - intros Hkind. apply deref_Some in Hkind as (l & Hk & Hl).
    split.
    + intros Hh. unfold process.
      erewrite bind_returned; [|unfold load_shape; by rewrite Hs].
      erewrite bind_returned; [|unfold load_kind; by rewrite Hk, Hl].
      change (String.eqb RectangleShapeKind CircleShapeKind) with false.
      rewrite String.eqb_refl. cbv iota.
      erewrite bind_returned.
      2: { unfold Rectangle. erewrite bind_returned; [reflexivity|].
           by eapply ensureKind_match. }
      erewrite bind_panicked; [reflexivity|].
      unfold load_field.
      erewrite bind_returned; [|unfold load_shape, caster; simpl; by rewrite Hs].
      unfold load_int. simpl. by rewrite Hh.
    + intros [h Hh] Hw. apply deref_Some in Hh as (lh & Hh & Hlh).
      unfold process.
      erewrite bind_returned; [|unfold load_shape; by rewrite Hs].
      erewrite bind_returned; [|unfold load_kind; by rewrite Hk, Hl].
      change (String.eqb RectangleShapeKind CircleShapeKind) with false.
      rewrite String.eqb_refl. cbv iota.
      erewrite bind_returned.
      2: { unfold Rectangle. erewrite bind_returned; [reflexivity|].
           by eapply ensureKind_match. }
      erewrite bind_returned; [|by eapply load_field_run].
      erewrite bind_returned; [|reflexivity].
      erewrite bind_returned; [|apply assign_field_run; exact Hs].
      erewrite bind_panicked; [reflexivity|].
      unfold load_field.
      erewrite bind_returned;
        [|unfold load_shape, caster; simpl; by rewrite lookup_insert_eq].
      unfold load_int. simpl. by rewrite Hw.
Qed.

Lemma process_panics_witness :
  process 1%positive mem_unset = (Panicked NilDereference, mem_unset).
Proof.
  destruct (process_panics 1%positive mem_unset zero_shape eq_refl) as [H _].
  by apply H.
Defined.

(** ** When [MarshalJSON] fails *)

Section MarshalOutcome.

Import json.

Variables (m : mem) (s : shape).
Hypothesis Hall : allocated m s.

(** The string of the field, if it holds one, is UTF-8. *)
Definition field_ok (f : field) : bool :=
  match get m s f with
  | Some (CStr v) => jsontext.utf8_valid v
  | _ => true
  end.

Lemma marshal_field_outcome (f : field) :
  if field_ok f
  then ∃ ot, marshal_field m s f = Returned (Ok ot)
  else marshal_field m s f = Returned (Err SyntacticError).
Proof using Hall.
  specialize (Hall f). unfold field_ok, get, marshal_field in *.
  destruct (slot f s) as [l|]; [|by eauto].
  destruct Hall as [x Hx]; [done|].
  destruct f; simpl in *;
    (destruct (_ !! l) as [v|]; [|done]); simpl; unfold marshal_string;
    try (by eauto);
    (destruct (jsontext.utf8_valid v); [|done]);
    destruct (String.eqb v ""); by eauto.
Qed.

Lemma marshal_fields_outcome (fs : list field) (first : bool) :
  if forallb field_ok fs
  then ∃ body, marshal_fields m s fs first = Returned (Ok body)
  else marshal_fields m s fs first = Returned (Err SyntacticError).
Proof using Hall.
  revert first. induction fs as [|f fs IH]; intros first; [by eexists|].
  cbn [forallb marshal_fields]. pose proof (marshal_field_outcome f) as Hf.
  destruct (field_ok f); simpl.
  - destruct Hf as [[vt|] ->].
    + specialize (IH false). destruct (forallb field_ok fs).
      * destruct IH as [more ->]. by eexists.
      * by rewrite IH.
    + apply IH.
  - by rewrite Hf.
Qed.

End MarshalOutcome.

(** [MarshalJSON] never writes to memory.  On a record all of whose
    pointers point to something it does not panic; it returns a text
    when the colour and the kind, where the record has them, are valid
    UTF-8, and the error of the encoder when one of them is not. *)
Theorem MarshalJSON_outcome (c : loc) (m : mem) :
  (sumtype.MarshalJSON c m).2 = m
  ∧ ∀ s, shapes m !! c = Some s → allocated m s →
      let strings_ok :=
        match deref (strs m) (Color s), deref (kinds m) (Kind s) with
        | Some color, Some kind =>
            jsontext.utf8_valid color && jsontext.utf8_valid kind
        | Some v, None | None, Some v => jsontext.utf8_valid v
        | None, None => true
        end in
      if strings_ok
      then ∃ text, sumtype.MarshalJSON c m = (Returned (json.Ok text), m)
      else ∃ e, sumtype.MarshalJSON c m = (Returned (json.Err e), m).
Proof.
  split.
  { unfold sumtype.MarshalJSON, json.Marshal, bind, load_shape.
    destruct (shapes m !! _); [|done].
    by destruct (json.marshal_fields m s json.fields true) as [[?|?]|?]. }
  intros s Hs Hall strings_ok.
  pose proof (marshal_fields_outcome m s Hall json.fields true) as H.
  assert (forallb (field_ok m s) json.fields = strings_ok) as Heq.
  { subst strings_ok. unfold field_ok, get, deref. simpl.
    destruct (Color s) as [l1|], (Kind s) as [l2|], (Radius s) as [l3|],
      (Width s) as [l4|], (Height s) as [l5|]; simpl;
      repeat match goal with |- context [?h !! ?l] => destruct (h !! l) end;
      simpl; rewrite ?andb_true_r; done. }
  rewrite Heq in H. unfold sumtype.MarshalJSON, json.Marshal.
  erewrite bind_returned; [|unfold load_shape; simpl; by rewrite Hs].
  destruct strings_ok.
  - destruct H as [body ->]. by eexists.
  - rewrite H. by eexists.
Qed.

Lemma MarshalJSON_outcome_witness :
  ∃ text, sumtype.MarshalJSON 1%positive mem_circle
          = (Returned (json.Ok text), mem_circle).
Proof.
  destruct (MarshalJSON_outcome 1%positive mem_circle) as [_ H].
  apply (H red_circle eq_refl).
  intros g Hg. destruct g; try done; by eexists.
Defined.

(** ** [String]: the record in indented JSON *)

(** [json.Marshal(p, jsontext.Multiline(true))] and [json.Marshal(p,
    jsontext.WithIndent(indent))] for [p] a [*shape], after the
    documentation of package jsontext: every member begins on a line of
    its own that begins with the indentation, a space follows the colon,
    the closing brace is on a line of its own, and an object without
    members is written [{}]. *)

Definition newline : string := String (jsontext.chr 10) "".

(** The indentation of [jsontext.Multiline(true)]: a tab. *)
Definition tab : string := String (jsontext.chr 9) "".

Fixpoint marshal_fields_multiline (indent : string) (m : mem) (s : shape)
    (fs : list json.field) (first : bool) : outcome (json.result string) :=
  match fs with
  | [] => Returned (json.Ok "")
  | f :: rest =>
      match json.marshal_field m s f with
      | Panicked p => Panicked p
      | Returned (json.Err e) => Returned (json.Err e)
      | Returned (json.Ok None) => marshal_fields_multiline indent m s rest first
      | Returned (json.Ok (Some v)) =>
          match marshal_fields_multiline indent m s rest false with
          | Returned (json.Ok more) =>
              Returned (json.Ok ((if first then "" else ",") +:+ newline +:+
                                 indent +:+ jsontext.quote (json.name_of f) +:+
                                 ": " +:+ v +:+ more))
          | other => other
          end
      end
  end.

Definition Marshal_multiline (indent : string) (p : view)
  : M (json.result string) :=
  s <- load_shape (vaddr p) ;;
  λ m, match marshal_fields_multiline indent m s json.fields true with
       | Returned (json.Ok "") => (Returned (json.Ok "{}"), m)
       | Returned (json.Ok body) =>
           (Returned (json.Ok ("{" +:+ body +:+ newline +:+ "}")), m)
       | Returned (json.Err e) => (Returned (json.Err e), m)
       | Panicked p => (Panicked p, m)
       end.

Section Stringer.

(** [json.Marshal] returns bytes beside an error too: what its buffer
    held when the error came up.  The documentation of the package does
    not say what that is; it is left open here, as a function of the
    memory and of the record. *)
Variable bytes_at_error : mem → loc → string.

(** [string(j)] for [j, _ := json.Marshal(...)]: the error is dropped. *)
Definition string_of (c : loc) (r : json.result string) : M string :=
  match r with
  | json.Ok j => ret j
  | json.Err _ => λ m, (Returned (bytes_at_error m c), m)
  end.

(** [Caster.String] *)
Definition Caster_String (c : loc) : M string :=
  r <- Marshal_multiline tab (sumtype.Json c) ;;
  string_of c r.

(** [shapeCaster.String] *)
Definition shapeCaster_String (c : loc) : M string :=
  r <- Marshal_multiline "  " (json c) ;;
  string_of c r.

End Stringer.

(** The red circle of [Example], as its [Output] comment shows it but
    for the indentation of the array around it. *)
Example shapeCaster_String_red_circle (bytes_at_error : mem → loc → string) :
  (shapeCaster_String bytes_at_error 1%positive mem_circle).1
  = Returned
      (json_text ("{" +:+ newline +:+
                  "  'color': 'red'," +:+ newline +:+
                  "  'kind': 'circle'," +:+ newline +:+
                  "  'radius': 1" +:+ newline +:+
                  "}")).
Proof. vm_compute. reflexivity. Qed.

Example Caster_String_unset (bytes_at_error : mem → loc → string) :
  (Caster_String bytes_at_error 1%positive mem_unset).1 = Returned "{}".
Proof. reflexivity. Qed.

Section Multiline.

Variables (indent : string) (m : mem) (s : shape).

(** The indented members and the members in one line: both are there or
    neither is, and both are empty or neither is. *)
Lemma marshal_fields_multiline_outcome (fs : list json.field) (first : bool) :
  match json.marshal_fields m s fs first,
        marshal_fields_multiline indent m s fs first with
  | Returned (json.Ok a), Returned (json.Ok b) => a = "" ↔ b = ""
  | Returned (json.Err e), Returned (json.Err e') => e = e'
  | Panicked p, Panicked p' => p = p'
  | _, _ => False
  end.
Proof.
  revert first. induction fs as [|f fs IH]; intros first; [done|].
  cbn [json.marshal_fields marshal_fields_multiline].
  destruct (json.marshal_field m s f) as [[[vt|]|e]|p];
    [|apply IH|done|done].
  specialize (IH false).
  destruct (json.marshal_fields m s fs false) as [[a|e]|p],
    (marshal_fields_multiline indent m s fs false) as [[b|e']|p'];
    try done.
  split; intros H; exfalso; revert H.
  - unfold jsontext.quote. by destruct first.
  - unfold newline. by destruct first.
Qed.

End Multiline.


(** ** Reading back the indented text *)

Section ReadIndented.

Import jsontext json.

(** The input goes on with something that is no part of a number: a
    comma, a closing brace or a line feed. *)
Definition stops (rest : string) : Prop :=
  ∃ r, rest = String "," r ∨ rest = String "}" r ∨ rest = String (chr 10) r.

Lemma read_digits_stops (d : uint) (rest : string) :
  stops rest → read_digits (NilEmpty.string_of_uint d +:+ rest) = (d, rest).
Proof.
  intros (r & Hr). induction d; simpl; try by rewrite IHd.
  by destruct Hr as [-> | [-> | ->]].
Qed.

Lemma read_number_stops (negative : bool) (d : uint) (rest : string) :
  stops rest → int_part_ok d = true →
  read_number ((if negative then "-" else "") +:+
               NilEmpty.string_of_uint d +:+ rest)
  = Some (Number negative d true, rest).
Proof.
  intros Hrest Hd.
  pose proof (read_int_part_digits d rest Hd (read_digits_stops d rest Hrest))
    as Hdig.
  destruct Hrest as (r & Hr).
  assert (read_frac rest = Some (false, rest)) as Hf
    by (by destruct Hr as [-> | [-> | ->]]).
  assert (read_exp rest = Some (false, rest)) as He
    by (by destruct Hr as [-> | [-> | ->]]).
  destruct negative.
  - rewrite append_cons, append_nil_l. unfold read_number.
    cbn -[read_int_part read_frac read_exp].
    by rewrite Hdig, Hd, Hf, He.
  - rewrite append_nil_l. unfold read_number.
    assert (∃ x t, NilEmpty.string_of_uint d +:+ rest = String x t
                   ∧ Ascii.eqb x "-" = false) as (x & t & Hx & Hne).
    { destruct d; try done; simpl; rewrite append_cons; by eexists _, _. }
    rewrite Hx in *.
    assert (match String x t with
            | String "-" r0 => (true, r0)
            | _ => (false, String x t)
            end = (false, String x t)) as ->.
    { destruct x as [[] [] [] [] [] [] [] []]; done. }
    by rewrite Hdig, Hd, Hf, He.
Qed.

Lemma read_value_int_stops (fuel : nat) (z : Z) (rest : string) :
  stops rest →
  read_value (S fuel) (format_int z +:+ rest) = Some (number_of z, rest).
Proof.
  intros Hrest. unfold format_int, number_of.
  destruct z as [|p|p]; simpl Z.to_int; cbv beta iota.
  - change (NilZero.string_of_int (Pos zero))
      with ("" +:+ NilEmpty.string_of_uint (D0 Nil)).
    rewrite append_assoc, (read_value_number fuel false (D0 Nil)) by done.
    by apply (read_number_stops false).
  - change (NilZero.string_of_int (Pos (Pos.to_uint p)))
      with (NilZero.string_of_uint (Pos.to_uint p)).
    rewrite string_of_uint_to_uint.
    rewrite <- (append_nil_l (NilEmpty.string_of_uint _ +:+ rest)).
    rewrite (read_value_number fuel false) by apply int_part_ok_to_uint.
    apply (read_number_stops false); [done|apply int_part_ok_to_uint].
  - change (NilZero.string_of_int (Neg (Pos.to_uint p)))
      with (String "-" (NilZero.string_of_uint (Pos.to_uint p))).
    rewrite string_of_uint_to_uint.
    change (String "-" ?t +:+ rest) with ("-" +:+ t +:+ rest).
    rewrite (read_value_number fuel true) by apply int_part_ok_to_uint.
    apply (read_number_stops true); [done|apply int_part_ok_to_uint].
Qed.

(** What white space the reader skips makes no difference to it. *)
Lemma read_value_skip (fuel : nat) (s s' : string) :
  skip_ws s = skip_ws s' → read_value fuel s = read_value fuel s'.
Proof. intros H. destruct fuel; [done|]. cbn [read_value]. by rewrite H. Qed.

Lemma scan_members_skip (fuel : nat) (s s' : string) (seen : list string)
    (first : bool) :
  skip_ws s = skip_ws s' →
  scan_members fuel s seen first = scan_members fuel s' seen first.
Proof.
  intros H. destruct fuel; [done|]. cbn [scan_members]. unfold expect.
  by rewrite H.
Qed.

(** A member as the indented text has it, with a space after the colon. *)
Lemma scan_member_spaced (fuel : nat) (name vt r3 : string) (v : Value)
    (seen : list string) (first : bool) :
  name ∉ seen → utf8_valid name = true →
  read_value fuel (vt +:+ r3) = Some (v, r3) → too_deep v = false →
  scan_members (S fuel) (quote name +:+ ": " +:+ vt +:+ r3) seen first
  = continue_scan fuel r3 (name :: seen) (name, Whole v).
Proof.
  intros Hseen Hname Hv Hdeep.
  rewrite quote_append, scan_members_quote, read_string_escape by done.
  rewrite bool_decide_false by done.
  change (expect ":" (": " +:+ vt +:+ r3)) with (Some (" " +:+ vt +:+ r3)).
  cbv beta iota.
  rewrite (read_value_skip fuel (" " +:+ vt +:+ r3) (vt +:+ r3)) by done.
  by rewrite Hv, Hdeep.
Qed.

(** The text of a field that is written reads back as its value, also
    before a line feed. *)
Lemma marshal_field_reads_back (m : mem) (s : shape) (f : field) :
  valid m s →
  ∃ ot, marshal_field m s f = Returned (Ok ot)
        ∧ match ot, get m s f ≫= kept with
          | None, None => True
          | Some vt, Some x =>
              (1 ≤ String.length vt)%nat
              ∧ ∀ fuel rest, stops rest →
                  read_value (S fuel) (vt +:+ rest) = Some (value_of x, rest)
          | _, _ => False
          end.
Proof.
  intros Hv. specialize (Hv f). unfold marshal_field, get in *.
  destruct (slot f s) as [l|]; [|by exists None].
  destruct Hv as (x & Hx & Hfit); [done|].
  assert (∀ v, utf8_valid v = true →
            ∃ ot, Returned (marshal_string v) = Returned (Ok ot)
              ∧ match ot, Some (CStr v) ≫= kept with
                | None, None => True
                | Some vt, Some x =>
                    (1 ≤ String.length vt)%nat
                    ∧ ∀ fuel rest, stops rest →
                        read_value (S fuel) (vt +:+ rest)
                        = Some (value_of x, rest)
                | _, _ => False
                end) as Hstr.
  { intros v Hval. unfold marshal_string. rewrite Hval.
    destruct v as [|a v]; [by exists None|].
    exists (Some (quote (String a v))). split; [done|]. hnf. split.
    - unfold quote. cbn [String.length]. lia.
    - intros fuel rest _. by apply read_value_quote. }
  destruct f; simpl in Hx, Hfit |- *.
  1-2: destruct (_ !! l) as [v|]; [|done]; injection Hx as <-;
       by apply Hstr.
  all: destruct (ints m !! l) as [z|]; [|done]; injection Hx as <-;
       exists (Some (format_int z)); (split; [done|]); hnf; split;
       [ destruct (format_int_shape z) as (neg & d & -> & Hd & _);
         rewrite length_append; destruct d; try done; simpl; lia
       | intros fuel rest Hrest; by apply read_value_int_stops ].
Qed.

Section Indented.

Variables (indent : string) (m : mem) (s : shape).
Hypothesis Hindent : ∀ t, skip_ws (indent +:+ t) = skip_ws t.
Hypothesis Hvalid : valid m s.

Lemma skip_line (t : string) :
  skip_ws (newline +:+ indent +:+ t) = skip_ws t.
Proof using Hindent. unfold newline. rewrite append_cons. simpl. apply Hindent. Qed.

(** The members after the first, indented. *)
Lemma scan_tail_indented (fs : list field) :
  ∃ body,
    marshal_fields_multiline indent m s fs false = Returned (Ok body)
    ∧ (∃ r, body = "" ∨ body = String "," r)
    ∧ ∀ fuel seen head rest,
        NoDup (name_of <$> fs) → (∀ f, f ∈ fs → name_of f ∉ seen) →
        (String.length body ≤ fuel)%nat →
        continue_scan fuel (body +:+ newline +:+ "}" +:+ rest) seen head
        = (head :: written m s fs, Closed rest).
Proof using Hindent Hvalid.
  induction fs as [|f fs (more & Hmore & Hshape & IH)].
  - exists "". split; [done|]. split; [by exists ""; left|]. done.
  - destruct (marshal_field_reads_back m s f Hvalid) as (ot & Hf & Hot).
    cbn [marshal_fields_multiline]. rewrite Hf, Hmore.
    unfold written. cbn [omap list_omap]. fold (written m s fs).
    destruct ot as [vt|], (get m s f ≫= kept) as [x|]; try done.
    + destruct Hot as (Hlen & Hread).
      eexists. split; [done|]. split; [by eexists; right|].
      intros fuel seen head rest Hnd Hseen Hfuel.
      apply NoDup_cons in Hnd as [Hf' Hnd].
      rewrite !length_append in Hfuel. cbn [String.length] in Hfuel.
      destruct fuel as [|fuel]; [lia|].
      rewrite !append_assoc. change ("," +:+ ?t) with (String "," t).
      rewrite continue_scan_comma.
      rewrite (scan_members_skip _ _ _ _ _ (skip_line _)).
      assert (stops (more +:+ newline +:+ "}" +:+ rest)) as Hstops.
      { destruct Hshape as (r & [-> | ->]); eexists; [by right; right|by left]. }
      destruct fuel as [|fuel]; [lia|].
      rewrite (scan_member_spaced (S fuel) _ _ _ (value_of x)).
      * rewrite IH; [done|done| |lia].
        intros g Hg. apply not_elem_of_cons. split.
        -- intros Heq. apply Hf'. rewrite <- Heq. by apply list_elem_of_fmap_2.
        -- apply Hseen. by right.
      * apply Hseen. by left.
      * apply field_names_valid.
      * by apply Hread.
      * apply too_deep_value_of.
    + exists more. split; [done|]. split; [done|].
      intros fuel seen head rest Hnd Hseen Hfuel.
      apply NoDup_cons in Hnd as [_ Hnd].
      apply IH; [done| |done]. intros g Hg. apply Hseen. by right.
Qed.

(** The members from the first on, indented. *)
Lemma scan_head_indented (fs : list field) :
  ∃ body,
    marshal_fields_multiline indent m s fs true = Returned (Ok body)
    ∧ ∀ fuel rest,
        NoDup (name_of <$> fs) → (String.length body ≤ fuel)%nat →
        scan_members (S fuel) (body +:+ newline +:+ "}" +:+ rest) [] true
        = (written m s fs, Closed rest).
Proof using Hindent Hvalid.
  induction fs as [|f fs (body & Hbody & IH)].
  - exists "". split; [done|]. done.
  - destruct (marshal_field_reads_back m s f Hvalid) as (ot & Hf & Hot).
    destruct (scan_tail_indented fs) as (more & Hmore & Hshape & Htail).
    cbn [marshal_fields_multiline]. rewrite Hf, Hmore, Hbody. unfold written.
    cbn [omap list_omap]. fold (written m s fs).
    destruct ot as [vt|], (get m s f ≫= kept) as [x|]; try done.
    + destruct Hot as (Hlen & Hread).
      eexists. split; [done|].
      intros fuel rest Hnd Hfuel.
      apply NoDup_cons in Hnd as [Hf' Hnd].
      rewrite append_nil_l in Hfuel |- *.
      rewrite !length_append in Hfuel. cbn [String.length] in Hfuel.
      rewrite !append_assoc.
      rewrite (scan_members_skip _ _ _ _ _ (skip_line _)).
      assert (stops (more +:+ newline +:+ "}" +:+ rest)) as Hstops.
      { destruct Hshape as (r & [-> | ->]); eexists; [by right; right|by left]. }
      destruct fuel as [|fuel]; [lia|].
      rewrite (scan_member_spaced (S fuel) _ _ _ (value_of x)).
      * rewrite Htail; [done|done| |lia].
        intros g Hg. apply not_elem_of_cons. split; [|apply not_elem_of_nil].
        intros Heq. apply Hf'. rewrite <- Heq. by apply list_elem_of_fmap_2.
      * apply not_elem_of_nil.
      * apply field_names_valid.
      * by apply Hread.
      * apply too_deep_value_of.
    + exists body. split; [done|].
      intros fuel rest Hnd Hfuel.
      apply NoDup_cons in Hnd as [_ Hnd]. by apply IH.
Qed.

End Indented.

End ReadIndented.

Section DecodeIndented.

Import jsontext json.

Variables (m : mem) (c : loc) (s : shape).
Hypothesis Hs : shapes m !! c = Some s.
Hypothesis Hvalid : valid m s.

(** Decoding the members that [Marshal] writes for the record. *)
Definition decode_written (p : view) : M (option error) :=
  err <- unmarshal_members (vaddr p) (written m s fields) ;;
  match err with
  | Some e => ret (Some e)
  | None => ret (check_eof "")
  end.

Lemma Unmarshal_compact :
  ∃ text,
    sumtype.MarshalJSON c m = (Returned (Ok text), m)
    ∧ ∀ p, Unmarshal text p = decode_written p.
Proof using Hs Hvalid.
  destruct (scan_head m s Hvalid fields) as (body & Hbody & Hscan).
  exists ("{" +:+ body +:+ "}"). split.
  { unfold sumtype.MarshalJSON, Marshal.
    erewrite bind_returned; [|unfold load_shape; simpl; by rewrite Hs].
    by rewrite Hbody. }
  intros p.
  change ("{" +:+ body +:+ "}") with (String "{" (body +:+ "}")).
  rewrite Unmarshal_object. cbn [String.length].
  specialize (Hscan (String.length (body +:+ "}")) "").
  change ("}" +:+ "") with "}" in Hscan. rewrite Hscan; [done| |].
  - exact names_NoDup.
  - rewrite length_append. lia.
Qed.

Lemma Unmarshal_indented (indent : string) (t : projection) :
  (∀ r, skip_ws (indent +:+ r) = skip_ws r) →
  ∃ text,
    Marshal_multiline indent {| vtype := t; vaddr := c |} m
    = (Returned (Ok text), m)
    ∧ ∀ p, Unmarshal text p = decode_written p.
Proof using Hs Hvalid.
  intros Hindent.
  destruct (scan_head_indented indent m s Hindent Hvalid fields)
    as (body & Hbody & Hscan).
  unfold Marshal_multiline.
  erewrite bind_returned; [|unfold load_shape; simpl; by rewrite Hs].
  rewrite Hbody. destruct body as [|x body].
  - exists "{}". split; [done|]. intros p.
    specialize (Hscan 0 "" names_NoDup (Nat.le_refl _)).
    assert (written m s fields = []) as Hnone.
    { change (scan_members 1 ("" +:+ newline +:+ "}" +:+ "") [] true)
        with (([] : list (string * item)), Closed "") in Hscan.
      by injection Hscan. }
    unfold decode_written. rewrite Hnone. reflexivity.
  - eexists. split; [done|]. intros p.
    change ("{" +:+ String x body +:+ newline +:+ "}")
      with (String "{" (String x body +:+ newline +:+ "}")).
    rewrite Unmarshal_object. cbn [String.length].
    specialize (Hscan (S (String.length (body +:+ newline +:+ "}"))) "").
    change ("}" +:+ "") with "}" in Hscan.
    rewrite append_cons. cbn [String.length].
    rewrite append_cons in Hscan.
    rewrite Hscan; [done| |].
    + exact names_NoDup.
    + rewrite length_append. cbn [String.length]. lia.
Qed.

End DecodeIndented.

(** [String], of the caster and of the shape caster, on a record that
    can be encoded: it returns, and leaves memory as it is; and what it
    returns decodes, into any record of any memory, with the result and
    to the memory that the text of [MarshalJSON] decodes to. *)
Theorem String_decodes_like_MarshalJSON (bytes_at_error : mem → loc → string)
    (c : loc) (m : mem) (s : shape) :
  shapes m !! c = Some s → valid m s →
  ∃ text t t',
    sumtype.MarshalJSON c m = (Returned (json.Ok text), m)
    ∧ Caster_String bytes_at_error c m = (Returned t, m)
    ∧ shapeCaster_String bytes_at_error c m = (Returned t', m)
    ∧ ∀ c2 m2,
        sumtype.UnmarshalJSON c2 t m2 = sumtype.UnmarshalJSON c2 text m2
        ∧ sumtype.UnmarshalJSON c2 t' m2 = sumtype.UnmarshalJSON c2 text m2.
Proof.
  intros Hs Hvalid.
  destruct (Unmarshal_compact m c s Hs Hvalid) as (text & Hm & Hd).
  destruct (Unmarshal_indented m c s Hs Hvalid tab As_shape)
    as (t & Ht & Hdt); [done|].
  destruct (Unmarshal_indented m c s Hs Hvalid "  " As_shape)
    as (t' & Ht' & Hdt'); [done|].
  exists text, t, t'. split; [done|].
  split; [unfold Caster_String; by erewrite bind_returned by exact Ht|].
  split; [unfold shapeCaster_String; by erewrite bind_returned by exact Ht'|].
  intros c2 m2. unfold sumtype.UnmarshalJSON. by rewrite Hd, Hdt, Hdt'.
Qed.

Lemma String_decodes_like_MarshalJSON_witness :
  shapes mem_rectangle !! 1%positive = Some red_rectangle
  ∧ valid mem_rectangle red_rectangle
  ∧ ∃ text t t',
      sumtype.MarshalJSON 1%positive mem_rectangle
      = (Returned (json.Ok text), mem_rectangle)
      ∧ Caster_String (λ _ _, "") 1%positive mem_rectangle
        = (Returned t, mem_rectangle)
      ∧ shapeCaster_String (λ _ _, "") 1%positive mem_rectangle
        = (Returned t', mem_rectangle)
      ∧ ∀ c2 m2,
          sumtype.UnmarshalJSON c2 t m2 = sumtype.UnmarshalJSON c2 text m2
          ∧ sumtype.UnmarshalJSON c2 t' m2 = sumtype.UnmarshalJSON c2 text m2.
Proof.
  assert (valid mem_rectangle red_rectangle) as Hvalid.
  { apply (populated_valid _ _ "red" (VRectangle 100 50));
      [by split|reflexivity|by vm_compute]. }
  split; [reflexivity|]. split; [exact Hvalid|].
  apply (String_decodes_like_MarshalJSON (λ _ _, "") 1%positive mem_rectangle
           red_rectangle eq_refl Hvalid).
Defined.

(** ** The methods with a receiver by value *)

(** A method with a receiver by value works on a copy of the struct, a
    variable of its own whose address is new.  [Shape], [CircleShape]
    and [RectangleShape] have the layout of [shape], and their methods
    are the same but for the type of the receiver. *)
Definition by_value {A} (s : shape) (method : loc → M A) : M A :=
  λ m, let c := fresh (dom (shapes m)) in method c (with_shape c s m).

(** [Shape.MarshalJSON], [CircleShape.MarshalJSON] and
    [RectangleShape.MarshalJSON] *)
Definition Shape_MarshalJSON (s : shape) : M (json.result string) :=
  by_value s (λ c, sumtype.MarshalJSON (caster c)).

(** [Shape.String], [CircleShape.String] and [RectangleShape.String] *)
Definition Shape_String (bytes_at_error : mem → loc → string) (s : shape)
  : M string :=
  by_value s (λ c, Caster_String bytes_at_error (caster c)).

(** [Shape.UnmarshalJSON], [CircleShape.UnmarshalJSON] and
    [RectangleShape.UnmarshalJSON] *)
Definition Shape_UnmarshalJSON (s : loc) (data : string)
  : M (option json.error) :=
  sumtype.UnmarshalJSON (caster s) data.

Section ByValue.

Variables (m : mem) (s : shape).

Lemma marshal_fields_copy (c : loc) (fs : list json.field) (first : bool) :
  json.marshal_fields (with_shape c s m) s fs first
  = json.marshal_fields m s fs first.
Proof.
  revert first. induction fs as [|f fs IH]; intros first; [done|].
  cbn [json.marshal_fields]. rewrite !IH.
  assert (json.marshal_field (with_shape c s m) s f = json.marshal_field m s f)
    as -> by (by destruct f).
  done.
Qed.

Lemma marshal_fields_multiline_copy (indent : string) (c : loc)
    (fs : list json.field) (first : bool) :
  marshal_fields_multiline indent (with_shape c s m) s fs first
  = marshal_fields_multiline indent m s fs first.
Proof.
  revert first. induction fs as [|f fs IH]; intros first; [done|].
  cbn [marshal_fields_multiline]. rewrite !IH.
  assert (json.marshal_field (with_shape c s m) s f = json.marshal_field m s f)
    as -> by (by destruct f).
  done.
Qed.

End ByValue.

(** Encoding through the methods of [Shape], [CircleShape] and
    [RectangleShape], which take the struct by value, gives what
    [Caster.MarshalJSON] gives on the record itself and, where that is a
    text, what [Caster.String] gives on it.  The record, every other
    record and all that the pointers point to are left as they were:
    all that is written is the copy. *)
Theorem MarshalJSON_by_value (bytes_at_error : mem → loc → string)
    (c : loc) (m : mem) (s : shape) :
  shapes m !! c = Some s →
  ∃ m',
    Shape_MarshalJSON s m = ((sumtype.MarshalJSON c m).1, m')
    ∧ (∀ text, (sumtype.MarshalJSON c m).1 = Returned (json.Ok text) →
         Shape_String bytes_at_error s m
         = ((Caster_String bytes_at_error c m).1, m'))
    ∧ strs m' = strs m ∧ kinds m' = kinds m ∧ ints m' = ints m
    ∧ ∀ c', is_Some (shapes m !! c') → shapes m' !! c' = shapes m !! c'.
Proof.
  intros Hs. set (c0 := fresh (dom (shapes m))).
  exists (with_shape c0 s m).
  split; [|split; [|repeat split]].
  - unfold Shape_MarshalJSON, by_value, sumtype.MarshalJSON, json.Marshal,
      caster. fold c0.
    erewrite bind_returned;
      [|unfold load_shape; simpl; by rewrite lookup_insert_eq].
    erewrite bind_returned; [|unfold load_shape; simpl; by rewrite Hs].
    rewrite marshal_fields_copy.
    destruct (json.marshal_fields m s json.fields true) as [[?|?]|?];
      reflexivity.
  - intros text. unfold sumtype.MarshalJSON, json.Marshal.
    erewrite bind_returned; [|unfold load_shape; simpl; by rewrite Hs].
    pose proof (marshal_fields_multiline_outcome tab m s json.fields true) as H.
    destruct (json.marshal_fields m s json.fields true) as [[a|?]|?];
      [|done|done].
    intros _.
    destruct (marshal_fields_multiline tab m s json.fields true)
      as [[b|?]|?] eqn:Hb; [|done|done].
    set (t := match b with
              | EmptyString => "{}"
              | _ => "{" +:+ b +:+ newline +:+ "}"
              end).
    unfold Shape_String, by_value, Caster_String, Marshal_multiline, caster.
    fold c0.
    rewrite (bind_returned _ _ _ (json.Ok t) (with_shape c0 s m)).
    2: { erewrite bind_returned;
           [|unfold load_shape; simpl; by rewrite lookup_insert_eq].
         rewrite marshal_fields_multiline_copy, Hb. by destruct b. }
    rewrite (bind_returned _ _ m (json.Ok t) m).
    2: { erewrite bind_returned; [|unfold load_shape; simpl; by rewrite Hs].
         rewrite Hb. by destruct b. }
    done.
  - intros c' Hc'. simpl. apply lookup_insert_ne.
    intros <-. by apply fresh_ne in Hc'.
Qed.

Lemma MarshalJSON_by_value_witness :
  shapes mem_circle !! 1%positive = Some red_circle
  ∧ ∃ m',
      Shape_MarshalJSON red_circle mem_circle
      = ((sumtype.MarshalJSON 1%positive mem_circle).1, m')
      ∧ strs m' = strs mem_circle.
Proof.
  split; [reflexivity|].
  destruct (MarshalJSON_by_value (λ _ _, "") 1%positive mem_circle red_circle
              eq_refl) as (m' & H1 & _ & H2 & _).
  by exists m'.
Defined.

(** ** More on decoding *)

Section DecodeMore.

Import jsontext json.

(** The first character of the text of a value tells its kind. *)
Lemma read_value_first (fuel : nat) (data rest : string) (v : Value) :
  read_value (S fuel) data = Some (v, rest) →
  ∃ x r, skip_ws data = String x r
         ∧ match v with
           | Null => x = "n"%char
           | Object _ => x = "{"%char
           | Array _ => x = "["%char
           | _ => x ≠ "n"%char ∧ x ≠ "["%char ∧ x ≠ "{"%char
           end.
Proof.
  cbn [read_value]. destruct (skip_ws data) as [|x r] eqn:E; [done|].
  intros H. exists x, r. split; [done|].
  destruct (Ascii.eqb_spec x "n") as [->|?]; [repeat case_match; by simplify_eq|].
  destruct (Ascii.eqb_spec x "t") as [->|?]; [repeat case_match; by simplify_eq|].
  destruct (Ascii.eqb_spec x "f") as [->|?]; [repeat case_match; by simplify_eq|].
  destruct (Ascii.eqb_spec x dquote) as [->|?];
    [repeat case_match; by simplify_eq|].
  destruct (Ascii.eqb_spec x "[") as [->|?]; [repeat case_match; by simplify_eq|].
  destruct (Ascii.eqb_spec x "{") as [->|?]; [repeat case_match; by simplify_eq|].
  unfold read_number in H. repeat case_match; by simplify_eq.
Qed.

End DecodeMore.

(** Decoding a text that is a JSON value but no object.  The value
    [null] sets the record to its zero value: every field is nil
    afterwards, and there is no error unless something follows the
    value.  Any other value, a number, a string, a boolean or an array,
    is refused with an error, and memory is left as it was. *)
Theorem decode_of_a_value_that_is_no_object (c : loc) (m : mem) (s : shape)
    (data rest : string) (v : jsontext.Value) :
  shapes m !! c = Some s →
  jsontext.read_value (S (String.length data)) data = Some (v, rest) →
  match v with
  | jsontext.Null =>
      sumtype.UnmarshalJSON c data m
      = (Returned (json.check_eof rest), with_shape c zero_shape m)
  | jsontext.Object _ => True
  | _ =>
      sumtype.UnmarshalJSON c data m = (Returned (Some json.SemanticError), m)
  end.
Proof.
  intros Hs Hv. pose proof Hv as Hfirst.
  apply read_value_first in Hfirst as (x & r & Hx & Hkind).
  unfold sumtype.UnmarshalJSON, json.Unmarshal, jsontext.expect.
  rewrite Hx.
  destruct (Ascii.eqb_spec x "{") as [->|H1].
  { destruct v; try done; by destruct Hkind as (_ & _ & ?). }
  destruct (Ascii.eqb_spec x "[") as [->|H2].
  { destruct v; try done; by destruct Hkind as (_ & ? & _). }
  rewrite Hv. destruct v; try done.
  erewrite bind_returned; [|unfold load_shape; simpl; by rewrite Hs].
  erewrite bind_returned; [|reflexivity]. reflexivity.
Qed.

Lemma decode_of_a_value_that_is_no_object_witness :
  shapes mem_circle !! 1%positive = Some red_circle
  ∧ sumtype.UnmarshalJSON 1%positive " null " mem_circle
    = (Returned None, with_shape 1%positive zero_shape mem_circle).
Proof.
  split; [reflexivity|].
  apply (decode_of_a_value_that_is_no_object 1%positive mem_circle red_circle
           " null " " " jsontext.Null eq_refl eq_refl).
Defined.

(** After a text with a member [kind] was decoded without an error, the
    guarded reads follow the text: [Circle()] returns the record when the
    member is ["circle"] and panics, naming the member, when it is
    anything else, and so does [Rectangle()] with ["rectangle"]. *)
Theorem guard_after_decoding (c : loc) (m m' : mem) (s : shape) (data : string)
    (ms : list (string * jsontext.Value)) (k : string) :
  shapes m !! c = Some s → object_text data ms →
  ("kind", jsontext.Str k) ∈ ms →
  sumtype.UnmarshalJSON c data m = (Returned None, m') →
  Circle c m'
  = (if String.eqb k "circle"
     then Returned {| vtype := As_CircleShape; vaddr := c |}
     else Panicked (PanicString
            ("can't cast shape from Kind=" +:+ k +:+ " to Kind=circle")),
     m')
  ∧ Rectangle c m'
    = (if String.eqb k "rectangle"
       then Returned {| vtype := As_RectangleShape; vaddr := c |}
       else Panicked (PanicString
              ("can't cast shape from Kind=" +:+ k +:+ " to Kind=rectangle")),
       m').
Proof.
  intros Hs Hobj Hk Hrun.
  rewrite (UnmarshalJSON_object data ms c m Hobj) in Hrun.
  assert (NoDup (wrap ms).*1) as Hnd.
  { destruct Hobj as (rest & Hread & _). rewrite wrap_names.
    by eapply object_names. }
  destruct (unmarshal_members_effect c (wrap ms) Hnd m s m' Hs Hrun)
    as (s' & Hs' & _ & Hkind).
  assert (deref (kinds m') (Kind s') = Some k) as Hd.
  { apply Hkind. unfold wrap. apply list_elem_of_fmap.
    exists ("kind", jsontext.Str k). by split. }
  apply deref_Some in Hd as (l & Hl & Hkl).
  split.
  - unfold Circle. destruct (String.eqb_spec k "circle") as [->|Hne].
    + erewrite bind_returned; [reflexivity|]. by eapply ensureKind_match.
    + erewrite bind_panicked; [reflexivity|]. by eapply ensureKind_mismatch.
  - unfold Rectangle. destruct (String.eqb_spec k "rectangle") as [->|Hne].
    + erewrite bind_returned; [reflexivity|]. by eapply ensureKind_match.
    + erewrite bind_panicked; [reflexivity|]. by eapply ensureKind_mismatch.
Qed.

Lemma guard_after_decoding_witness :
  let ms := [("kind", jsontext.Str "circle");
             ("width", jsontext.Number false (D3 Nil) true);
             ("extra", jsontext.Array [jsontext.Number false (D1 Nil) true;
                                       jsontext.Number false (D2 Nil) true])] in
  let m' := (sumtype.UnmarshalJSON 1%positive circle_with_width mem_unset).2 in
  shapes mem_unset !! 1%positive = Some zero_shape
  ∧ object_text circle_with_width ms
  ∧ Rectangle 1%positive m'
    = (Panicked (PanicString
         "can't cast shape from Kind=circle to Kind=rectangle"), m').
Proof.
  intros ms m'.
  assert (object_text circle_with_width ms) as Hobj.
  { exists "". split; vm_compute; reflexivity. }
  split; [reflexivity|]. split; [exact Hobj|].
  destruct (guard_after_decoding 1%positive mem_unset m' zero_shape
              circle_with_width ms "circle" eq_refl Hobj) as [_ H].
  - set_solver.
  - vm_compute. reflexivity.
  - exact H.
Defined.

(** A text without a member [kind], decoded into a record whose
    discriminator is nil, leaves it nil, whether the decoding returns an
    error or not.  The record can then neither be read as a variant nor
    be switched to one: the guarded reads panic with the message for a
    nil kind, and the switches with a nil dereference. *)
Theorem decoding_without_kind (c : loc) (m m' : mem) (s : shape) (data : string)
    (ms : list (string * jsontext.Value)) (r : option json.error) :
  shapes m !! c = Some s → Kind s = None →
  object_text data ms → "kind" ∉ ms.*1 →
  sumtype.UnmarshalJSON c data m = (Returned r, m') →
  Circle c m'
  = (Panicked (PanicString "can't cast shape from Kind=nil to Kind=circle"), m')
  ∧ Rectangle c m'
    = (Panicked (PanicString "can't cast shape from Kind=nil to Kind=rectangle"),
       m')
  ∧ SetCircle c m' = (Panicked NilDereference, m')
  ∧ SetRectangle c m' = (Panicked NilDereference, m').
Proof.
  intros Hs Hnil Hobj Hno Hrun.
  rewrite (UnmarshalJSON_object data ms c m Hobj) in Hrun.
  destruct (unmarshal_members_frame c (wrap ms) m s Hs)
    as (r1 & m1 & s' & Hrun1 & Hs' & Hslot & _).
  rewrite Hrun in Hrun1. injection Hrun1 as <- <-.
  assert (Kind s' = None) as Hk.
  { rewrite <- Hnil. apply (Hslot json.FKind). by rewrite wrap_names. }
  repeat split.
  - unfold Circle. erewrite bind_panicked; [reflexivity|].
    by apply (ensureKind_nil c m' s').
  - unfold Rectangle. erewrite bind_panicked; [reflexivity|].
    by apply (ensureKind_nil c m' s').
  - unfold SetCircle. erewrite bind_returned; [|reflexivity].
    erewrite bind_panicked; [reflexivity|by apply (assign_Kind_nil c m' s')].
  - unfold SetRectangle. erewrite bind_returned; [|reflexivity].
    erewrite bind_panicked; [reflexivity|by apply (assign_Kind_nil c m' s')].
Qed.

Lemma decoding_without_kind_witness :
  let data := json_text "{'color':'red'}" in
  let m' := (sumtype.UnmarshalJSON 1%positive data mem_unset).2 in
  SetCircle 1%positive m' = (Panicked NilDereference, m').
Proof.
  intros data m'.
  destruct (decoding_without_kind 1%positive mem_unset m' zero_shape data
              [("color", jsontext.Str "red")] None eq_refl eq_refl)
    as (_ & _ & H & _).
  - exists "". split; vm_compute; reflexivity.
  - apply (bool_decide_unpack _). by vm_compute.
  - vm_compute. reflexivity.
  - exact H.
Defined.

(** What is left of the contents of a record when the strings that
    [omitempty] drops are taken out. *)
Definition without_empty (x : contents) : contents :=
  let drop (v : option string) :=
    match v with Some "" => None | _ => v end in
  {| cColor := drop (cColor x); cKind := drop (cKind x);
     cRadius := cRadius x; cWidth := cWidth x; cHeight := cHeight x |}.

(** Encoding and decoding again, for any record whose pointers point to
    strings of valid UTF-8 and to integers of the 64-bit type [int],
    whether it is populated as a variant or not (a record that has the
    shared fields alone, for one): the text decodes, into a record that
    was zero, without error and to the contents of the record, less the
    empty strings. *)
Theorem roundtrip_of_any_record (c : loc) (m : mem) (s : shape) :
  shapes m !! c = Some s → valid m s →
  ∃ text,
    sumtype.MarshalJSON c m = (Returned (json.Ok text), m)
    ∧ ∀ m2 c2,
        shapes m2 !! c2 = Some zero_shape →
        ∃ m3,
          sumtype.UnmarshalJSON c2 text m2 = (Returned None, m3)
          ∧ read m3 c2 = Some (without_empty (contents_of m s)).
Proof.
  intros Hs Hvalid.
  destruct (roundtrip m c s Hs Hvalid) as (text & Hm & Hu).
  exists text. split; [done|]. intros m2 c2 Hs2.
  destruct (Hu m2 c2 Hs2) as (m3 & s3 & Hrun & Hs3 & _ & Hget).
  exists m3. split; [done|]. unfold read. rewrite Hs3. simpl. f_equal.
  rewrite !contents_of_get, !Hget. unfold without_empty, get. simpl.
  destruct (Color s) as [l1|], (Kind s) as [l2|], (Radius s) as [l3|],
    (Width s) as [l4|], (Height s) as [l5|]; simpl;
    repeat match goal with |- context [?h !! ?l] => destruct (h !! l) end;
    simpl; repeat case_match; simplify_eq/=; done.
Qed.

(** [Shape{Color: ptr("purple"), Kind: ptr(CircleShapeKind)}] *)
Definition mem_purple : mem :=
  mem_of [(1%positive, "purple")] [(1%positive, CircleShapeKind)] []
    {| Color := Some 1%positive; Kind := Some 1%positive; Radius := None;
       Width := None; Height := None |}.

Lemma roundtrip_of_any_record_witness :
  ∃ text,
    sumtype.MarshalJSON 1%positive mem_purple
    = (Returned (json.Ok text), mem_purple)
    ∧ ∀ m2 c2,
        shapes m2 !! c2 = Some zero_shape →
        ∃ m3,
          sumtype.UnmarshalJSON c2 text m2 = (Returned None, m3)
          ∧ read m3 c2
            = Some {| cColor := Some "purple"; cKind := Some CircleShapeKind;
                      cRadius := None; cWidth := None; cHeight := None |}.
Proof.
  apply (roundtrip_of_any_record 1%positive mem_purple _ eq_refl).
  intros f Hf. destruct f; try done; eexists; (split; [reflexivity|done]).
Defined.

(** ** Encoding again what was decoded *)

Section Reencode.

Import json.

(** The text of a cell. *)
Definition cell_text (x : cell) : string :=
  match x with
  | CStr v => jsontext.quote v
  | CInt z => format_int z
  end.

(** What [Marshal] writes for a field is decided by what the field
    holds, less the empty string. *)
Lemma marshal_field_get (m : mem) (s : shape) (f : field) :
  valid m s →
  marshal_field m s f = Returned (Ok (cell_text <$> (get m s f ≫= kept))).
Proof.
  intros Hv. specialize (Hv f). unfold marshal_field, get in *.
  destruct (slot f s) as [l|]; [|done].
  destruct Hv as (x & Hx & Hfit); [done|].
  destruct f; simpl in *;
    (destruct (_ !! l) as [v|]; [|done]); simpl; simplify_eq/=;
    try done; unfold marshal_string; rewrite Hfit; by destruct v.
Qed.

Lemma marshal_fields_get (m m' : mem) (s s' : shape) (fs : list field)
    (first : bool) :
  valid m s → valid m' s' →
  (∀ f, get m' s' f ≫= kept = get m s f ≫= kept) →
  marshal_fields m' s' fs first = marshal_fields m s fs first.
Proof.
  intros Hv Hv' Hget. revert first.
  induction fs as [|f fs IH]; intros first; [done|].
  cbn [marshal_fields].
  rewrite (marshal_field_get m s f Hv), (marshal_field_get m' s' f Hv'), Hget.
  by rewrite !IH.
Qed.

Lemma kept_kept (x : option cell) : (x ≫= kept) ≫= kept = x ≫= kept.
Proof. by destruct x as [[[|a v]|z]|]. Qed.

End Reencode.

(** Encoding, decoding and encoding again gives the first text again:
    for a record whose pointers point to strings of valid UTF-8 and to
    integers of the type [int], the text decodes into a record that was
    zero, and that record is encoded as the same text. *)
Theorem reencoding_gives_the_text_again (c : loc) (m : mem) (s : shape) :
  shapes m !! c = Some s → valid m s →
  ∃ text,
    sumtype.MarshalJSON c m = (Returned (json.Ok text), m)
    ∧ ∀ m2 c2,
        shapes m2 !! c2 = Some zero_shape →
        ∃ m3,
          sumtype.UnmarshalJSON c2 text m2 = (Returned None, m3)
          ∧ sumtype.MarshalJSON c2 m3 = (Returned (json.Ok text), m3).
Proof.
  intros Hs Hvalid.
  destruct (roundtrip m c s Hs Hvalid) as (text & Hm & Hu).
  exists text. split; [done|]. intros m2 c2 Hs2.
  destruct (Hu m2 c2 Hs2) as (m3 & s3 & Hrun & Hs3 & Ha & Hget).
  exists m3. split; [done|].
  assert (valid m3 s3) as Hvalid3.
  { intros f Hf. destruct (Ha f Hf) as [x Hx]. exists x. split; [done|].
    rewrite Hget in Hx.
    destruct (get m s f) as [y|] eqn:Hy; [|done].
    destruct (Hvalid f) as (y' & Hy' & Hfit).
    { unfold get in Hy. by destruct (json.slot f s). }
    rewrite Hy in Hy'. injection Hy' as <-.
    destruct y as [[|a v]|z]; by simplify_eq/=. }
  revert Hm. unfold sumtype.MarshalJSON, json.Marshal.
  erewrite !bind_returned;
    [|unfold load_shape; simpl; by rewrite Hs3
     |unfold load_shape; simpl; by rewrite Hs].
  rewrite (marshal_fields_get m m3 s s3 json.fields true Hvalid Hvalid3).
  2: { intros f. by rewrite Hget, kept_kept. }
  destruct (json.marshal_fields m s json.fields true) as [[body|?]|?]; [|done|done].
  by intros [= <-].
Qed.

Lemma reencoding_gives_the_text_again_witness :
  ∃ text,
    sumtype.MarshalJSON 1%positive mem_purple
    = (Returned (json.Ok text), mem_purple)
    ∧ ∀ m2 c2,
        shapes m2 !! c2 = Some zero_shape →
        ∃ m3,
          sumtype.UnmarshalJSON c2 text m2 = (Returned None, m3)
          ∧ sumtype.MarshalJSON c2 m3 = (Returned (json.Ok text), m3).
Proof.
  apply (reencoding_gives_the_text_again 1%positive mem_purple _ eq_refl).
  intros f Hf. destruct f; try done; eexists; (split; [reflexivity|done]).
Defined.
